(** * The medical data-engineering pipeline of nexent: a shallow embedding

    The Python sources under
    [backend/tool_collection/mcp/medical_data_processing], and the cleaning
    tool of [local_mcp_service.py], are embedded as Rocq functions, one
    module per source file:

    - [PyStr]:      Python [str] values as lists of Unicode code points;
    - [Regex]:      the fragment of [re] that the patterns use;
    - [PyFloat]:    float operations over an abstract rounding operator;
    - [Cleaner]:    [data_cleaner.py];
    - [Service]:    the tool [medical_data_cleaner];
    - [Generator]:  [qa_generator.py], with [random] as an oracle;
    - [Integrator]: [knowledge_base_integrator.py], with the clock and the
                    search engine as explicit state;
    - [Annotator]:  [_merge_overlapping_annotations] of
                    [knowledge_annotator.py].

    Python [int] is [Z] (or [nat] for a length or an index); a finite
    Python [float] is the rational it denotes ([Q]), so the comparisons on
    floats are the exact comparisons on [Q]. *)

From Stdlib Require Import String Ascii DecimalString.
From Stdlib Require Import List ZArith NArith QArith Bool Lia Lqa.
From Stdlib Require Import Sorting.Sorted Sorting.Permutation.
Import ListNotations.

(* ================================================================== *)
(** ** Python strings *)

Module PyStr.
Local Open Scope nat_scope.

(** A [str] is a sequence of code points; [len] is [List.length]. *)
Definition pystr : Type := list N.

(** Source literals are written in UTF-8; [utf8] decodes the bytes of a
    literal into its code points. *)
Fixpoint utf8 (bs : list N) : pystr :=
  match bs with
  | [] => []
  | b :: r =>
      if (b <? 128)%N then b :: utf8 r
      else if (b <? 224)%N then
        match r with
        | c1 :: r' => ((b - 192) * 64 + (c1 - 128))%N :: utf8 r'
        | _ => []
        end
      else if (b <? 240)%N then
        match r with
        | c1 :: c2 :: r' =>
            ((b - 224) * 4096 + (c1 - 128) * 64 + (c2 - 128))%N :: utf8 r'
        | _ => []
        end
      else
        match r with
        | c1 :: c2 :: c3 :: r' =>
            ((b - 240) * 262144 + (c1 - 128) * 4096
             + (c2 - 128) * 64 + (c3 - 128))%N :: utf8 r'
        | _ => []
        end
  end.

Definition U (s : string) : pystr :=
  utf8 (map Byte.to_N (list_byte_of_string s)).

Definition str_eqb (a b : pystr) : bool :=
  if list_eq_dec N.eq_dec a b then true else false.

Lemma str_eqb_eq (a b : pystr) : str_eqb a b = true <-> a = b.
Proof.
  unfold str_eqb. destruct (list_eq_dec N.eq_dec a b); split; congruence.
Qed.

(** [sub in s] for two strings. *)
Fixpoint startswith (p s : pystr) : bool :=
  match p, s with
  | [], _ => true
  | _ :: _, [] => false
  | a :: p', b :: s' => (a =? b)%N && startswith p' s'
  end.

Fixpoint contains (sub s : pystr) : bool :=
  startswith sub s
  || match s with
     | [] => false
     | _ :: s' => contains sub s'
     end.

(** [str.isspace] on one character, which is also the class [\s] of a
    [str] pattern. *)
Definition isspace (c : N) : bool :=
  ((9 <=? c) && (c <=? 13) || (28 <=? c) && (c <=? 32)
   || (c =? 133) || (c =? 160) || (c =? 5760)
   || (8192 <=? c) && (c <=? 8202)
   || (c =? 8232) || (c =? 8233) || (c =? 8239) || (c =? 8287)
   || (c =? 12288))%N.

(** The first code point of each block of ten decimal digits (Unicode
    category Nd); [\d] of a [str] pattern is membership in one of them. *)
Definition decimal_blocks : list N :=
  [48; 1632; 1776; 1984; 2406; 2534; 2662; 2790; 2918; 3046; 3174; 3302;
   3430; 3558; 3664; 3792; 3872; 4160; 4240; 6112; 6160; 6470; 6608; 6784;
   6800; 6992; 7088; 7232; 7248; 42528; 43216; 43264; 43472; 43504; 43600;
   44016; 65296; 66720; 68912; 69734; 69872; 69942; 70096; 70384; 70736;
   70864; 71248; 71360; 71472; 71904; 72016; 72784; 73040; 73120; 73552;
   92768; 92864; 93008; 120782; 120792; 120802; 120812; 120822; 123200;
   123632; 124144; 125264; 130032]%N.

Definition isdecimal (c : N) : bool :=
  existsb (fun b => (b <=? c) && (c <? b + 10))%N decimal_blocks.

Fixpoint lstrip (s : pystr) : pystr :=
  match s with
  | [] => []
  | c :: s' => if isspace c then lstrip s' else s
  end.

Definition rstrip (s : pystr) : pystr := rev (lstrip (rev s)).

(** [s.strip()] *)
Definition strip (s : pystr) : pystr := rstrip (lstrip s).

(** [s.split(sep)] for a one-character separator. *)
Fixpoint split_on (sep : N) (s : pystr) : list pystr :=
  match s with
  | [] => [[]]
  | c :: s' =>
      if (c =? sep)%N then [] :: split_on sep s'
      else match split_on sep s' with
           | w :: ws => (c :: w) :: ws
           | [] => [[c]]
           end
  end.

(** [list(set(l))] for a list of strings. The iteration order of a set of
    [str] is not fixed by the language; the model lists the distinct
    elements in the order of their first occurrence. *)
Fixpoint distinct (l : list pystr) : list pystr :=
  match l with
  | [] => []
  | x :: l' => x :: filter (fun y => negb (str_eqb x y)) (distinct l')
  end.

(** [str(n)] for a natural number. *)
Definition str_of_nat (n : nat) : pystr :=
  U (NilZero.string_of_uint (Nat.to_uint n)).

(** [sep.join(parts)] *)
Fixpoint join (sep : pystr) (parts : list pystr) : pystr :=
  match parts with
  | [] => []
  | [x] => x
  | x :: rest => x ++ sep ++ join sep rest
  end.

(** [s.split()]: the maximal runs of characters that are not whitespace.
    [word] is the run being read, reversed. *)
Fixpoint words_from (word : pystr) (s : pystr) : list pystr :=
  match s with
  | [] => match word with [] => [] | _ => [rev word] end
  | c :: s' =>
      if isspace c then
        match word with
        | [] => words_from [] s'
        | _ => rev word :: words_from [] s'
        end
      else words_from (c :: word) s'
  end.

Definition words (s : pystr) : list pystr := words_from [] s.

Lemma lstrip_length s : length (lstrip s) <= length s.
Proof.
  induction s as [|c s IH]; simpl; [lia|].
  destruct (isspace c); simpl; lia.
Qed.

Lemma strip_length s : length (strip s) <= length s.
Proof.
  unfold strip, rstrip. rewrite length_rev.
  etransitivity; [apply lstrip_length|].
  rewrite length_rev. apply lstrip_length.
Qed.

End PyStr.

(* ================================================================== *)
(** ** The fragment of [re] used by the pipeline

    The patterns of the cleaner and of the generator are built from
    literals, character classes, concatenation, alternation and greedy
    repetition of a character class; they have no capture groups, anchors
    or look-around. Matching is by backtracking, leftmost alternative and
    longest repetition first, as in [re]. *)

Module Regex.
Import PyStr.
Local Open Scope nat_scope.

Inductive re : Type :=
| Eps
| Chr (p : N -> bool)
| Cat (r1 r2 : re)
| Alt (r1 r2 : re)
| Star (p : N -> bool).

Definition Plus (p : N -> bool) : re := Cat (Chr p) (Star p).

(** [c{n,}] *)
Fixpoint AtLeast (n : nat) (p : N -> bool) : re :=
  match n with
  | O => Star p
  | S n' => Cat (Chr p) (AtLeast n' p)
  end.

Fixpoint Lit (s : pystr) : re :=
  match s with
  | [] => Eps
  | c :: s' => Cat (Chr (N.eqb c)) (Lit s')
  end.

Fixpoint Seq (rs : list re) : re :=
  match rs with
  | [] => Eps
  | r :: rs' => Cat r (Seq rs')
  end.

(** [a|b|...]; the empty alternation matches nothing. *)
Fixpoint Alts (rs : list re) : re :=
  match rs with
  | [] => Chr (fun _ => false)
  | [r] => r
  | r :: rs' => Alt r (Alts rs')
  end.

(** [[abc]] and [[^abc]], with [extra] for the class escapes in the set. *)
Definition OneOf (cs : pystr) (extra : N -> bool) : N -> bool :=
  fun c => existsb (N.eqb c) cs || extra c.

Definition NoneOf (cs : pystr) (extra : N -> bool) : N -> bool :=
  fun c => negb (OneOf cs extra c).

Definition no_class : N -> bool := fun _ => false.

(** The matcher, in continuation-passing style: [m r s k] matches [r] at the
    start of [s] and hands the rest of the string to [k]; when [k] refuses,
    the matcher backtracks. *)
Fixpoint star (p : N -> bool) (k : pystr -> option pystr) (s : pystr)
    : option pystr :=
  match s with
  | [] => k []
  | c :: s' =>
      if p c then
        match star p k s' with
        | Some x => Some x
        | None => k s
        end
      else k s
  end.

Fixpoint m (r : re) (s : pystr) (k : pystr -> option pystr) : option pystr :=
  match r with
  | Eps => k s
  | Chr p =>
      match s with
      | c :: s' => if p c then k s' else None
      | [] => None
      end
  | Cat r1 r2 => m r1 s (fun s' => m r2 s' k)
  | Alt r1 r2 =>
      match m r1 s k with
      | Some x => Some x
      | None => m r2 s k
      end
  | Star p => star p k s
  end.

(** A match at the start of [s]; with [must_advance] the empty match is
    refused (the state in which [re] searches again where an empty match
    was just found). The result is the text after the match. *)
Definition match_at (r : re) (must_advance : bool) (s : pystr) : option pystr :=
  m r s (fun s' =>
           if must_advance && negb (length s' <? length s)%nat then None
           else Some s').

(** The leftmost match in [s]: the text before it, the match, the text
    after it. *)
Fixpoint search (r : re) (must_advance : bool) (s : pystr)
    : option (pystr * pystr * pystr) :=
  match match_at r must_advance s with
  | Some rest => Some ([], firstn (length s - length rest) s, rest)
  | None =>
      match s with
      | [] => None
      | c :: s' =>
          match search r false s' with
          | Some (before, mt, rest) => Some (c :: before, mt, rest)
          | None => None
          end
      end
  end.

(** All non-overlapping matches from left to right, each with the text
    between it and the previous match, and the text after the last match. *)
Fixpoint matches (fuel : nat) (r : re) (must_advance : bool) (s : pystr)
    : list (pystr * pystr) * pystr :=
  match fuel with
  | O => ([], s)
  | S fuel' =>
      match search r must_advance s with
      | None => ([], s)
      | Some (before, mt, rest) =>
          let '(ms, tl) :=
            matches fuel' r (match mt with [] => true | _ => false end) rest in
          ((before, mt) :: ms, tl)
      end
  end.

(** Two searches in a row consume at least one character. *)
Definition all_matches (r : re) (s : pystr) : list (pystr * pystr) * pystr :=
  matches (2 * length s + 2) r false s.

(** [re.sub(r, repl, s)] for a replacement without group references. *)
Definition re_sub (r : re) (repl s : pystr) : pystr :=
  let '(ms, tl) := all_matches r s in
  concat (map (fun bm => fst bm ++ repl) ms) ++ tl.

(** [re.split(r, s)] *)
Definition re_split (r : re) (s : pystr) : list pystr :=
  let '(ms, tl) := all_matches r s in map fst ms ++ [tl].

(** [re.findall(r, s)] *)
Definition re_findall (r : re) (s : pystr) : list pystr :=
  map snd (fst (all_matches r s)).

(** [re.search(r, s)] as a truth value. *)
Definition re_search (r : re) (s : pystr) : bool :=
  match search r false s with
  | Some _ => true
  | None => false
  end.

(** The treatment of empty matches, on the examples of the [re] manual. *)
Example sub_replaces_empty_matches :
  re_sub (Star (N.eqb 120)) (U "-") (U "abxd") = U "-a-b--d-".
Proof. reflexivity. Qed.

Example split_on_empty_matches :
  re_split (Star (N.eqb 120)) (U "axb") = [[]; U "a"; []; U "b"; []].
Proof. reflexivity. Qed.

(** *** Lengths

    [min_len r] is a lower bound on the length of every match of [r]. *)
Fixpoint min_len (r : re) : nat :=
  match r with
  | Eps => 0
  | Chr _ => 1
  | Cat r1 r2 => min_len r1 + min_len r2
  | Alt r1 r2 => Nat.min (min_len r1) (min_len r2)
  | Star _ => 0
  end.

Lemma star_rest p k s res :
  star p k s = Some res ->
  exists s', k s' = Some res /\ length s' <= length s.
Proof.
  induction s as [|c s IH]; simpl; intros H.
  - exists []. split; [exact H | reflexivity].
  - destruct (p c).
    + destruct (star p k s) as [x|] eqn:E.
      * injection H as <-. destruct (IH eq_refl) as [s' [Hk Hl]].
        exists s'. split; [exact Hk | lia].
      * exists (c :: s). split; [exact H | reflexivity].
    + exists (c :: s). split; [exact H | reflexivity].
Qed.

Lemma m_rest r : forall s k res,
  m r s k = Some res ->
  exists s', k s' = Some res /\ length s' + min_len r <= length s.
Proof.
  induction r as [|p|r1 IH1 r2 IH2|r1 IH1 r2 IH2|p]; simpl; intros s k res H.
  - exists s. split; [exact H | lia].
  - destruct s as [|c s]; [discriminate|].
    destruct (p c); [|discriminate].
    exists s. split; [exact H | simpl; lia].
  - destruct (IH1 _ _ _ H) as [s1 [H1 L1]].
    destruct (IH2 _ _ _ H1) as [s2 [H2 L2]].
    exists s2. split; [exact H2 | lia].
  - destruct (m r1 s k) as [x|] eqn:E.
    + injection H as <-. destruct (IH1 _ _ _ E) as [s' [Hk Hl]].
      exists s'. split; [exact Hk | lia].
    + destruct (IH2 _ _ _ H) as [s' [Hk Hl]].
      exists s'. split; [exact Hk | lia].
  - destruct (star_rest _ _ _ _ H) as [s' [Hk Hl]].
    exists s'. split; [exact Hk | lia].
Qed.

Lemma match_at_rest r adv s rest :
  match_at r adv s = Some rest -> length rest + min_len r <= length s.
Proof.
  unfold match_at. intros H. destruct (m_rest _ _ _ _ H) as [s' [Hk Hl]].
  destruct (adv && negb (length s' <? length s)); [discriminate|].
  injection Hk as <-. exact Hl.
Qed.

Lemma search_parts r : forall adv s before mt rest,
  search r adv s = Some (before, mt, rest) ->
  length before + length mt + length rest = length s /\ min_len r <= length mt.
Proof.
  intros adv s. revert adv.
  induction s as [|c s IH]; intros adv before mt rest; cbn [search].
  - destruct (match_at r adv []) as [x|] eqn:E; [|discriminate].
    intros H. injection H as <- <- <-.
    apply match_at_rest in E. simpl in *. destruct x; simpl in *; lia.
  - destruct (match_at r adv (c :: s)) as [x|] eqn:E.
    + intros H. injection H as <- <- <-.
      apply match_at_rest in E.
      rewrite length_firstn. simpl length in *. destruct (length x); lia.
    + destruct (search r false s) as [[[b' m'] r']|] eqn:E'; [|discriminate].
      intros H. injection H as <- <- <-.
      destruct (IH _ _ _ _ E') as [Hl Hm]. simpl. lia.
Qed.

Lemma matches_sub_length r repl :
  1 <= min_len r -> length repl <= 1 ->
  forall fuel adv s ms tl,
    matches fuel r adv s = (ms, tl) ->
    length (concat (map (fun bm => fst bm ++ repl) ms) ++ tl) <= length s.
Proof.
  intros Hr Hrepl. induction fuel as [|fuel IH]; intros adv s ms tl; simpl.
  - intros H. injection H as <- <-. simpl. lia.
  - destruct (search r adv s) as [[[before mt] rest]|] eqn:E.
    + destruct (matches fuel r _ rest) as [ms' tl'] eqn:E'.
      intros H. injection H as <- <-.
      apply IH in E'. apply search_parts in E. destruct E as [Hl Hm].
      simpl. rewrite <- app_assoc, !length_app in *. lia.
    + intros H. injection H as <- <-. simpl. lia.
Qed.

(** *** The fuel of [all_matches] is enough

    A search that must advance and still finds an empty match has skipped
    a character; so the measure below decreases from one search to the
    next, and more fuel than [all_matches] gives changes nothing. *)
Lemma match_at_advances r s rest :
  match_at r true s = Some rest -> length rest < length s.
Proof.
  unfold match_at. intros H. destruct (m_rest _ _ _ _ H) as [s' [Hk Hl]].
  destruct (Nat.ltb_spec (length s') (length s)) as [Hlt|Hge];
    simpl in Hk; [|discriminate].
  injection Hk as <-. exact Hlt.
Qed.

Lemma search_advances r s before mt rest :
  search r true s = Some (before, mt, rest) -> length rest < length s.
Proof.
  destruct s as [|c s]; cbn [search].
  - destruct (match_at r true []) as [x|] eqn:E; [|discriminate].
    apply match_at_advances in E. simpl in E. lia.
  - destruct (match_at r true (c :: s)) as [x|] eqn:E.
    + intros H. injection H as <- <- <-. apply match_at_advances in E. exact E.
    + destruct (search r false s) as [[[b' m'] r']|] eqn:E'; [|discriminate].
      intros H. injection H as <- <- <-.
      apply search_parts in E'. simpl. lia.
Qed.

Definition measure (must_advance : bool) (s : pystr) : nat :=
  2 * length s + (if must_advance then 1 else 2).

Lemma matches_S fuel r adv s :
  matches (S fuel) r adv s
  = match search r adv s with
    | None => ([], s)
    | Some (before, mt, rest) =>
        let '(ms, tl) :=
          matches fuel r (match mt with [] => true | _ => false end) rest in
        ((before, mt) :: ms, tl)
    end.
Proof. reflexivity. Qed.

Lemma matches_more_fuel r : forall fuel adv s,
  measure adv s <= fuel -> matches (S fuel) r adv s = matches fuel r adv s.
Proof.
  induction fuel as [|fuel IH]; intros adv s Hfuel.
  - unfold measure in Hfuel. destruct adv; lia.
  - etransitivity; [apply matches_S|].
    symmetry. etransitivity; [apply matches_S|]. symmetry.
    destruct (search r adv s) as [[[before mt] rest]|] eqn:E; [|reflexivity].
    rewrite IH; [reflexivity|].
    pose proof (search_parts _ _ _ _ _ _ E) as [Hl _].
    unfold measure in *. destruct mt as [|c mt].
    + destruct adv; [apply search_advances in E|]; simpl in Hl; lia.
    + simpl in Hl. destruct adv; lia.
Qed.

Lemma all_matches_fuel r s n :
  matches (2 * length s + 2 + n) r false s = all_matches r s.
Proof.
  unfold all_matches. induction n as [|n IH]; [rewrite Nat.add_0_r; reflexivity|].
  rewrite Nat.add_succ_r, matches_more_fuel; [exact IH|].
  unfold measure. lia.
Qed.

(** Replacing every match of a pattern that matches no empty text by at
    most one character does not lengthen the text. *)
Lemma re_sub_length r repl s :
  1 <= min_len r -> length repl <= 1 -> length (re_sub r repl s) <= length s.
Proof.
  intros Hr Hrepl. unfold re_sub, all_matches.
  destruct (matches _ r false s) as [ms tl] eqn:E.
  eapply matches_sub_length; eassumption.
Qed.

End Regex.

(* ================================================================== *)
(** ** Python floats

    A float operation returns the rounding of the exact result. The
    rounding operator [fl] is kept abstract: what is proved about a score
    holds for every operator that is monotone and leaves the integers from
    0 to 100 unchanged, which IEEE-754 round-to-nearest does and exact
    arithmetic ([exact]) does too. *)

Module PyFloat.

Definition rounding_ok (fl : Q -> Q) : Prop :=
  (forall x y : Q, x <= y -> fl x <= fl y) /\
  (forall n : Z, (0 <= n <= 100)%Z -> fl (inject_Z n) == inject_Z n).

Definition exact : Q -> Q := fun q => q.

(** [min(a, b)]: [b] when [b < a], else [a]. *)
Definition py_min (a b : Q) : Q := if Qlt_le_dec b a then b else a.

(** The integer nearest to [q], ties to the even one. *)
Definition round_half_even (q : Q) : Z :=
  let n := Qnum q in
  let d := Zpos (Qden q) in
  let f := (n / d)%Z in
  let r := (2 * (n mod d))%Z in
  if (r <? d)%Z then f
  else if (d <? r)%Z then (f + 1)%Z
  else if Z.even f then f else (f + 1)%Z.

Section Ops.
Variable fl : Q -> Q.

Definition fadd (a b : Q) : Q := fl (a + b).
Definition fmul (a b : Q) : Q := fl (a * b).
Definition fdiv (a b : Q) : Q := fl (a / b).

(** [round(x, 2)]: the float nearest to the two-decimal rounding of the
    exact value of [x]. *)
Definition round2 (x : Q) : Q :=
  fl (inject_Z (round_half_even (x * 100)) / 100).

End Ops.

Lemma exact_ok : rounding_ok exact.
Proof.
  split; unfold exact.
  - intros x y H. exact H.
  - intros n _. reflexivity.
Qed.

Lemma fl_range (fl : Q -> Q) (a b : Z) (x : Q) :
  rounding_ok fl -> (0 <= a <= 100)%Z -> (0 <= b <= 100)%Z ->
  inject_Z a <= x <= inject_Z b -> inject_Z a <= fl x <= inject_Z b.
Proof.
  intros [Hmono Hint] Ha Hb [Hax Hxb]. split.
  - rewrite <- (Hint a Ha). apply Hmono. exact Hax.
  - rewrite <- (Hint b Hb). apply Hmono. exact Hxb.
Qed.

Lemma py_min_range (a b : Q) :
  0 <= a -> 0 <= b -> 0 <= py_min a b <= b.
Proof.
  intros Ha Hb. unfold py_min. destruct (Qlt_le_dec b a); split; lra.
Qed.

Lemma round_half_even_range (q : Q) :
  0 <= q <= 100 -> (0 <= round_half_even q <= 100)%Z.
Proof.
  destruct q as [n d]. unfold Qle, round_half_even. cbn [Qnum Qden].
  intros [H0 H1]. rewrite Z.mul_1_r in H0, H1.
  set (D := Zpos d) in *. assert (HD : (0 < D)%Z) by (unfold D; lia).
  assert (Hn : (0 <= n)%Z) by lia.
  pose proof (Z.div_pos n D Hn HD) as Hf0.
  assert (Hf1 : (n / D <= 100)%Z) by (apply Z.div_le_upper_bound; lia).
  assert (Hup : (0 < n mod D -> n / D < 100)%Z).
  { intros Hm. apply Z.div_lt_upper_bound; [exact HD|].
    destruct (Z.eq_dec n (D * 100)) as [->|Hne]; [|lia].
    rewrite Z.mul_comm, Z_mod_mult in Hm. lia. }
  pose proof (Z.mod_pos_bound n D HD) as Hm.
  destruct (Z.ltb_spec (2 * (n mod D)) D); [lia|].
  destruct (Z.ltb_spec D (2 * (n mod D))); [lia|].
  destruct (Z.even (n / D)); lia.
Qed.

End PyFloat.

(* ================================================================== *)
(** ** data_cleaner.py *)

Module Cleaner.
Import PyStr Regex PyFloat.

Definition A_to_Z (c : N) : bool := ((65 <=? c) && (c <=? 90))%N.
Definition newline (c : N) : bool := (c =? 10)%N.

(** [self.noise_patterns] *)
Definition noise_patterns : list re :=
  [ Seq [Lit (U "[图"); Star isspace; Plus isdecimal;
         Star (OneOf (U "-.") isdecimal); Lit (U "]")];
    Seq [Lit (U "[表"); Star isspace; Plus isdecimal;
         Star (OneOf (U "-.") isdecimal); Lit (U "]")];
    Seq [Lit (U "第"); Star isspace; Plus isdecimal; Star isspace;
         Lit (U "页")];
    Seq [Lit (U "参考文献"); Star isspace; Lit (U "["); Plus isdecimal;
         Lit (U "]")];
    Seq [Lit (U "见附录"); Star isspace; Chr A_to_Z];
    AtLeast 3 isspace;
    AtLeast 3 newline ].

(** [self.medical_patterns], in insertion order. *)
Definition medical_patterns : list (pystr * re) :=
  [ (U "diseases",
     Alts (map Lit [U "癌"; U "肿瘤"; U "炎"; U "症"; U "病"; U "综合征";
                    U "缺陷"; U "畸形"; U "损伤"; U "破裂"; U "出血";
                    U "梗死"; U "坏死"]));
    (U "anatomy",
     Alts (map Lit [U "心脏"; U "肺"; U "肝"; U "肾"; U "脑"; U "胃"; U "肠";
                    U "骨"; U "肌肉"; U "神经"; U "血管"; U "淋巴"]));
    (U "pathology",
     Alts (map Lit [U "良性"; U "恶性"; U "转移"; U "浸润"; U "增生";
                    U "萎缩"; U "纤维化"; U "钙化"; U "囊性"; U "实性"]));
    (U "diagnosis",
     Alts (map Lit [U "诊断"; U "鉴别诊断"; U "临床表现"; U "症状"; U "体征";
                    U "检查"; U "治疗"; U "预后"]));
    (U "histology",
     Alts (map Lit [U "细胞"; U "组织"; U "上皮"; U "间质"; U "胶原";
                    U "弹性纤维"; U "血管"; U "神经纤维"])) ].

Definition space : pystr := U " ".

Definition _remove_noise (text : pystr) : pystr :=
  let cleaned := fold_left (fun cleaned pattern => re_sub pattern space cleaned)
                           noise_patterns text in
  let cleaned := re_sub (Plus isspace) space cleaned in
  strip cleaned.

Definition _normalize_format (text : pystr) : pystr :=
  let text := re_sub (Chr (OneOf (U "，,") no_class)) (U "，") text in
  let text := re_sub (Chr (OneOf (U "。。") no_class)) (U "。") text in
  let text := re_sub (Chr (OneOf (U "；；") no_class)) (U "；") text in
  let text := re_sub (Chr (OneOf (U "：：") no_class)) (U "：") text in
  let text := re_sub (Chr (OneOf (U "（(") no_class)) (U "（") text in
  let text := re_sub (Chr (OneOf (U "）)") no_class)) (U "）") text in
  text.

(** [[^，。；：\s]] *)
Definition term_char : N -> bool := NoneOf (U "，。；：") isspace.

Definition _extract_medical_terms (text : pystr) : list (pystr * list pystr) :=
  map (fun cp : pystr * re =>
         let found := re_findall (Seq [Star term_char; snd cp; Star term_char]) text in
         (fst cp, distinct (filter (fun t => (2 <=? length t)%nat) found)))
      medical_patterns.

Inductive SegmentType : Type :=
| definition | symptoms | diagnosis | treatment | etiology | general.

Definition _classify_segment (text : pystr) : SegmentType :=
  if re_search (Alts (map Lit [U "定义"; U "概念"; U "是指"])) text then definition
  else if re_search (Alts (map Lit [U "症状"; U "表现"; U "特征"])) text then symptoms
  else if re_search (Alts (map Lit [U "诊断"; U "检查"; U "鉴别"])) text then diagnosis
  else if re_search (Alts (map Lit [U "治疗"; U "用药"; U "手术"])) text then treatment
  else if re_search (Alts (map Lit [U "病因"; U "发病机制"])) text then etiology
  else general.

Record Segment : Type := mkSegment {
  seg_id : nat;
  content : pystr;
  seg_length : nat;
  seg_medical_terms : list (pystr * list pystr);
  segment_type : SegmentType
}.

(** The loop of [_segment_text] over [enumerate(sentences)], from index [i]. *)
Fixpoint segment_loop (i : nat) (sentences : list pystr) : list Segment :=
  match sentences with
  | [] => []
  | sentence :: rest =>
      let sentence := strip sentence in
      if (length sentence <? 10)%nat then segment_loop (S i) rest
      else mkSegment i sentence (length sentence)
                     (_extract_medical_terms sentence)
                     (_classify_segment sentence)
           :: segment_loop (S i) rest
  end.

Definition _segment_text (text : pystr) : list Segment :=
  segment_loop 0 (re_split (Chr (OneOf (U "。！？") no_class)) text).

Definition structure_indicators : list pystr :=
  [U "定义"; U "症状"; U "诊断"; U "治疗"].

Definition nat_Q (n : nat) : Q := inject_Z (Z.of_nat n).

Section Scores.
Variable fl : Q -> Q.

Definition _assess_quality (text : pystr)
    (medical_terms : list (pystr * list pystr)) : Q :=
  let score := 0 in
  let length_score := py_min (fmul fl (fdiv fl (nat_Q (length text)) 1000) 30) 30 in
  let score := fadd fl score length_score in
  let total_terms := list_sum (map (fun ct => length (snd ct)) medical_terms) in
  let terms_score := py_min (fmul fl (fdiv fl (nat_Q total_terms) 20) 40) 40 in
  let score := fadd fl score terms_score in
  let structure_score :=
    list_sum (map (fun _ => 10%nat)
                  (filter (fun indicator => contains indicator text)
                          structure_indicators)) in
  let score := fadd fl score (nat_Q (Nat.min structure_score 30)) in
  round2 fl (fdiv fl score 100).

Record CleanResult : Type := mkCleanResult {
  success : bool;
  original_length : nat;
  cleaned_length : nat;
  cleaned_text : pystr;
  medical_terms : list (pystr * list pystr);
  segments : list Segment;
  quality_score : Q;
  noise_removed : Z;
  medical_terms_count : nat;
  segments_count : nat
}.

(** On a [str] no step of the body raises, so the [except] branch is not
    taken and the result is the success dictionary. *)
Definition clean_medical_text (text : pystr) : CleanResult :=
  let original_length := length text in
  let cleaned_text := _remove_noise text in
  let cleaned_text := _normalize_format cleaned_text in
  let medical_terms := _extract_medical_terms cleaned_text in
  let segments := _segment_text cleaned_text in
  let quality_score := _assess_quality cleaned_text medical_terms in
  mkCleanResult true original_length (length cleaned_text) cleaned_text
                medical_terms segments quality_score
                (Z.of_nat original_length - Z.of_nat (length cleaned_text))
                (length medical_terms) (length segments).

(** The file system as [batch_clean_files] and the tool see it: a path
    names a readable UTF-8 text file, a file that exists but whose [open]
    or [read] raises with some message, or nothing. *)
Inductive FsEntry : Type :=
| Readable (content : pystr)
| Unreadable (error : pystr)
| Absent.

Variable fs : pystr -> FsEntry.

(** [str(e)] of the [FileNotFoundError] that [open] raises. *)
Definition no_such_file (path : pystr) : pystr :=
  U "[Errno 2] No such file or directory: '" ++ path ++ U "'".

Inductive BatchItem : Type :=
| ItemCleaned (result : CleanResult) (file_path : pystr) (file_index : nat)
| ItemFailed (file_path : pystr) (file_index : nat) (error : pystr).

Definition item_success (r : BatchItem) : bool :=
  match r with
  | ItemCleaned result _ _ => success result
  | ItemFailed _ _ _ => false
  end.

Definition item_quality (r : BatchItem) : Q :=
  match r with
  | ItemCleaned result _ _ => quality_score result
  | ItemFailed _ _ _ => 0
  end.

Fixpoint batch_loop (i : nat) (file_paths : list pystr) : list BatchItem :=
  match file_paths with
  | [] => []
  | file_path :: rest =>
      match fs file_path with
      | Readable content =>
          ItemCleaned (clean_medical_text content) file_path (i + 1)
      | Unreadable error => ItemFailed file_path (i + 1) error
      | Absent => ItemFailed file_path (i + 1) (no_such_file file_path)
      end :: batch_loop (S i) rest
  end.

Record BatchReport : Type := mkBatchReport {
  total_files : nat;
  successful : nat;
  failed : Z;
  results : list BatchItem;
  success_rate : Q;
  average_quality : Q
}.

Definition batch_clean_files (file_paths : list pystr) : BatchReport :=
  let results := batch_loop 0 file_paths in
  let total_files := length file_paths in
  let successful := length (filter item_success results) in
  mkBatchReport total_files successful
    (Z.of_nat total_files - Z.of_nat successful) results
    (if (0 <? total_files)%nat
     then fdiv fl (nat_Q successful) (nat_Q total_files) else 0)
    (if (0 <? successful)%nat
     then fdiv fl (fold_left (fadd fl)
                             (map item_quality (filter item_success results)) 0)
                  (nat_Q successful)
     else 0).

End Scores.

Definition scenario : pystr := U "第3页 肺癌是常见恶性肿瘤。患者出现咳嗽症状。".

(** *** Length of the cleaned text *)

Lemma noise_patterns_consume :
  Forall (fun r => (1 <= min_len r)%nat) noise_patterns.
Proof.
  apply Forall_forall. intros r Hr. apply Nat.leb_le.
  revert r Hr. apply forallb_forall. reflexivity.
Qed.

Lemma fold_sub_length (ps : list re) :
  Forall (fun r => (1 <= min_len r)%nat) ps ->
  forall text,
    (length (fold_left (fun cleaned pattern => re_sub pattern space cleaned)
                       ps text) <= length text)%nat.
Proof.
  induction 1 as [|r ps Hr _ IH]; intros text; simpl; [lia|].
  etransitivity; [apply IH|].
  apply re_sub_length; [exact Hr | apply Nat.leb_le; reflexivity].
Qed.

Lemma remove_noise_length text :
  (length (_remove_noise text) <= length text)%nat.
Proof.
  unfold _remove_noise.
  etransitivity; [apply strip_length|].
  etransitivity; [apply re_sub_length; apply Nat.leb_le; reflexivity|].
  apply fold_sub_length, noise_patterns_consume.
Qed.

Lemma sub_char_length (p : N -> bool) (repl text : pystr) :
  (length repl <=? 1)%nat = true ->
  (length (re_sub (Chr p) repl text) <= length text)%nat.
Proof.
  intros H. apply re_sub_length; [simpl; lia | apply Nat.leb_le; exact H].
Qed.

Lemma normalize_format_length text :
  (length (_normalize_format text) <= length text)%nat.
Proof.
  unfold _normalize_format.
  repeat (etransitivity; [apply sub_char_length; reflexivity|]).
  reflexivity.
Qed.

(** *** Range of the quality score *)

Lemma nat_Q_nonneg n : 0 <= nat_Q n.
Proof. unfold nat_Q, Qle. simpl. lia. Qed.

Lemma nat_Q_le n k : (n <= k)%nat -> nat_Q n <= nat_Q k.
Proof. unfold nat_Q, Qle. simpl. lia. Qed.

Lemma scaled_score_range (fl : Q -> Q) (n : nat) (per cap : Z) :
  rounding_ok fl -> (0 < per)%Z -> (0 <= cap <= 100)%Z ->
  0 <= py_min (fmul fl (fdiv fl (nat_Q n) (inject_Z per)) (inject_Z cap))
              (inject_Z cap)
    <= inject_Z cap.
Proof.
  intros Hfl Hper Hcap. pose proof Hfl as [Hmono Hint].
  assert (H0 : fl 0 == 0) by (apply (Hint 0%Z); lia).
  assert (Hc : 0 <= inject_Z cap) by (unfold Qle; simpl; lia).
  apply py_min_range; [|exact Hc].
  unfold fmul, fdiv. rewrite <- H0 at 1. apply Hmono.
  apply Qmult_le_0_compat; [|exact Hc].
  rewrite <- H0 at 1. apply Hmono.
  apply Qle_shift_div_l; [unfold Qlt; simpl; lia|].
  rewrite Qmult_0_l. apply nat_Q_nonneg.
Qed.

Lemma assess_quality_range (fl : Q -> Q) text terms :
  rounding_ok fl -> 0 <= _assess_quality fl text terms <= 1.
Proof.
  intros Hfl. unfold _assess_quality.
  set (ls := py_min (fmul fl (fdiv fl (nat_Q (length text)) 1000) 30) 30).
  set (ts := py_min (fmul fl (fdiv fl (nat_Q _) 20) 40) 40).
  set (ss := nat_Q (Nat.min _ 30)).
  assert (Hls : 0 <= ls <= 30)
    by (apply (scaled_score_range fl _ 1000 30 Hfl); lia).
  assert (Hts : 0 <= ts <= 40)
    by (apply (scaled_score_range fl _ 20 40 Hfl); lia).
  assert (Hss : 0 <= ss <= 30).
  { split; [apply nat_Q_nonneg|].
    change 30 with (nat_Q 30). apply nat_Q_le. lia. }
  clearbody ls ts ss. unfold fadd.
  assert (H1 : 0 <= fl (0 + ls) <= 30)
    by (apply (fl_range fl 0 30 _ Hfl); [lia | lia | unfold inject_Z; lra]).
  set (s1 := fl (0 + ls)) in *.
  assert (H2 : 0 <= fl (s1 + ts) <= 70)
    by (apply (fl_range fl 0 70 _ Hfl); [lia | lia | unfold inject_Z; lra]).
  set (s2 := fl (s1 + ts)) in *.
  assert (H3 : 0 <= fl (s2 + ss) <= 100)
    by (apply (fl_range fl 0 100 _ Hfl); [lia | lia | unfold inject_Z; lra]).
  set (s3 := fl (s2 + ss)) in *.
  unfold fdiv, round2.
  assert (H4 : 0 <= fl (s3 / 100) <= 1).
  { apply (fl_range fl 0 1 _ Hfl); [lia | lia |].
    split; [apply Qle_shift_div_l | apply Qle_shift_div_r];
      unfold inject_Z; lra. }
  set (x := fl (s3 / 100)) in *.
  assert (H5 : (0 <= round_half_even (x * 100) <= 100)%Z)
    by (apply round_half_even_range; lra).
  apply (fl_range fl 0 1 _ Hfl); [lia | lia |].
  split; [apply Qle_shift_div_l | apply Qle_shift_div_r]; try reflexivity.
  - rewrite Qmult_0_l. unfold Qle. simpl. lia.
  - unfold Qle. simpl. lia.
Qed.

(** C4. For every text [T], the cleaned text is at most as long as [T], and
    the quality score lies between 0 and 1; the score is computed with any
    rounding of float operations that is monotone and exact on the integers
    up to 100. *)
Theorem clean_text_shrinks_and_score_in_unit_interval :
  forall (fl : Q -> Q) (T : pystr),
    rounding_ok fl ->
    (length (cleaned_text (clean_medical_text fl T)) <= length T)%nat /\
    0 <= quality_score (clean_medical_text fl T) <= 1.
Proof.
  intros fl T Hfl. unfold clean_medical_text.
  cbn [cleaned_text quality_score]. split.
  - etransitivity; [apply normalize_format_length | apply remove_noise_length].
  - apply assess_quality_range. exact Hfl.
Qed.

Lemma clean_scenario_witness :
  (length (cleaned_text (clean_medical_text exact scenario)) <= length scenario)%nat /\
  0 <= quality_score (clean_medical_text exact scenario) <= 1.
Proof.
  apply (clean_text_shrinks_and_score_in_unit_interval exact scenario).
  exact exact_ok.
Defined.

Definition sentence_end : re := Chr (OneOf (U "。！？") no_class).

(** C5, as the code behaves. On the scenario text the page-number pattern
    (the third noise pattern) matches the marker "第3页" and nothing else,
    the cleaned text is the two sentences, and these are 9 and 8 characters
    long: both fall under the 10-character minimum of [_segment_text], so
    the list of segments is empty. The second sentence taken alone is
    classified as symptoms. *)
Theorem scenario_cleaned_without_segments :
  forall fl : Q -> Q,
    re_findall (nth 2 noise_patterns Eps) scenario = [U "第3页"] /\
    cleaned_text (clean_medical_text fl scenario)
    = U "肺癌是常见恶性肿瘤。患者出现咳嗽症状。" /\
    map (fun sentence => (strip sentence, length (strip sentence)))
        (re_split sentence_end (cleaned_text (clean_medical_text fl scenario)))
    = [(U "肺癌是常见恶性肿瘤", 9%nat); (U "患者出现咳嗽症状", 8%nat); ([], 0%nat)] /\
    segments (clean_medical_text fl scenario) = [] /\
    segments_count (clean_medical_text fl scenario) = 0%nat /\
    _classify_segment (U "患者出现咳嗽症状") = symptoms.
Proof.
  intros fl. unfold clean_medical_text.
  cbn [cleaned_text segments segments_count].
  assert (Hc : _normalize_format (_remove_noise scenario)
               = U "肺癌是常见恶性肿瘤。患者出现咳嗽症状。")
    by (vm_compute; reflexivity).
  rewrite Hc.
  repeat split; vm_compute; reflexivity.
Qed.

(** C5 as stated asks for two segments; the cleaner returns none. *)
Lemma scenario_segments_are_not_two :
  length (segments (clean_medical_text exact scenario)) <> 2%nat.
Proof. vm_compute. discriminate. Qed.

End Cleaner.

(* ================================================================== *)
(** ** local_mcp_service.py: the tool [medical_data_cleaner]

    The tool returns [json.dumps] of a dictionary; the model returns the
    dictionary. *)

Module Service.
Import PyStr Regex PyFloat Cleaner.

Inductive ToolResult : Type :=
| Batch (report : BatchReport)
| FromFile (result : CleanResult) (source_file : pystr)
| FromText (result : CleanResult) (source_type : pystr)
| Failed (error : pystr) (suggestion : pystr).

(** The [except Exception as e] handler of the tool, on [str(e)]. *)
Definition error_result (message : pystr) : ToolResult :=
  Failed (U "医疗数据清洗失败: " ++ message) (U "请检查输入参数是否正确").

Definition missing_input : pystr :=
  U "必须提供text_content、file_path或batch_file_paths中的一个参数".

(** The result of the [ValueError] of line 207. *)
Definition validation_error : ToolResult := error_result missing_input.

Definition comma : N := 44%N.

Definition nonempty (s : pystr) : bool :=
  match s with [] => false | _ => true end.

Section Tool.
Variable fl : Q -> Q.
Variable fs : pystr -> FsEntry.

Definition medical_data_cleaner (text_content file_path batch_file_paths : pystr)
    : ToolResult :=
  if nonempty batch_file_paths then
    let file_paths :=
      map strip (filter (fun path => nonempty (strip path))
                        (split_on comma batch_file_paths)) in
    Batch (batch_clean_files fl fs file_paths)
  else if nonempty file_path then
    match fs file_path with
    | Absent => error_result (U "文件不存在: " ++ file_path)
    | Unreadable error => error_result error
    | Readable content => FromFile (clean_medical_text fl content) file_path
    end
  else if nonempty text_content then
    FromText (clean_medical_text fl text_content) (U "direct_input")
  else validation_error.

End Tool.

(** A file system with one file. *)
Definition one_file (path content : pystr) : pystr -> FsEntry :=
  fun p => if str_eqb p path then Readable content else Absent.

(** C8 as stated asks for a validation error when more than one input is
    given. With a text and a list of paths the tool cleans the listed file
    and reports on the batch. *)
Lemma two_inputs_are_cleaned :
  medical_data_cleaner exact (one_file (U "notes.txt") scenario)
    (U "肺癌") [] (U "notes.txt")
  = Batch (batch_clean_files exact (one_file (U "notes.txt") scenario)
                             [U "notes.txt"])
  /\ successful (batch_clean_files exact (one_file (U "notes.txt") scenario)
                                   [U "notes.txt"]) = 1%nat
  /\ medical_data_cleaner exact (one_file (U "notes.txt") scenario)
        (U "肺癌") [] (U "notes.txt")
     <> validation_error.
Proof.
  split; [reflexivity|]. split; [vm_compute; reflexivity|].
  discriminate.
Qed.

(** C8, as the code behaves. With no input the tool returns the validation
    error. With more than one input no validation error is raised: the
    first non-empty input in the order [batch_file_paths], [file_path],
    [text_content] decides the result and the others are ignored. *)
Theorem cleaner_inputs_first_nonempty_wins :
  forall (fl : Q -> Q) (fs : pystr -> FsEntry),
    medical_data_cleaner fl fs [] [] [] = validation_error /\
    (forall text_content file_path c batch,
        medical_data_cleaner fl fs text_content file_path (c :: batch)
        = Batch (batch_clean_files fl fs
                   (map strip (filter (fun path => nonempty (strip path))
                                      (split_on comma (c :: batch)))))) /\
    (forall text_content c path,
        medical_data_cleaner fl fs text_content (c :: path) []
        = medical_data_cleaner fl fs [] (c :: path) [] /\
        forall content,
          fs (c :: path) = Readable content ->
          medical_data_cleaner fl fs text_content (c :: path) []
          = FromFile (clean_medical_text fl content) (c :: path)) /\
    (forall c text,
        medical_data_cleaner fl fs (c :: text) [] []
        = FromText (clean_medical_text fl (c :: text)) (U "direct_input")).
Proof.
  intros fl fs. split; [reflexivity|]. split; [reflexivity|]. split.
  - intros text_content c path. split; [reflexivity|].
    intros content Hfs. unfold medical_data_cleaner.
    cbn [nonempty]. rewrite Hfs. reflexivity.
  - reflexivity.
Qed.

Lemma cleaner_inputs_witness :
  medical_data_cleaner exact (one_file (U "notes.txt") scenario)
    (U "肺癌") (U "notes.txt") []
  = FromFile (clean_medical_text exact scenario) (U "notes.txt").
Proof.
  apply (proj2 (proj1 (proj2 (proj2
           (cleaner_inputs_first_nonempty_wins
              exact (one_file (U "notes.txt") scenario))))
           (U "肺癌") 110%N (U "otes.txt"))).
  reflexivity.
Defined.

End Service.

(* ================================================================== *)
(** ** qa_generator.py *)

Module Generator.
Import PyStr Regex PyFloat.
Local Open Scope nat_scope.

Inductive exn : Type :=
| KeyError (key : pystr)
| ValueError (message : pystr).

(** *** [str.format] with keyword arguments

    A format string is literal text and replacement fields [{name}];
    [{{] and [}}] stand for braces. The templates of this module use no
    conversion and no format specification. *)
Inductive piece : Type :=
| Text (c : N)
| Field (name : pystr).

Definition lbrace : N := 123%N.
Definition rbrace : N := 125%N.

(** [parse_field s] reads a field name up to the closing brace. *)
Fixpoint parse_field (s : pystr) : option (pystr * pystr) :=
  match s with
  | [] => None
  | c :: s' =>
      if (c =? rbrace)%N then Some ([], s')
      else if (c =? lbrace)%N then None
      else match parse_field s' with
           | Some (name, rest) => Some (c :: name, rest)
           | None => None
           end
  end.

Fixpoint parse_format (fuel : nat) (s : pystr) : option (list piece) :=
  match fuel with
  | O => match s with [] => Some [] | _ => None end
  | S fuel' =>
      match s with
      | [] => Some []
      | c :: s' =>
          if (c =? lbrace)%N then
            match s' with
            | c' :: s'' =>
                if (c' =? lbrace)%N then
                  option_map (cons (Text lbrace)) (parse_format fuel' s'')
                else
                  match parse_field s' with
                  | Some (name, rest) =>
                      option_map (cons (Field name)) (parse_format fuel' rest)
                  | None => None
                  end
            | [] => None
            end
          else if (c =? rbrace)%N then
            match s' with
            | c' :: s'' =>
                if (c' =? rbrace)%N then
                  option_map (cons (Text rbrace)) (parse_format fuel' s'')
                else None
            | [] => None
            end
          else option_map (cons (Text c)) (parse_format fuel' s')
      end
  end.

Fixpoint lookup (key : pystr) (kwargs : list (pystr * pystr)) : option pystr :=
  match kwargs with
  | [] => None
  | (k, v) :: rest => if str_eqb k key then Some v else lookup key rest
  end.

(** Fields are replaced from left to right; the first field without an
    argument raises [KeyError]. *)
Fixpoint fill (pieces : list piece) (kwargs : list (pystr * pystr))
    : exn + pystr :=
  match pieces with
  | [] => inr []
  | Text c :: rest =>
      match fill rest kwargs with
      | inr out => inr (c :: out)
      | inl e => inl e
      end
  | Field name :: rest =>
      match lookup name kwargs with
      | None => inl (KeyError name)
      | Some v =>
          match fill rest kwargs with
          | inr out => inr (v ++ out)
          | inl e => inl e
          end
      end
  end.

Definition format (template : pystr) (kwargs : list (pystr * pystr))
    : exn + pystr :=
  match parse_format (length template) template with
  | None => inl (ValueError (U "Single '{' or '}' encountered in format string"))
  | Some pieces => fill pieces kwargs
  end.

(** *** The random source

    [random] is an oracle: a list of the numbers it will deliver, followed
    by zeros. [randbelow n] reduces the next number modulo [n]. *)
Definition rng : Type := list nat.

Definition randbelow (n : nat) (g : rng) : nat * rng :=
  match g with
  | [] => (0, [])
  | r :: g' => (r mod n, g')
  end.

(** [random.choice(seq)] on a non-empty sequence. *)
Definition choice {A : Type} (default : A) (seq : list A) (g : rng) : A * rng :=
  let '(i, g') := randbelow (length seq) g in (nth i seq default, g').

(** [x[i], x[j] = x[j], x[i]] *)
Definition swap {A : Type} (default : A) (x : list A) (i j : nat) : list A :=
  let xi := nth i x default in
  let xj := nth j x default in
  firstn j (firstn i x ++ xj :: skipn (S i) x)
  ++ xi :: skipn (S j) (firstn i x ++ xj :: skipn (S i) x).

(** [random.shuffle(x)]: for [i] from [len(x) - 1] down to 1, swap [x[i]]
    with [x[randbelow(i + 1)]]. *)
Fixpoint shuffle_from {A : Type} (default : A) (i : nat) (x : list A) (g : rng)
    : list A * rng :=
  match i with
  | O => (x, g)
  | S i' =>
      let '(j, g') := randbelow (S i) g in
      shuffle_from default i' (swap default x i j) g'
  end.

Definition shuffle {A : Type} (default : A) (x : list A) (g : rng)
    : list A * rng :=
  shuffle_from default (length x - 1) x g.

(** *** Tables *)

Inductive QuestionType : Type :=
| q_definition | q_symptoms | q_diagnosis | q_treatment | q_pathology
| q_differential.

Definition type_name (t : QuestionType) : pystr :=
  match t with
  | q_definition => U "definition"
  | q_symptoms => U "symptoms"
  | q_diagnosis => U "diagnosis"
  | q_treatment => U "treatment"
  | q_pathology => U "pathology"
  | q_differential => U "differential"
  end.

(** [self.question_templates] *)
Definition question_templates (t : QuestionType) : list pystr :=
  match t with
  | q_definition =>
      [U "什么是{term}？"; U "{term}的定义是什么？"; U "请解释{term}的含义。";
       U "{term}是指什么？"]
  | q_symptoms =>
      [U "{disease}有哪些症状？"; U "{disease}的临床表现是什么？";
       U "{disease}患者会出现什么症状？"; U "如何识别{disease}的症状？"]
  | q_diagnosis =>
      [U "如何诊断{disease}？"; U "{disease}的诊断方法有哪些？";
       U "{disease}需要做哪些检查？"; U "怎样确诊{disease}？"]
  | q_treatment =>
      [U "{disease}如何治疗？"; U "{disease}的治疗方案是什么？";
       U "{disease}有哪些治疗方法？"; U "如何治疗{disease}患者？"]
  | q_pathology =>
      [U "{disease}的病理特征是什么？"; U "{disease}在显微镜下有什么表现？";
       U "{disease}的组织学特点有哪些？"; U "{disease}的病理改变包括什么？"]
  | q_differential =>
      [U "{disease}需要与哪些疾病鉴别？"; U "如何鉴别{disease}和{other_disease}？";
       U "{disease}的鉴别诊断要点是什么？"; U "{disease}容易与什么疾病混淆？"]
  end.

Inductive Level : Type := easy | medium | hard.

(** [complexity_indicators] of [_assess_difficulty], in insertion order. *)
Definition complexity_indicators : list (Level * list pystr) :=
  [ (easy, [U "什么是"; U "定义"; U "基本"; U "常见"]);
    (medium, [U "如何"; U "诊断"; U "治疗"; U "症状"]);
    (hard, [U "机制"; U "病理"; U "鉴别"; U "复杂"]) ].

Record KeyInfo : Type := mkKeyInfo {
  diseases : list pystr;
  symptoms : list pystr;
  treatments : list pystr;
  anatomy : list pystr;
  pathology_terms : list pystr;
  diagnosis_terms : list pystr
}.

(** *** Difficulty *)

Definition hits (indicators : list pystr) (text : pystr) : nat :=
  length (filter (fun indicator => contains indicator text) indicators).

(** [max(keys, key=score)]: the first key whose score no other exceeds. *)
Fixpoint max_from {A : Type} (score : A -> nat) (best : A) (keys : list A) : A :=
  match keys with
  | [] => best
  | k :: rest =>
      if score best <? score k then max_from score k rest
      else max_from score best rest
  end.

Definition Level_eqb (a b : Level) : bool :=
  match a, b with
  | easy, easy | medium, medium | hard, hard => true
  | _, _ => false
  end.

(** [scores.get(level)] *)
Fixpoint get_score (scores : list (Level * nat)) (level : Level) : nat :=
  match scores with
  | [] => 0
  | (l, n) :: rest => if Level_eqb l level then n else get_score rest level
  end.

Definition _assess_difficulty (question answer : pystr) : Level :=
  let text := question ++ U " " ++ answer in
  let scores :=
    map (fun li : Level * list pystr => (fst li, hits (snd li) text))
        complexity_indicators in
  match map fst scores with
  | [] => medium
  | k :: rest => max_from (get_score scores) k rest
  end.

(** The indicators of a level, read from [complexity_indicators], and the
    number of them found in the text of a pair. *)
Definition indicators_of (level : Level) : list pystr :=
  match find (fun li : Level * list pystr => Level_eqb (fst li) level)
             complexity_indicators with
  | Some li => snd li
  | None => []
  end.

Definition level_hits (level : Level) (question answer : pystr) : nat :=
  hits (indicators_of level) (question ++ U " " ++ answer).

(** *** Input and output *)

(** An entry of [annotations['pathology']] or [annotations['diagnosis']];
    [None] is a missing key. Values are strings, as the annotator
    produces them. *)
Record TermAnnotation : Type := mkTermAnnotation {
  ann_category : option pystr;
  ann_term : option pystr
}.

Record EntityAnnotation : Type := mkEntity {
  ent_type : option pystr;
  ent_text : option pystr
}.

Record Annotations : Type := mkAnnotations {
  ann_pathology : list TermAnnotation;
  ann_diagnosis : list TermAnnotation;
  ann_entities : list EntityAnnotation;
  (** the lengths of the values under the other keys *)
  ann_other_sizes : list nat
}.

Record AnnotatedContent : Type := mkAnnotated {
  ac_success : bool;
  ac_annotations : Annotations;
  ac_content_summary : pystr
}.

Record QAPair : Type := mkQAPair {
  qa_id : pystr;
  question : pystr;
  answer : pystr;
  question_type : QuestionType;
  difficulty : Level;
  keywords : list pystr;
  entity : pystr;
  quality_score : Q
}.

Definition get_str (v : option pystr) : pystr :=
  match v with Some s => s | None => [] end.

Definition is_str (v : option pystr) (s : pystr) : bool :=
  match v with Some x => str_eqb x s | None => false end.

Definition nonempty (s : pystr) : bool :=
  match s with [] => false | _ => true end.

(** [list(set(filter(None, l)))] *)
Definition dedup (l : list pystr) : list pystr := distinct (filter nonempty l).

Definition _extract_key_information (annotations : Annotations) : KeyInfo :=
  let pathology := ann_pathology annotations in
  let diagnosis := ann_diagnosis annotations in
  let entities := ann_entities annotations in
  let category_has (w : pystr) (a : TermAnnotation) :=
    contains w (get_str (ann_category a)) in
  mkKeyInfo
    (dedup
       (map (fun a => get_str (ann_term a))
            (filter (fun a => is_str (ann_category a) (U "疾病分类")) pathology)
        ++ map (fun e => get_str (ent_text e))
               (filter (fun e => is_str (ent_type e) (U "disease")) entities)))
    (dedup
       (map (fun a => get_str (ann_term a))
            (filter (category_has (U "临床表现")) diagnosis)))
    (dedup
       (map (fun a => get_str (ann_term a))
            (filter (fun a => negb (category_has (U "临床表现") a)
                              && category_has (U "治疗") a) diagnosis)))
    (dedup
       (map (fun e => get_str (ent_text e))
            (filter (fun e => negb (is_str (ent_type e) (U "disease"))
                              && is_str (ent_type e) (U "anatomy")) entities)))
    (dedup
       (map (fun a => get_str (ann_term a))
            (filter (fun a => negb (is_str (ann_category a) (U "疾病分类"))
                              && is_str (ann_category a) (U "组织学特征"))
                    pathology)))
    (dedup
       (map (fun a => get_str (ann_term a))
            (filter (fun a => negb (category_has (U "临床表现") a)
                              && negb (category_has (U "治疗") a)) diagnosis))).

(** [counts = [base] * type_count], then one more for the first
    [remainder] entries; [//] and [%] round towards minus infinity. *)
Definition _distribute_question_types (total_count : Z) (type_count : nat)
    : list Z :=
  let base_count := (total_count / Z.of_nat type_count)%Z in
  let remainder := (total_count mod Z.of_nat type_count)%Z in
  map (fun i => if (Z.of_nat i <? remainder)%Z then (base_count + 1)%Z
                else base_count)
      (seq 0 type_count).

(** The pool of [_select_entity_for_type]. *)
Definition entity_pool (t : QuestionType) (key_info : KeyInfo) : list pystr :=
  match t with
  | q_pathology => pathology_terms key_info ++ diseases key_info
  | _ => diseases key_info
  end.

Definition _select_entity_for_type (t : QuestionType) (key_info : KeyInfo)
    (g : rng) : option pystr * rng :=
  match entity_pool t key_info with
  | [] => (None, g)
  | entities => let '(e, g') := choice [] entities g in (Some e, g')
  end.

Definition _generate_question (template entity : pystr) (key_info : KeyInfo)
    (g : rng) : (exn + pystr) * rng :=
  match format template [(U "term", entity); (U "disease", entity)] with
  | inl e => (inl e, g)
  | inr question =>
      if contains (U "{other_disease}") template then
        let other_diseases :=
          filter (fun d => negb (str_eqb d entity)) (diseases key_info) in
        let '(other_disease, g') :=
          match other_diseases with
          | [] => (U "其他疾病", g)
          | _ => choice [] other_diseases g
          end in
        (format question [(U "other_disease", other_disease)], g')
      else (inr question, g)
  end.

Definition sentence_end : re := Chr (OneOf (U "。！？") no_class).

Definition _find_relevant_sentences (entity content : pystr) : list pystr :=
  map strip
      (filter (fun sentence => contains entity sentence
                               && (10 <? length (strip sentence)))
              (re_split sentence_end content)).

Definition _generate_basic_answer (t : QuestionType) (entity : pystr) : pystr :=
  match t with
  | q_definition => entity ++ U "是一种医学概念，需要进一步的专业解释。"
  | q_symptoms => entity ++ U "的症状需要根据具体情况进行临床评估。"
  | q_diagnosis => entity ++ U "的诊断需要结合临床表现和相关检查。"
  | q_treatment => entity ++ U "的治疗应该根据患者具体情况制定个体化方案。"
  | q_pathology => entity ++ U "的病理特征需要通过组织学检查确定。"
  | q_differential => entity ++ U "需要与相关疾病进行鉴别诊断。"
  end.

Definition _generate_answer (t : QuestionType) (entity content : pystr) : pystr :=
  match _find_relevant_sentences entity content with
  | [] => _generate_basic_answer t entity
  | relevant_sentences =>
      join (U " ")
        match t with
        | q_definition => (entity ++ U "是指") :: firstn 2 relevant_sentences
        | q_symptoms =>
            (entity ++ U "的主要症状包括：") :: firstn 3 relevant_sentences
        | q_diagnosis =>
            (entity ++ U "的诊断主要依据：") :: firstn 3 relevant_sentences
        | q_treatment =>
            (entity ++ U "的治疗方法包括：") :: firstn 3 relevant_sentences
        | q_pathology =>
            (entity ++ U "的病理特征表现为：") :: firstn 2 relevant_sentences
        | q_differential => firstn 3 relevant_sentences
        end
  end.

(** [[^，。；：\s]] *)
Definition term_char : N -> bool := NoneOf (U "，。；：") isspace.

Definition keyword_patterns : list re :=
  map (fun alternatives =>
         Seq [Star term_char; Alts (map Lit alternatives); Star term_char])
      [ [U "病"; U "症"; U "癌"; U "瘤"; U "炎"];
        [U "诊断"; U "治疗"; U "检查"; U "手术"];
        [U "细胞"; U "组织"; U "器官"; U "系统"] ].

Definition _extract_keywords (question answer : pystr) : list pystr :=
  let text := question ++ U " " ++ answer in
  firstn 10
    (distinct
       (flat_map (fun pattern =>
                    filter (fun w => 2 <=? length w) (re_findall pattern text))
                 keyword_patterns)).

Definition any_in (ws : list pystr) (s : pystr) : bool :=
  existsb (fun w => contains w s) ws.

Section Generation.
(** [fl] rounds float operations; [str_lower] is [str.lower] and [isword]
    the class [\w], both read from the Unicode tables of the runtime. *)
Variable fl : Q -> Q.
Variable str_lower : pystr -> pystr.
Variable isword : N -> bool.

Definition _calculate_qa_quality (question answer : pystr) : Q :=
  let score := 0%Q in
  let score := if 5 <=? length question then fadd fl score 20%Q else score in
  let score := if contains (U "？") question || contains (U "?") question
               then fadd fl score 10%Q else score in
  let score := if any_in [U "什么"; U "如何"; U "哪些"; U "怎样"] question
               then fadd fl score 20%Q else score in
  let score := if 20 <=? length answer then fadd fl score 20%Q else score in
  let score := if 5 <=? length (words answer) then fadd fl score 15%Q
               else score in
  let score := if any_in [U "包括"; U "表现为"; U "主要"; U "需要"] answer
               then fadd fl score 15%Q else score in
  py_min (fdiv fl score 100%Q) 1%Q.

(** One iteration of the loop of [_generate_qa_by_type]; [made] is
    [len(qa_pairs)]. An exception raised in the body is caught by the
    [except] of line 248 and the iteration yields no pair. *)
Definition generate_one (t : QuestionType) (key_info : KeyInfo)
    (content : pystr) (made : nat) (g : rng) : option QAPair * rng :=
  match _select_entity_for_type t key_info g with
  | (None, g) => (None, g)
  | (Some entity, g) =>
      if negb (nonempty entity) then (None, g)
      else
        let '(template, g) := choice [] (question_templates t) g in
        match _generate_question template entity key_info g with
        | (inl _, g) => (None, g)
        | (inr question, g) =>
            let answer := _generate_answer t entity content in
            (Some (mkQAPair (U "qa_" ++ str_of_nat (made + 1)) question answer t
                            (_assess_difficulty question answer)
                            (_extract_keywords question answer) entity
                            (_calculate_qa_quality question answer)), g)
        end
  end.

Fixpoint qa_loop (t : QuestionType) (key_info : KeyInfo) (content : pystr)
    (count : nat) (qa_pairs : list QAPair) (g : rng) : list QAPair * rng :=
  match count with
  | O => (qa_pairs, g)
  | S count' =>
      match generate_one t key_info content (length qa_pairs) g with
      | (Some qa_pair, g') =>
          qa_loop t key_info content count' (qa_pairs ++ [qa_pair]) g'
      | (None, g') => qa_loop t key_info content count' qa_pairs g'
      end
  end.

(** [range(count)] is empty for a negative [count]. *)
Definition _generate_qa_by_type (t : QuestionType) (key_info : KeyInfo)
    (content : pystr) (count : Z) (g : rng) : list QAPair * rng :=
  match question_templates t with
  | [] => ([], g)
  | _ => qa_loop t key_info content (Z.to_nat count) [] g
  end.

Definition _normalize_question (q : pystr) : pystr :=
  re_sub (Chr (fun c => negb (isword c))) [] (str_lower q).

(** [qa_pairs.sort(key=quality, reverse=True)]: stable, best first. *)
Fixpoint insert_by_quality (x : QAPair) (l : list QAPair) : list QAPair :=
  match l with
  | [] => [x]
  | y :: l' =>
      if Qle_bool (quality_score y) (quality_score x) then x :: y :: l'
      else y :: insert_by_quality x l'
  end.

Definition sort_by_quality (l : list QAPair) : list QAPair :=
  fold_right insert_by_quality [] l.

Fixpoint unique_questions (seen : list pystr) (l : list QAPair) : list QAPair :=
  match l with
  | [] => []
  | qa_pair :: rest =>
      let question_key := _normalize_question (question qa_pair) in
      if existsb (str_eqb question_key) seen then unique_questions seen rest
      else qa_pair :: unique_questions (question_key :: seen) rest
  end.

Definition _optimize_qa_pairs (qa_pairs : list QAPair) : list QAPair :=
  unique_questions [] (sort_by_quality qa_pairs).

Definition question_types : list QuestionType :=
  [q_definition; q_symptoms; q_diagnosis; q_treatment; q_pathology;
   q_differential].

(** The loop of lines 106-108 over [zip(question_types, type_counts)]. *)
Fixpoint generate_all (key_info : KeyInfo) (content : pystr)
    (plan : list (QuestionType * Z)) (g : rng) : list QAPair * rng :=
  match plan with
  | [] => ([], g)
  | (t, count) :: rest =>
      let '(pairs, g) := _generate_qa_by_type t key_info content count g in
      let '(more, g) := generate_all key_info content rest g in
      (pairs ++ more, g)
  end.

(** [l[:n]] for an int [n]. *)
Definition slice_to {A : Type} (l : list A) (n : Z) : list A :=
  if (n <? 0)%Z then firstn (length l - Z.to_nat (- n)) l
  else firstn (Z.to_nat n) l.

Definition blank_pair : QAPair :=
  mkQAPair [] [] [] q_definition medium [] [] 0%Q.

Record Dataset : Type := mkDataset {
  total_qa_pairs : nat;
  source_content_length : nat;
  annotation_count : nat;
  qa_pairs : list QAPair
}.

(** The result dictionary: on success the pairs and [dataset_info] (the
    statistics and quality metrics are computed from the returned pairs and
    are not part of the model); on failure the message, with no pairs. *)
Inductive GenResult : Type :=
| Generated (dataset : Dataset)
| GenFailed (error : pystr).

Definition result_pairs (r : GenResult) : list QAPair :=
  match r with
  | Generated d => qa_pairs d
  | GenFailed _ => []
  end.

Definition generate_qa_dataset (annotated_content : AnnotatedContent)
    (qa_count : Z) (g : rng) : GenResult * rng :=
  if negb (ac_success annotated_content) then
    (GenFailed (U "输入的标注内容无效"), g)
  else
    let annotations := ac_annotations annotated_content in
    let content := ac_content_summary annotated_content in
    let key_info := _extract_key_information annotations in
    let type_counts :=
      _distribute_question_types qa_count (length question_types) in
    let '(qa_pairs, g) :=
      generate_all key_info content (combine question_types type_counts) g in
    let '(qa_pairs, g) := shuffle blank_pair qa_pairs g in
    let qa_pairs := slice_to qa_pairs qa_count in
    let optimized_pairs := _optimize_qa_pairs qa_pairs in
    (Generated
       (mkDataset (length optimized_pairs) (length content)
          (length (ann_pathology annotations)
           + length (ann_diagnosis annotations)
           + length (ann_entities annotations)
           + list_sum (ann_other_sizes annotations))
          optimized_pairs), g).

End Generation.

(** *** Difficulty: the level returned *)

Definition rank (level : Level) : nat :=
  match level with easy => 0 | medium => 1 | hard => 2 end.

(** The three comparisons that [max] makes over the keys easy, medium,
    hard. *)
Definition first_highest (e m h : nat) : Level :=
  if e <? m then (if m <? h then hard else medium)
  else (if e <? h then hard else easy).

Lemma assess_difficulty_unfold question answer :
  _assess_difficulty question answer
  = first_highest (level_hits easy question answer)
                  (level_hits medium question answer)
                  (level_hits hard question answer).
Proof. reflexivity. Qed.

(** C7 as stated returns medium on a tie. Here easy and hard are found
    once each and medium never; the level returned is easy. *)
Lemma tied_levels_give_easy :
  level_hits easy (U "定义") (U "机制") = 1 /\
  level_hits medium (U "定义") (U "机制") = 0 /\
  level_hits hard (U "定义") (U "机制") = 1 /\
  _assess_difficulty (U "定义") (U "机制") = easy.
Proof. repeat split; vm_compute; reflexivity. Qed.

(** C7, as the code behaves. When some keyword of the three lists occurs
    in the question or the answer, the level returned has the highest
    number of hits, and among levels with that number it is the first in
    the order easy, medium, hard. *)
Theorem difficulty_is_first_level_with_most_hits :
  forall question answer : pystr,
    (exists level, 0 < level_hits level question answer) ->
    (forall level,
        level_hits level question answer
        <= level_hits (_assess_difficulty question answer) question answer) /\
    (forall level,
        rank level < rank (_assess_difficulty question answer) ->
        level_hits level question answer
        < level_hits (_assess_difficulty question answer) question answer).
Proof.
  intros question answer _. rewrite assess_difficulty_unfold.
  set (e := level_hits easy question answer).
  set (m := level_hits medium question answer).
  set (h := level_hits hard question answer).
  assert (H : forall level,
             level_hits level question answer
             = match level with easy => e | medium => m | hard => h end)
    by (intros []; reflexivity).
  clearbody e m h.
  split; intros level; rewrite !H; unfold first_highest;
    destruct (Nat.ltb_spec e m), (Nat.ltb_spec m h), (Nat.ltb_spec e h);
    destruct level; simpl; lia.
Qed.

Lemma difficulty_witness :
  (forall level,
      level_hits level (U "如何诊断肺癌？") (U "肺癌的病理")
      <= level_hits (_assess_difficulty (U "如何诊断肺癌？") (U "肺癌的病理"))
                    (U "如何诊断肺癌？") (U "肺癌的病理")) /\
  (forall level,
      rank level < rank (_assess_difficulty (U "如何诊断肺癌？") (U "肺癌的病理")) ->
      level_hits level (U "如何诊断肺癌？") (U "肺癌的病理")
      < level_hits (_assess_difficulty (U "如何诊断肺癌？") (U "肺癌的病理"))
                   (U "如何诊断肺癌？") (U "肺癌的病理")).
Proof.
  apply (difficulty_is_first_level_with_most_hits
           (U "如何诊断肺癌？") (U "肺癌的病理")).
  exists medium. vm_compute. lia.
Defined.

(** *** Generation: a pair lost to the second differential template *)

Lemma sort_by_quality_length l : length (sort_by_quality l) = length l.
Proof.
  assert (Hi : forall x t, length (insert_by_quality x t) = S (length t)).
  { intros x t. induction t as [|y t IH]; simpl; [reflexivity|].
    destruct (Qle_bool (quality_score y) (quality_score x)); simpl;
      [reflexivity | rewrite IH; reflexivity]. }
  induction l as [|x l IH]; simpl; [reflexivity|].
  rewrite Hi, IH. reflexivity.
Qed.

Lemma unique_questions_length str_lower isword l : forall seen,
  length (unique_questions str_lower isword seen l) <= length l.
Proof.
  induction l as [|x l IH]; intros seen; simpl; [lia|].
  destruct (existsb _ seen); simpl.
  - specialize (IH seen). lia.
  - specialize (IH (_normalize_question str_lower isword (question x) :: seen)).
    lia.
Qed.

Lemma optimize_length str_lower isword l :
  length (_optimize_qa_pairs str_lower isword l) <= length l.
Proof.
  unfold _optimize_qa_pairs.
  etransitivity; [apply unique_questions_length|].
  rewrite sort_by_quality_length. reflexivity.
Qed.

(** One disease entity, no source text; six pairs are requested, one per
    question type. The oracle picks the first template everywhere, except
    for the differential question, where it picks the second. *)
Definition one_disease : AnnotatedContent :=
  mkAnnotated true
    (mkAnnotations [] [] [mkEntity (Some (U "disease")) (Some (U "肺癌"))] [])
    [].

Definition second_differential : rng := [0; 0; 0; 0; 0; 0; 0; 0; 0; 0; 0; 1].

(** C3. The claim allows a shortfall only after deduplication or on an
    empty entity pool. The template with [{other_disease}] makes
    [template.format(term=..., disease=...)] raise [KeyError], whatever the
    entity; the loop catches it and goes on without the pair. On
    [one_disease] every pool holds the disease, six pairs are requested,
    and five are generated before any deduplication, so at most five are
    returned. *)
Theorem differential_template_loses_a_pair :
  (forall entity key_info g,
      _generate_question (U "如何鉴别{disease}和{other_disease}？")
                         entity key_info g
      = (inl (KeyError (U "other_disease")), g)) /\
  (forall t,
      entity_pool t (_extract_key_information (ac_annotations one_disease))
      = [U "肺癌"]) /\
  (forall fl,
      length (fst (generate_all fl
                     (_extract_key_information (ac_annotations one_disease))
                     (ac_content_summary one_disease)
                     (combine question_types
                        (_distribute_question_types 6 (length question_types)))
                     second_differential)) = 5) /\
  (forall fl str_lower isword,
      length (result_pairs
                (fst (generate_qa_dataset fl str_lower isword one_disease 6
                                          second_differential))) <= 5).
Proof.
  split; [reflexivity|]. split; [intros []; reflexivity|].
  split; [intros fl; vm_compute; reflexivity|].
  intros fl str_lower isword. unfold generate_qa_dataset.
  change (ac_success one_disease) with true. cbn [negb].
  set (ga := generate_all fl _ _ _ _).
  assert (Hlen : length (slice_to (fst (shuffle blank_pair (fst ga) (snd ga))) 6)
                 = 5) by (vm_compute; reflexivity).
  destruct ga as [pairs g1]. cbn [fst snd] in Hlen.
  destruct (shuffle blank_pair pairs g1) as [shuffled g2].
  cbn [fst snd result_pairs qa_pairs] in *.
  etransitivity; [apply optimize_length|]. rewrite Hlen. reflexivity.
Qed.

End Generator.

(* ================================================================== *)
(** ** knowledge_base_integrator.py *)

Module Integrator.
Import PyStr.
Local Open Scope nat_scope.

(** The values a QA item can hold: what [json.loads] produces. A dictionary
    is the list of its items in insertion order, with distinct keys. *)
#[warnings="-register-all"]
Inductive pyval : Type :=
| PNone
| PBool (b : bool)
| PInt (z : Z)
| PFloat (q : Q)
| PStr (s : pystr)
| PList (l : list pyval)
| PDict (d : list (pystr * pyval)).

(** [d.get(key)] *)
Fixpoint get (d : list (pystr * pyval)) (key : pystr) : option pyval :=
  match d with
  | [] => None
  | (k, v) :: rest => if str_eqb k key then Some v else get rest key
  end.

(** [d.get(key, default)] *)
Definition get_or (d : list (pystr * pyval)) (key : pystr) (default : pyval)
    : pyval :=
  match get d key with
  | Some v => v
  | None => default
  end.

(** [v[:n]]; [None] stands for the [TypeError] (or [KeyError], on a
    dictionary) that the other values raise. *)
Definition slice_to (v : pyval) (n : nat) : option pyval :=
  match v with
  | PStr s => Some (PStr (firstn n s))
  | PList l => Some (PList (firstn n l))
  | _ => None
  end.

(** [len(v)]; [None] stands for [TypeError]. *)
Definition len (v : pyval) : option nat :=
  match v with
  | PStr s => Some (length s)
  | PList l => Some (length l)
  | PDict d => Some (length d)
  | _ => None
  end.

Record Metadata : Type := mkMetadata {
  is_question : bool;
  related_answer_id : option pystr;
  related_question_id : option pystr;
  quality_score : pyval;
  keywords : pyval;
  answer_length : option nat;
  medical_terms : option pyval
}.

Record Document : Type := mkDocument {
  id : pystr;
  title : pystr;
  content : pyval;
  document_type : pystr;
  qa_pair_id : nat;
  difficulty_level : pyval;
  question_type : pyval;
  medical_domain : pyval;
  source : pystr;
  create_time : pystr;
  metadata : Metadata;
  embedding : option pyval
}.

Definition question_id (i : nat) : pystr :=
  U "qa_" ++ str_of_nat i ++ U "_question".

Definition answer_id (i : nat) : pystr :=
  U "qa_" ++ str_of_nat i ++ U "_answer".

(** *** The world outside

    Two effects: reading the clock and calling [es_core.client.bulk]. The
    state holds the calls made to the engine and the number of times the
    clock was read. *)
Inductive Operation : Type :=
| OpIndex (index_name : pystr)
| OpDocument (doc : Document).

Record BulkCall : Type := mkBulkCall {
  call_index : pystr;
  call_operations : list Operation
}.

Record IndexOutcome : Type := mkIndexOutcome {
  status : option Z;
  item_error : option pystr
}.

(** An element of [response['items']]; [None] when it has no ['index']. *)
Definition ResponseItem : Type := option IndexOutcome.

Record BulkResponse : Type := mkBulkResponse {
  errors : bool;
  items : list ResponseItem
}.

Inductive BulkOutcome : Type :=
| Responds (response : BulkResponse)
| Raises (message : pystr).

Record World : Type := mkWorld {
  calls : list BulkCall;
  ticks : nat
}.

Definition ES (A : Type) : Type := World -> A * World.

Definition ret {A : Type} (a : A) : ES A := fun w => (a, w).

Definition bind {A B : Type} (c : ES A) (f : A -> ES B) : ES B :=
  fun w => let '(a, w') := c w in f a w'.

Notation "x <- c ;; k" := (bind c (fun x => k))
  (at level 61, c at next level, right associativity).

Section Conversion.
(** [json.loads] on a string ([None]: [JSONDecodeError]), [str] of a value
    inside an f-string, [str.lower], the text of
    [datetime.now().isoformat()] at the n-th reading of the clock, and the
    engine's answer to a bulk call, given the calls before it. *)
Variable json_loads : pystr -> option pyval.
Variable py_str : pyval -> pystr.
Variable str_lower : pystr -> pystr.
Variable clock : nat -> pystr.
Variable bulk : list BulkCall -> BulkCall -> BulkOutcome.

Definition now : ES pystr :=
  fun w => (clock (ticks w), mkWorld (calls w) (S (ticks w))).

Definition client_bulk (call : BulkCall) : ES BulkOutcome :=
  fun w => (bulk (calls w) call, mkWorld (calls w ++ [call]) (ticks w)).

Definition fstring (v : pyval) : pystr :=
  match v with
  | PStr s => s
  | _ => py_str v
  end.

(** The fields that the two documents share. *)
Definition document (i : nat) (qa_pair : list (pystr * pyval))
    (ident title : pystr) (body : pyval) (kind created : pystr)
    (md : Metadata) : Document :=
  mkDocument ident title body kind i
    (get_or qa_pair (U "difficulty_level") (PStr (U "medium")))
    (get_or qa_pair (U "question_type") (PStr (U "general")))
    (get_or qa_pair (U "medical_domain") (PStr (U "pathology")))
    (U "medical_data_engineering") created md None.

(** The body of the loop of [_convert_qa_to_documents] for the item at
    position [i]. [None] is one of the [continue] statements. The entries
    of each dictionary display are evaluated in order: the title, which
    slices the question, before the clock is read; the answer's length
    after it. An exception there is caught by the [except] of line 306. *)
Definition convert_item (i : nat) (item : pyval)
    : ES (option (Document * Document)) :=
  let parsed :=
    match item with
    | PStr s => json_loads s
    | _ => Some item
    end in
  match parsed with
  | Some (PDict qa_pair) =>
      match get qa_pair (U "question"), get qa_pair (U "answer") with
      | Some _, Some _ =>
          let question := get_or qa_pair (U "question") (PStr []) in
          let answer := get_or qa_pair (U "answer") (PStr []) in
          match slice_to question 50 with
          | None => ret None
          | Some preview =>
              t1 <- now ;;
              let question_doc :=
                document i qa_pair (question_id i)
                  (U "医疗问题: " ++ fstring preview ++ U "...") question
                  (U "medical_question") t1
                  (mkMetadata true (Some (answer_id i)) None
                     (get_or qa_pair (U "quality_score") (PFloat (1 # 2)))
                     (get_or qa_pair (U "keywords") (PList []))
                     None None) in
              t2 <- now ;;
              match len answer with
              | None => ret None
              | Some n =>
                  let answer_doc :=
                    document i qa_pair (answer_id i)
                      (U "医疗答案: " ++ fstring preview ++ U "...") answer
                      (U "medical_answer") t2
                      (mkMetadata false None (Some (question_id i))
                         (get_or qa_pair (U "quality_score") (PFloat (1 # 2)))
                         (get_or qa_pair (U "keywords") (PList []))
                         (Some n)
                         (Some (get_or qa_pair (U "medical_terms") (PList []))))
                  in
                  ret (Some (question_doc, answer_doc))
              end
          end
      | _, _ => ret None
      end
  | _ => ret None
  end.

(** The loop over [enumerate(qa_dataset)], from position [i]. *)
Fixpoint convert_loop (i : nat) (qa_dataset : list pyval)
    : ES (list Document) :=
  match qa_dataset with
  | [] => ret []
  | item :: rest =>
      converted <- convert_item i item ;;
      documents <- convert_loop (S i) rest ;;
      ret match converted with
          | Some (question_doc, answer_doc) =>
              question_doc :: answer_doc :: documents
          | None => documents
          end
  end.

Definition _convert_qa_to_documents (qa_dataset : list pyval)
    : ES (list Document) :=
  convert_loop 0 qa_dataset.

Inductive IntegrationResult : Type :=
| Indexed (total_processed total_documents_created total_indexed : nat)
          (index_name integration_time method : pystr)
| NotIndexed (error : pystr) (total_processed : nat)
             (index_name : option pystr).

Definition success (r : IntegrationResult) : bool :=
  match r with
  | Indexed _ _ _ _ _ _ => true
  | NotIndexed _ _ _ => false
  end.

Definition processed (r : IntegrationResult) : nat :=
  match r with
  | Indexed n _ _ _ _ _ => n
  | NotIndexed _ n _ => n
  end.

(** The [operations] list of lines 170-177; the [embedding] field is
    removed from the copy of each document. *)
Definition bulk_operations (documents : list Document) (index_name : pystr)
    : list Operation :=
  flat_map
    (fun doc =>
       [OpIndex index_name;
        OpDocument
          (mkDocument (id doc) (title doc) (content doc) (document_type doc)
             (qa_pair_id doc) (difficulty_level doc) (question_type doc)
             (medical_domain doc) (source doc) (create_time doc)
             (metadata doc) None)])
    documents.

Definition accepted (item : ResponseItem) : bool :=
  match item with
  | Some outcome =>
      match status outcome with
      | Some code => ((code =? 200) || (code =? 201))%Z
      | None => false
      end
  | None => false
  end.

Definition _direct_bulk_index (documents : list Document) (index_name : pystr)
    : ES IntegrationResult :=
  let index_name := str_lower index_name in
  match documents with
  | [] => ret (NotIndexed (U "没有有效的文档可以索引") 0 (Some index_name))
  | _ =>
      match bulk_operations documents index_name with
      | [] => ret (NotIndexed (U "Bulk操作列表为空") 0 (Some index_name))
      | operations =>
          outcome <- client_bulk (mkBulkCall index_name operations) ;;
          match outcome with
          | Raises message => ret (NotIndexed message 0 (Some index_name))
          | Responds response =>
              integration_time <- now ;;
              ret (Indexed (length documents / 2) (length documents)
                     (length (filter accepted (items response)))
                     index_name integration_time (U "direct_bulk_index"))
          end
      end
  end.

Definition integrate_qa_dataset (qa_dataset : list pyval) (index_name : pystr)
    : ES IntegrationResult :=
  let index_name := str_lower index_name in
  match qa_dataset with
  | [] => ret (NotIndexed (U "Q&A数据集为空") 0 None)
  | _ =>
      documents <- _convert_qa_to_documents qa_dataset ;;
      _direct_bulk_index documents index_name
  end.

End Conversion.

(** *** Two documents per pair *)

(** The values on which [v[:50]] and [len(v)] are defined. *)
Definition sliceable (v : pyval) : bool :=
  match v with PStr _ | PList _ => true | _ => false end.

Definition sized (v : pyval) : bool :=
  match v with PStr _ | PList _ | PDict _ => true | _ => false end.

(** A pair with both fields, the question a string or a list, the answer a
    string, a list or a dictionary. *)
Definition complete_pair (item : pyval) : Prop :=
  exists d q a,
    item = PDict d /\
    get d (U "question") = Some q /\ get d (U "answer") = Some a /\
    sliceable q = true /\ sized a = true.

(** What the claim says of the two documents of position [i]. *)
Definition paired_at (i : nat) (question_doc answer_doc : Document) : Prop :=
  id question_doc = U "qa_" ++ str_of_nat i ++ U "_question" /\
  related_answer_id (metadata question_doc)
  = Some (U "qa_" ++ str_of_nat i ++ U "_answer") /\
  id answer_doc = U "qa_" ++ str_of_nat i ++ U "_answer" /\
  related_question_id (metadata answer_doc)
  = Some (U "qa_" ++ str_of_nat i ++ U "_question") /\
  qa_pair_id question_doc = i /\ qa_pair_id answer_doc = i.

Section ConversionFacts.
Variable json_loads : pystr -> option pyval.
Variable py_str : pyval -> pystr.
Variable str_lower : pystr -> pystr.
Variable clock : nat -> pystr.
Variable bulk : list BulkCall -> BulkCall -> BulkOutcome.

Lemma convert_item_complete (i : nat) (item : pyval) (w : World) :
  complete_pair item ->
  exists question_doc answer_doc w',
    convert_item json_loads py_str clock i item w
    = (Some (question_doc, answer_doc), w') /\
    paired_at i question_doc answer_doc.
Proof.
  intros (d & q & a & -> & Hq & Ha & Hs & Hl).
  unfold convert_item, get_or. rewrite Hq, Ha.
  destruct q; try discriminate Hs; destruct a; try discriminate Hl;
    unfold bind, now, ret; cbn [slice_to len];
    do 3 eexists; (split; [reflexivity|]);
    unfold paired_at, document; cbn; repeat split; reflexivity.
Qed.

Lemma convert_item_calls (i : nat) (item : pyval) (w : World) :
  calls (snd (convert_item json_loads py_str clock i item w)) = calls w.
Proof.
  unfold convert_item.
  destruct (match item with PStr s => json_loads s | _ => Some item end)
    as [[| | | | | |d]|]; try reflexivity.
  destruct (get d (U "question")); [|reflexivity].
  destruct (get d (U "answer")); [|reflexivity].
  destruct (slice_to _ 50); [|reflexivity].
  unfold bind, now, ret. destruct (len _); reflexivity.
Qed.

Lemma convert_loop_calls (l : list pyval) : forall i w,
  calls (snd (convert_loop json_loads py_str clock i l w)) = calls w.
Proof.
  induction l as [|item l IH]; intros i w; [reflexivity|].
  cbn [convert_loop]. unfold bind.
  pose proof (convert_item_calls i item w) as Hi.
  destruct (convert_item json_loads py_str clock i item w) as [c w1].
  pose proof (IH (S i) w1) as Hl.
  destruct (convert_loop json_loads py_str clock (S i) l w1) as [docs w2].
  unfold ret. cbn [snd] in *. congruence.
Qed.

Lemma convert_loop_complete (l : list pyval) :
  Forall complete_pair l ->
  forall k w,
    length (fst (convert_loop json_loads py_str clock k l w)) = 2 * length l /\
    forall j, j < length l ->
      exists question_doc answer_doc,
        nth_error (fst (convert_loop json_loads py_str clock k l w)) (2 * j)
        = Some question_doc /\
        nth_error (fst (convert_loop json_loads py_str clock k l w)) (2 * j + 1)
        = Some answer_doc /\
        paired_at (k + j) question_doc answer_doc.
Proof.
  induction 1 as [|item l Hitem _ IH]; intros k w.
  - split; [reflexivity | intros j Hj; inversion Hj].
  - cbn [convert_loop]. unfold bind.
    destruct (convert_item_complete k item w Hitem)
      as (qd & ad & w1 & Hc & Hp).
    rewrite Hc. specialize (IH (S k) w1).
    destruct (convert_loop json_loads py_str clock (S k) l w1) as [docs w2].
    unfold ret. cbn [fst] in *. destruct IH as [Hlen Hnth]. split.
    + cbn [length]. lia.
    + intros [|j] Hj.
      * exists qd, ad. rewrite Nat.add_0_r.
        split; [reflexivity | split; [reflexivity | exact Hp]].
      * destruct (Hnth j) as (qd' & ad' & H1 & H2 & Hp');
          [cbn [length] in Hj; lia|].
        exists qd', ad'.
        replace (2 * S j) with (S (S (2 * j))) by lia.
        replace (k + S j) with (S k + j) by lia.
        cbn [nth_error Nat.add].
        split; [exact H1 | split; [exact H2 | exact Hp']].
Qed.

(** A pair with both fields whose question cannot be sliced, or whose
    answer has no length, yields no documents, at every position and in
    every state of the world. *)
Lemma convert_item_skips (i : nat) (d : list (pystr * pyval)) (q a : pyval)
    (w : World) :
  get d (U "question") = Some q -> get d (U "answer") = Some a ->
  sliceable q = false \/ sized a = false ->
  fst (convert_item json_loads py_str clock i (PDict d) w) = None.
Proof.
  intros Hq Ha Hbad. unfold convert_item, get_or. rewrite Hq, Ha.
  destruct (slice_to q 50) as [preview|] eqn:Eq; [|reflexivity].
  unfold bind, now, ret. destruct (len a) as [n|] eqn:Ea; [|reflexivity].
  destruct Hbad as [Hs|Hl].
  - destruct q; discriminate.
  - destruct a; discriminate.
Qed.

(** The two documents of an item carry the item's position. *)
Lemma convert_item_ids (i : nat) (item : pyval) (w w' : World)
    (question_doc answer_doc : Document) :
  convert_item json_loads py_str clock i item w
  = (Some (question_doc, answer_doc), w') ->
  qa_pair_id question_doc = i /\ qa_pair_id answer_doc = i.
Proof.
  unfold convert_item.
  destruct (match item with PStr s => json_loads s | _ => Some item end)
    as [[| | | | | |d]|]; try discriminate.
  destruct (get d (U "question")); [|discriminate].
  destruct (get d (U "answer")); [|discriminate].
  destruct (slice_to _ 50); [|discriminate].
  unfold bind, now, ret. destruct (len _); [|discriminate].
  intros H. injection H as <- <- _. split; reflexivity.
Qed.

(** Every document returned comes from an item that was converted, and
    carries that item's position. *)
Lemma convert_loop_ids (l : list pyval) : forall k w doc,
  In doc (fst (convert_loop json_loads py_str clock k l w)) ->
  exists j item w0 question_doc answer_doc w1,
    nth_error l j = Some item /\
    convert_item json_loads py_str clock (k + j) item w0
    = (Some (question_doc, answer_doc), w1) /\
    qa_pair_id doc = k + j.
Proof.
  induction l as [|item l IH]; intros k w doc; [intros []|].
  cbn [convert_loop]. unfold bind.
  destruct (convert_item json_loads py_str clock k item w) as [c w1] eqn:Ec.
  pose proof (IH (S k) w1 doc) as IHdoc.
  destruct (convert_loop json_loads py_str clock (S k) l w1) as [docs w2].
  unfold ret. cbn [fst] in *.
  assert (Hrest : In doc docs ->
            exists j item0 w0 question_doc answer_doc w3,
              nth_error (item :: l) j = Some item0 /\
              convert_item json_loads py_str clock (k + j) item0 w0
              = (Some (question_doc, answer_doc), w3) /\
              qa_pair_id doc = k + j).
  { intros Hin.
    destruct (IHdoc Hin) as (j & item0 & w0 & qd & ad & w3 & Hn & Hc & Hid).
    exists (S j), item0, w0, qd, ad, w3.
    replace (k + S j) with (S k + j) by lia.
    split; [exact Hn | split; [exact Hc | exact Hid]]. }
  destruct c as [[qd ad]|]; [|exact Hrest].
  intros [<-|[<-|Hin]]; [| |exact (Hrest Hin)];
    exists 0, item, w, qd, ad, w1; rewrite Nat.add_0_r;
    (split; [reflexivity | split; [exact Ec|]]);
    apply (convert_item_ids _ _ _ _ _ _ Ec).
Qed.

(** C2, as the code behaves. When every pair has a question field that is
    a string or a list and an answer field that is a string, a list or a
    dictionary, the converter returns two documents per pair: at positions
    [2i] and [2i+1] the question and answer documents of pair [i], with the
    identifiers [qa_{i}_question] and [qa_{i}_answer], each naming the other
    in its metadata, and both with [qa_pair_id] equal to [i]. A pair that
    has both fields but whose question cannot be sliced, or whose answer
    has no length, is skipped, whatever the other pairs are: converting it
    yields nothing, and no document returned carries its position. *)
Theorem convert_emits_two_paired_documents :
  forall (qa_dataset : list pyval) (w : World),
    (Forall complete_pair qa_dataset ->
     length (fst (_convert_qa_to_documents json_loads py_str clock qa_dataset w))
     = 2 * length qa_dataset /\
     forall i, i < length qa_dataset ->
       exists question_doc answer_doc,
         nth_error
           (fst (_convert_qa_to_documents json_loads py_str clock qa_dataset w))
           (2 * i) = Some question_doc /\
         nth_error
           (fst (_convert_qa_to_documents json_loads py_str clock qa_dataset w))
           (2 * i + 1) = Some answer_doc /\
         paired_at i question_doc answer_doc) /\
    (forall (i : nat) (d : list (pystr * pyval)) (q a : pyval),
        nth_error qa_dataset i = Some (PDict d) ->
        get d (U "question") = Some q -> get d (U "answer") = Some a ->
        sliceable q = false \/ sized a = false ->
        (forall w0,
            fst (convert_item json_loads py_str clock i (PDict d) w0) = None) /\
        (forall doc,
            In doc (fst (_convert_qa_to_documents json_loads py_str clock
                           qa_dataset w)) ->
            qa_pair_id doc <> i)).
Proof.
  intros qa_dataset w. unfold _convert_qa_to_documents. split.
  - intros Hall. exact (convert_loop_complete qa_dataset Hall 0 w).
  - intros i d q a Hi Hq Ha Hbad. split.
    + intros w0. exact (convert_item_skips i d q a w0 Hq Ha Hbad).
    + intros doc Hin Hid.
      destruct (convert_loop_ids _ _ _ _ Hin)
        as (j & item & w0 & qd & ad & w1 & Hn & Hc & Hj).
      cbn [Nat.add] in Hc, Hj. rewrite Hid in Hj. subst j.
      rewrite Hi in Hn. injection Hn as <-.
      pose proof (convert_item_skips i d q a w0 Hq Ha Hbad) as Hskip.
      rewrite Hc in Hskip. discriminate.
Qed.

(** C10. On an empty data set [integrate_qa_dataset] fails with
    [total_processed] 0 and leaves the world as it was: the engine is not
    called. In general the engine is called exactly when the list of
    converted documents is not empty, and then once. *)
Theorem bulk_called_only_for_documents :
  forall (index_name : pystr) (w : World),
    integrate_qa_dataset json_loads py_str str_lower clock bulk [] index_name w
    = (NotIndexed (U "Q&A数据集为空") 0 None, w) /\
    success (fst (integrate_qa_dataset json_loads py_str str_lower clock bulk
                    [] index_name w)) = false /\
    processed (fst (integrate_qa_dataset json_loads py_str str_lower clock bulk
                      [] index_name w)) = 0 /\
    (forall documents,
        calls (snd (_direct_bulk_index str_lower clock bulk
                      documents index_name w))
        = match documents with
          | [] => calls w
          | _ =>
              calls w
              ++ [mkBulkCall (str_lower index_name)
                    (bulk_operations documents (str_lower index_name))]
          end) /\
    (forall qa_dataset,
        calls (snd (integrate_qa_dataset json_loads py_str str_lower clock bulk
                      qa_dataset index_name w))
        = match fst (_convert_qa_to_documents json_loads py_str clock
                       qa_dataset w) with
          | [] => calls w
          | documents =>
              calls w
              ++ [mkBulkCall (str_lower (str_lower index_name))
                    (bulk_operations documents
                       (str_lower (str_lower index_name)))]
          end).
Proof.
  intros index_name w.
  assert (Hdirect : forall documents name w0,
             calls (snd (_direct_bulk_index str_lower clock bulk
                           documents name w0))
             = match documents with
               | [] => calls w0
               | _ =>
                   calls w0
                   ++ [mkBulkCall (str_lower name)
                         (bulk_operations documents (str_lower name))]
               end).
  { intros [|doc documents] name w0; [reflexivity|].
    unfold _direct_bulk_index. cbn [bulk_operations flat_map app].
    unfold bind, client_bulk, now, ret.
    destruct (bulk (calls w0) _); reflexivity. }
  do 3 (split; [reflexivity|]). split; [intros documents; apply Hdirect|].
  intros [|item rest]; [reflexivity|].
  unfold integrate_qa_dataset, bind.
  pose proof (convert_loop_calls (item :: rest) 0 w) as Hcalls.
  unfold _convert_qa_to_documents.
  destruct (convert_loop json_loads py_str clock 0 (item :: rest) w)
    as [documents w1].
  cbn [fst snd] in *. rewrite Hdirect.
  destruct documents; rewrite Hcalls; reflexivity.
Qed.

End ConversionFacts.

(** Stand-ins for the runtime, for closed examples. *)
Definition no_json : pystr -> option pyval := fun _ => None.
Definition plain_str : pyval -> pystr := fun _ => [].
Definition midnight : nat -> pystr := fun _ => U "2025-01-01T00:00:00".

Definition start : World := mkWorld [] 0.

(** C2 as stated counts two documents for every pair that has both fields.
    A pair whose question is [null] has both fields; slicing the question
    raises, the handler skips the pair, and no document is returned. *)
Lemma null_question_gives_no_document :
  get [(U "question", PNone); (U "answer", PStr (U "手术切除"))] (U "question")
  = Some PNone /\
  get [(U "question", PNone); (U "answer", PStr (U "手术切除"))] (U "answer")
  = Some (PStr (U "手术切除")) /\
  fst (_convert_qa_to_documents no_json plain_str midnight
         [PDict [(U "question", PNone); (U "answer", PStr (U "手术切除"))]]
         start) = [].
Proof. repeat split; vm_compute; reflexivity. Qed.

(** Two complete pairs around one whose answer is a number: the complete
    data set gives four documents, and in the mixed one no document
    carries the position of the pair that was skipped. *)
Lemma convert_two_pairs_witness :
  length (fst (_convert_qa_to_documents no_json plain_str midnight
                 [PDict [(U "question", PStr (U "什么是腺癌？"));
                         (U "answer", PStr (U "腺癌是指腺上皮的恶性肿瘤"))];
                  PDict [(U "question", PStr (U "腺癌如何治疗？"));
                         (U "answer", PStr (U "手术切除"))]]
                 start)) = 4 /\
  forall doc,
    In doc (fst (_convert_qa_to_documents no_json plain_str midnight
                   [PDict [(U "question", PStr (U "什么是腺癌？"));
                           (U "answer", PStr (U "腺癌是指腺上皮的恶性肿瘤"))];
                    PDict [(U "question", PStr (U "腺癌分几级？"));
                           (U "answer", PInt 3)];
                    PDict [(U "question", PStr (U "腺癌如何治疗？"));
                           (U "answer", PStr (U "手术切除"))]]
                   start)) ->
    qa_pair_id doc <> 1.
Proof.
  split.
  - refine (proj1 (proj1 (convert_emits_two_paired_documents
                            no_json plain_str midnight _ start) _)).
    repeat constructor; do 3 eexists; repeat split; reflexivity.
  - refine (proj2 (proj2 (convert_emits_two_paired_documents
                            no_json plain_str midnight _ start)
                     1 _ (PStr (U "腺癌分几级？")) (PInt 3) _ _ _ _)).
    + reflexivity.
    + reflexivity.
    + reflexivity.
    + right. reflexivity.
Defined.

End Integrator.

(* ================================================================== *)
(** ** knowledge_annotator.py *)

Module Annotator.
Import PyStr.

Inductive AnnotationType : Type :=
| MEDICAL_TERM | DISEASE | SYMPTOM | TREATMENT
| ANATOMY | PATHOLOGY | DIAGNOSTIC_METHOD | MEDICATION.

(** The dataclass [MedicalAnnotation]. *)
Record MedicalAnnotation : Type := mkAnn {
  text : pystr;
  start_pos : Z;
  end_pos : Z;
  annotation_type : AnnotationType;
  confidence : Q;
  metadata : list (pystr * pystr)
}.

Local Open Scope Z_scope.

(** The sort key [(x.start_pos, x.end_pos)], compared as Python compares
    tuples of ints. *)
Definition key_le (a b : MedicalAnnotation) : bool :=
  (start_pos a <? start_pos b)
  || ((start_pos a =? start_pos b) && (end_pos a <=? end_pos b)).

(** [sorted(annotations, key=...)]: Python's sort is stable, and a stable
    sort is determined by its input; insertion from the right, placing an
    element before the first one whose key is not smaller, is stable. *)
Fixpoint insert (x : MedicalAnnotation) (l : list MedicalAnnotation) :=
  match l with
  | [] => [x]
  | y :: l' => if key_le x y then x :: y :: l' else y :: insert x l'
  end.

Definition sorted (l : list MedicalAnnotation) : list MedicalAnnotation :=
  fold_right insert [] l.

Definition span (a : MedicalAnnotation) : Z := end_pos a - start_pos a.

(** The test of lines 280-282: [current] wins over [last]. *)
Definition wins (current last : MedicalAnnotation) : bool :=
  negb (Qle_bool (confidence current) (confidence last))
  || (Qeq_bool (confidence current) (confidence last)
      && (span last <? span current)).

(** One iteration of the loop of lines 270-285; [merged] is in list order,
    [merged[-1]] is its last element. *)
Definition merge_step (merged : list MedicalAnnotation)
    (current : MedicalAnnotation) : list MedicalAnnotation :=
  match rev merged with
  | [] => merged ++ [current]
  | last :: _ =>
      if start_pos current <=? end_pos last then
        if wins current last then removelast merged ++ [current]
        else merged
      else merged ++ [current]
  end.

Definition _merge_overlapping_annotations (annotations : list MedicalAnnotation)
    : list MedicalAnnotation :=
  match annotations with
  | [] => []
  | _ => fold_left merge_step (sorted annotations) []
  end.

(** The adjacent pair of the text "腺癌坏死": two dictionary hits of equal
    confidence, the second starting where the first ends. *)
Definition adjacent_first : MedicalAnnotation :=
  mkAnn (U "腺癌") 0 2 DISEASE (9 # 10)
        [(U "source", U "dictionary"); (U "dictionary", U "diseases")].

Definition adjacent_second : MedicalAnnotation :=
  mkAnn (U "坏死") 2 4 DISEASE (9 # 10)
        [(U "source", U "dictionary"); (U "dictionary", U "diseases")].

(** The overlap relation of the data model. *)
Definition overlaps (a b : MedicalAnnotation) : Prop :=
  start_pos a < end_pos b /\ start_pos b < end_pos a.

(** *** The loop on the reversed list

    [merge_step] only looks at and changes the end of [merged]; on the
    reversed list it works at the head. *)
Definition step_rev (r : list MedicalAnnotation) (current : MedicalAnnotation) :=
  match r with
  | [] => [current]
  | last :: r' =>
      if start_pos current <=? end_pos last then
        if wins current last then current :: r' else r
      else current :: r
  end.

Lemma merge_step_rev (m : list MedicalAnnotation) (c : MedicalAnnotation) :
  rev (merge_step m c) = step_rev (rev m) c.
Proof.
  unfold merge_step, step_rev.
  destruct (rev m) as [|last r'] eqn:E.
  - rewrite rev_app_distr, E. reflexivity.
  - destruct (start_pos c <=? end_pos last).
    + destruct (wins c last); [|exact E].
      rewrite rev_app_distr. simpl.
      assert (Hm : m = rev r' ++ [last]).
      { rewrite <- (rev_involutive m), E. reflexivity. }
      rewrite Hm, removelast_last, rev_involutive. reflexivity.
    + rewrite rev_app_distr, E. reflexivity.
Qed.

Lemma fold_merge_step_rev (l m : list MedicalAnnotation) :
  rev (fold_left merge_step l m) = fold_left step_rev l (rev m).
Proof.
  revert m. induction l as [|c l IH]; intros m; simpl; [reflexivity|].
  rewrite IH, merge_step_rev. reflexivity.
Qed.

(** *** Order facts *)

Lemma key_le_total a b : key_le a b = false -> key_le b a = true.
Proof. unfold key_le. intros H. lia. Qed.

Lemma key_le_trans a b c :
  key_le a b = true -> key_le b c = true -> key_le a c = true.
Proof. unfold key_le. lia. Qed.

Lemma key_le_start a b : key_le a b = true -> start_pos a <= start_pos b.
Proof. unfold key_le. lia. Qed.

Definition KeySorted := StronglySorted (fun a b => key_le a b = true).

Lemma insert_Forall (P : MedicalAnnotation -> Prop) x l :
  P x -> Forall P l -> Forall P (insert x l).
Proof.
  intros Hx Hl. induction Hl as [|y l Hy Hl IH]; simpl.
  - constructor; [exact Hx | constructor].
  - destruct (key_le x y); repeat constructor; assumption.
Qed.

Lemma insert_sorted x l : KeySorted l -> KeySorted (insert x l).
Proof.
  intros Hl. induction Hl as [|y l Hl IH Hy]; simpl.
  - repeat constructor.
  - destruct (key_le x y) eqn:E.
    + constructor; [constructor; assumption|].
      constructor; [exact E|].
      eapply Forall_impl; [|exact Hy].
      intros z Hz. eapply key_le_trans; eassumption.
    + constructor; [exact IH|].
      apply insert_Forall; [|exact Hy].
      apply key_le_total. exact E.
Qed.

Lemma sorted_KeySorted l : KeySorted (sorted l).
Proof.
  induction l as [|x l IH]; simpl; [constructor | apply insert_sorted, IH].
Qed.

Lemma sorted_fixpoint l : KeySorted l -> sorted l = l.
Proof.
  intros Hl. induction Hl as [|x l Hl IH Hx]; simpl; [reflexivity|].
  rewrite IH. destruct l as [|y l']; simpl; [reflexivity|].
  inversion Hx as [|? ? Hxy _]; subst. rewrite Hxy. reflexivity.
Qed.

(** *** The loop invariant

    On the reversed list: every kept annotation ends strictly before the
    start of the one kept after it, and the kept annotations are still in
    key order (latest first). *)
Inductive Kept : list MedicalAnnotation -> Prop :=
| Kept_nil : Kept []
| Kept_one x : Kept [x]
| Kept_cons x y r :
    end_pos y < start_pos x -> key_le y x = true ->
    Kept (y :: r) -> Kept (x :: y :: r).

Lemma Kept_tail x r : Kept (x :: r) -> Kept r.
Proof. inversion 1; subst; [constructor | assumption]. Qed.

Lemma step_rev_Kept r c :
  Kept r -> Forall (fun x => key_le x c = true) r -> Kept (step_rev r c).
Proof.
  intros HK HF. unfold step_rev.
  destruct r as [|last r']; [constructor|].
  inversion HF as [|? ? Hlast Hrest]; subst.
  destruct (start_pos c <=? end_pos last) eqn:E.
  - destruct (wins c last); [|exact HK].
    inversion HK as [| |? y r'' Hsep Hkey HK']; subst; [constructor|].
    inversion Hrest as [|? ? Hy _]; subst.
    constructor; [|exact Hy|exact HK'].
    apply key_le_start in Hlast. lia.
  - constructor; [lia | exact Hlast | exact HK].
Qed.

Lemma step_rev_below (P : MedicalAnnotation -> Prop) r c :
  Forall P r -> P c -> Forall P (step_rev r c).
Proof.
  intros HF Hc. unfold step_rev. destruct r as [|last r']; [repeat constructor; exact Hc|].
  inversion HF; subst.
  destruct (start_pos c <=? end_pos last); [destruct (wins c last)|];
    repeat constructor; assumption.
Qed.

Lemma fold_step_rev_Kept l r :
  KeySorted l -> Kept r ->
  Forall (fun x => Forall (fun c => key_le x c = true) l) r ->
  Kept (fold_left step_rev l r).
Proof.
  revert r. induction l as [|c l IH]; intros r Hl HK HF; simpl; [exact HK|].
  inversion Hl as [|? ? Hl' Hc]; subst.
  apply IH; [exact Hl'| |].
  - apply step_rev_Kept; [exact HK|].
    eapply Forall_impl; [|exact HF]. intros x Hx. inversion Hx; assumption.
  - apply step_rev_below.
    + eapply Forall_impl; [|exact HF]. intros x Hx. inversion Hx; assumption.
    + exact Hc.
Qed.

Lemma merge_rev_Kept l : Kept (rev (_merge_overlapping_annotations l)).
Proof.
  unfold _merge_overlapping_annotations. destruct l as [|a l]; [constructor|].
  rewrite fold_merge_step_rev. apply fold_step_rev_Kept.
  - apply sorted_KeySorted.
  - constructor.
  - constructor.
Qed.

(** In a [Kept] list every annotation starts after the end of every
    annotation kept before it (further down the reversed list). *)
Lemma Kept_starts x r :
  Kept (x :: r) -> Forall (fun y => end_pos y < start_pos x) r.
Proof.
  revert x. induction r as [|y r IH]; intros x HK; [constructor|].
  inversion HK as [| |? ? ? Hsep Hkey HK']; subst.
  constructor; [exact Hsep|].
  eapply Forall_impl; [|exact (IH y HK')].
  intros z Hz. simpl in Hz. apply key_le_start in Hkey. lia.
Qed.

Lemma Kept_apart r i j a b :
  Kept r -> (i < j)%nat ->
  nth_error r i = Some a -> nth_error r j = Some b ->
  end_pos b < start_pos a.
Proof.
  revert i j. induction r as [|x r IH]; intros i j HK Hij Ha Hb.
  - destruct i; discriminate.
  - destruct j as [|j]; [lia|]. destruct i as [|i]; simpl in Ha, Hb.
    + injection Ha as <-.
      apply Kept_starts in HK. rewrite Forall_forall in HK.
      apply HK. eapply nth_error_In; eassumption.
    + apply (IH i j); [eapply Kept_tail; eassumption | lia | assumption..].
Qed.

Lemma Kept_no_overlap r i j a b :
  Kept r -> i <> j ->
  nth_error r i = Some a -> nth_error r j = Some b -> ~ overlaps a b.
Proof.
  intros HK Hij Ha Hb [H1 H2].
  destruct (Nat.lt_ge_cases i j) as [Hlt|Hge].
  - pose proof (Kept_apart r i j a b HK Hlt Ha Hb). lia.
  - assert (Hlt : (j < i)%nat) by lia.
    pose proof (Kept_apart r j i b a HK Hlt Hb Ha). lia.
Qed.

(** A list that already satisfies the invariant passes through the loop
    unchanged. *)
Lemma fold_step_rev_Kept_id l r :
  Kept (rev l ++ r) -> fold_left step_rev l r = rev l ++ r.
Proof.
  revert r. induction l as [|c l IH]; intros r HK; simpl in *; [reflexivity|].
  rewrite <- app_assoc in HK. simpl in HK.
  assert (Hs : step_rev r c = c :: r).
  { assert (HK' : Kept (c :: r)).
    { clear IH. induction (rev l) as [|z t IHt]; simpl in HK; [exact HK|].
      apply IHt. eapply Kept_tail; eassumption. }
    unfold step_rev. destruct r as [|last r']; [reflexivity|].
    inversion HK' as [| |? ? ? Hsep _ _]; subst.
    destruct (start_pos c <=? end_pos last) eqn:E; [lia | reflexivity]. }
  rewrite Hs, IH, <- app_assoc; [reflexivity | exact HK].
Qed.

Lemma Kept_below x r :
  Kept (x :: r) -> Forall (fun y => key_le y x = true) r.
Proof.
  revert x. induction r as [|y r IH]; intros x HK; [constructor|].
  inversion HK as [| |? ? ? _ Hkey HK']; subst.
  constructor; [exact Hkey|].
  eapply Forall_impl; [|exact (IH y HK')].
  intros z Hz. simpl in Hz. eapply key_le_trans; eassumption.
Qed.

Lemma KeySorted_snoc l x :
  KeySorted l -> Forall (fun y => key_le y x = true) l -> KeySorted (l ++ [x]).
Proof.
  intros Hl. induction Hl as [|z t Ht IH Hz]; intros Hx; simpl.
  - repeat constructor.
  - inversion Hx as [|? ? Hzx Htx]; subst.
    constructor; [apply IH; exact Htx|].
    apply Forall_app. split; [exact Hz | repeat constructor; exact Hzx].
Qed.

Lemma Kept_rev_KeySorted r : Kept r -> KeySorted (rev r).
Proof.
  induction r as [|x r IH]; intros HK; simpl; [constructor|].
  apply KeySorted_snoc.
  - apply IH. eapply Kept_tail; eassumption.
  - apply Forall_rev. apply Kept_below. exact HK.
Qed.

Lemma nth_error_rev_at {A : Type} (m : list A) (i : nat) (a : A) :
  nth_error m i = Some a -> nth_error (rev m) (length m - S i) = Some a.
Proof.
  intros Ha.
  assert (Hi : (i < length m)%nat) by (apply nth_error_Some; congruence).
  rewrite nth_error_rev.
  destruct (Nat.ltb_spec (length m - S i) (length m)) as [_|Hge]; [|lia].
  replace (length m - S (length m - S i))%nat with i by lia. exact Ha.
Qed.

(** C1. For every input list, the merged list holds no two annotations (at
    different positions) whose spans overlap, where [a] and [b] overlap when
    [a.start_pos < b.end_pos] and [b.start_pos < a.end_pos]; replacements of
    a kept annotation by a later one are covered, the input being
    arbitrary. *)
Theorem merge_output_has_no_overlap :
  forall (annotations : list MedicalAnnotation) (i j : nat) (a b : MedicalAnnotation),
    i <> j ->
    nth_error (_merge_overlapping_annotations annotations) i = Some a ->
    nth_error (_merge_overlapping_annotations annotations) j = Some b ->
    ~ overlaps a b.
Proof.
  intros l i j a b Hij Ha Hb.
  pose proof (merge_rev_Kept l) as HK.
  set (m := _merge_overlapping_annotations l) in *.
  assert (Hi : (i < length m)%nat) by (apply nth_error_Some; congruence).
  assert (Hj : (j < length m)%nat) by (apply nth_error_Some; congruence).
  apply (Kept_no_overlap (rev m) (length m - S i) (length m - S j) a b HK).
  - lia.
  - apply nth_error_rev_at. exact Ha.
  - apply nth_error_rev_at. exact Hb.
Qed.

(** From the text "细胞异型性伴坏死": the rule match "细胞异型性" is kept
    first and then replaced by the dictionary match "异型性" that starts
    inside it; "坏死" follows at a distance. *)
Definition replaced_then_kept : list MedicalAnnotation :=
  [ mkAnn (U "细胞异型性") 0 5 PATHOLOGY (7 # 10)
          [(U "source", U "rule");
           (U "pattern", U "细胞[异型性|多形性|排列]*")];
    mkAnn (U "异型性") 2 5 PATHOLOGY (9 # 10)
          [(U "source", U "dictionary"); (U "dictionary", U "pathology")];
    mkAnn (U "坏死") 6 8 DISEASE (9 # 10)
          [(U "source", U "dictionary"); (U "dictionary", U "diseases")] ].

Lemma merge_replaced_witness :
  _merge_overlapping_annotations replaced_then_kept
  = [nth 1 replaced_then_kept adjacent_first;
     nth 2 replaced_then_kept adjacent_first] /\
  ~ overlaps (nth 1 replaced_then_kept adjacent_first)
             (nth 2 replaced_then_kept adjacent_first).
Proof.
  split; [reflexivity|].
  apply (merge_output_has_no_overlap replaced_then_kept 0 1);
    [discriminate | reflexivity | reflexivity].
Defined.

(** C9. Merging is idempotent: merging a list that the merge produced
    returns that list. *)
Theorem merge_idempotent :
  forall annotations : list MedicalAnnotation,
    _merge_overlapping_annotations (_merge_overlapping_annotations annotations)
    = _merge_overlapping_annotations annotations.
Proof.
  intros l. pose proof (merge_rev_Kept l) as HK.
  set (m := _merge_overlapping_annotations l) in *.
  unfold _merge_overlapping_annotations at 1.
  destruct m as [|a m'] eqn:Em; [reflexivity|].
  rewrite <- Em in *. clear Em a m'.
  rewrite sorted_fixpoint.
  - rewrite <- (rev_involutive (fold_left merge_step m [])).
    rewrite fold_merge_step_rev. simpl.
    rewrite fold_step_rev_Kept_id; rewrite app_nil_r; [apply rev_involutive | exact HK].
  - rewrite <- (rev_involutive m). apply Kept_rev_KeySorted. exact HK.
Qed.

(** The dictionary term "乳腺癌" wins over the rule match "腺癌" inside
    it. *)
Example dictionary_term_wins :
  _merge_overlapping_annotations
    [ mkAnn (U "乳腺癌") 0 3 DISEASE (9 # 10) [(U "source", U "dictionary")];
      mkAnn (U "腺癌") 1 3 DISEASE (7 # 10) [(U "source", U "rule")] ]
  = [ mkAnn (U "乳腺癌") 0 3 DISEASE (9 # 10) [(U "source", U "dictionary")] ].
Proof. reflexivity. Qed.

(** C6. The claim says that an annotation whose start equals the end of
    the previous kept annotation is retained. The test of line 278 is
    [current.start_pos <= last.end_pos]: on the adjacent, non-overlapping
    pair above the second annotation is dropped. *)
Theorem merge_drops_adjacent_annotation :
  start_pos adjacent_second = end_pos adjacent_first /\
  ~ overlaps adjacent_first adjacent_second /\
  _merge_overlapping_annotations [adjacent_first; adjacent_second]
  = [adjacent_first].
Proof.
  split; [reflexivity|]. split.
  - unfold overlaps. simpl. lia.
  - reflexivity.
Qed.

End Annotator.

(* ================================================================== *)
(** ** Facts about the matcher

    What [re.sub], [re.split] and [re.finditer] compute for the simple
    patterns of the pipeline: a single character class, a run of a class,
    a literal. *)

Module RegexFacts.
Import PyStr Regex.
Local Open Scope nat_scope.

(** The text that [re.sub] assembles from the matches. *)
Definition assemble (repl : pystr) (found : list (pystr * pystr) * pystr)
    : pystr :=
  concat (map (fun bm => fst bm ++ repl) (fst found)) ++ snd found.

Lemma re_sub_assemble r repl s :
  re_sub r repl s = assemble repl (all_matches r s).
Proof.
  unfold re_sub, assemble. destruct (all_matches r s) as [ms tl]. reflexivity.
Qed.

(** The pieces that [re.split] returns. *)
Definition pieces (found : list (pystr * pystr) * pystr) : list pystr :=
  map fst (fst found) ++ [snd found].


(** A character at which no match starts goes to the text before the
    first match, or to the tail when there is no match. *)
Definition skip (c : N) (found : list (pystr * pystr) * pystr)
    : list (pystr * pystr) * pystr :=
  match found with
  | ([], tl) => ([], c :: tl)
  | ((before, mt) :: ms, tl) => ((c :: before, mt) :: ms, tl)
  end.

Lemma matches_skip r c s fuel :
  match_at r false (c :: s) = None ->
  matches (S fuel) r false (c :: s) = skip c (matches (S fuel) r false s).
Proof.
  intros Hno. rewrite !matches_S. cbn [search]. rewrite Hno.
  destruct (search r false s) as [[[before mt] rest]|]; [|reflexivity].
  destruct (matches fuel r _ rest) as [ms tl]. reflexivity.
Qed.

Lemma matches_hit r s rest fuel :
  match_at r false s = Some rest ->
  matches (S fuel) r false s
  = (([], firstn (length s - length rest) s)
     :: fst (matches fuel r
               (match firstn (length s - length rest) s with
                | [] => true | _ => false end) rest),
     snd (matches fuel r
            (match firstn (length s - length rest) s with
             | [] => true | _ => false end) rest)).
Proof.
  intros Hhit. rewrite matches_S.
  destruct s as [|c s]; cbn [search]; rewrite Hhit;
    destruct (matches fuel r _ rest) as [ms tl]; reflexivity.
Qed.

Lemma assemble_skip repl c found :
  assemble repl (skip c found) = c :: assemble repl found.
Proof. destruct found as [[|[before mt] ms] tl]; reflexivity. Qed.


Lemma firstn_head (c : N) (s : pystr) :
  firstn (length (c :: s) - length s) (c :: s) = [c].
Proof.
  change (length (c :: s)) with (S (length s)).
  replace (S (length s) - length s) with 1 by lia. reflexivity.
Qed.

(** *** A single character class *)

Lemma match_at_chr p s :
  match_at (Chr p) false s
  = match s with
    | c :: s' => if p c then Some s' else None
    | [] => None
    end.
Proof. destruct s as [|c s]; [reflexivity|]. unfold match_at. simpl.
  destruct (p c); reflexivity. Qed.

(** [re.sub] of a class replaces each character of the class. *)
Lemma assemble_chr p repl : forall s fuel,
  2 * length s + 2 <= fuel ->
  assemble repl (matches fuel (Chr p) false s)
  = flat_map (fun c => if p c then repl else [c]) s.
Proof.
  induction s as [|c s IH]; intros fuel Hfuel.
  - destruct fuel; reflexivity.
  - destruct fuel as [|fuel]; [simpl in Hfuel; lia|].
    cbn [flat_map]. assert (Hf : 2 * length s + 2 <= fuel) by (simpl in Hfuel; lia).
    destruct (p c) eqn:Hp.
    + rewrite (matches_hit _ _ s); [|rewrite match_at_chr, Hp; reflexivity].
      rewrite firstn_head. unfold assemble. cbn [fst snd map concat app].
      rewrite <- app_assoc. f_equal.
      apply (IH fuel). lia.
    + rewrite matches_skip; [|rewrite match_at_chr, Hp; reflexivity].
      rewrite assemble_skip. cbn [app]. f_equal. apply IH. lia.
Qed.

Theorem re_sub_chr p repl s :
  re_sub (Chr p) repl s = flat_map (fun c => if p c then repl else [c]) s.
Proof.
  rewrite re_sub_assemble. apply assemble_chr. reflexivity.
Qed.

(** Splitting at the characters of a class. *)
Fixpoint split_at (p : N -> bool) (s : pystr) : list pystr :=
  match s with
  | [] => [[]]
  | c :: s' =>
      if p c then [] :: split_at p s'
      else match split_at p s' with
           | w :: ws => (c :: w) :: ws
           | [] => [[c]]
           end
  end.




Lemma split_at_join p s : length (concat (split_at p s)) <= length s.
Proof.
  induction s as [|c s IH]; simpl; [lia|].
  destruct (p c); simpl; [lia|].
  destruct (split_at p s) as [|w ws]; simpl in *; lia.
Qed.

(** *** A run of a character class *)

Fixpoint drop_run (p : N -> bool) (s : pystr) : pystr :=
  match s with
  | [] => []
  | c :: s' => if p c then drop_run p s' else s
  end.

Lemma drop_run_length p s : length (drop_run p s) <= length s.
Proof.
  induction s as [|c s IH]; simpl; [lia|]. destruct (p c); simpl; lia.
Qed.

Lemma star_all p k s :
  (forall x, k x = Some x) -> star p k s = Some (drop_run p s).
Proof.
  intros Hk. induction s as [|c s IH]; simpl; [apply Hk|].
  destruct (p c); [rewrite IH; reflexivity | apply Hk].
Qed.

Lemma match_at_plus p s :
  match_at (Plus p) false s
  = match s with
    | c :: s' => if p c then Some (drop_run p s') else None
    | [] => None
    end.
Proof.
  destruct s as [|c s]; [reflexivity|]. unfold match_at. simpl.
  destruct (p c); [|reflexivity]. apply star_all. reflexivity.
Qed.

(** Every run of the class becomes one copy of the replacement; [in_run]
    says that the previous character was of the class. *)
Fixpoint squeeze (p : N -> bool) (repl : pystr) (in_run : bool) (s : pystr)
    : pystr :=
  match s with
  | [] => []
  | c :: s' =>
      if p c then
        if in_run then squeeze p repl true s'
        else repl ++ squeeze p repl true s'
      else c :: squeeze p repl false s'
  end.

Lemma squeeze_drop_run p repl s :
  squeeze p repl true s = squeeze p repl false (drop_run p s).
Proof.
  induction s as [|c s IH]; simpl; [reflexivity|].
  destruct (p c) eqn:Hp; [exact IH|]. simpl. rewrite Hp. reflexivity.
Qed.

Lemma assemble_plus p repl : forall n s fuel,
  length s <= n -> 2 * length s + 2 <= fuel ->
  assemble repl (matches fuel (Plus p) false s) = squeeze p repl false s.
Proof.
  induction n as [|n IH]; intros s fuel Hn Hfuel.
  - destruct s; [|simpl in Hn; lia]. destruct fuel; reflexivity.
  - destruct s as [|c s]; [destruct fuel; reflexivity|].
    destruct fuel as [|fuel]; [simpl in Hfuel; lia|].
    assert (Hs : length s <= n) by (simpl in Hn; lia).
    assert (Hf : 2 * length s + 2 <= fuel) by (simpl in Hfuel; lia).
    cbn [squeeze]. destruct (p c) eqn:Hp.
    + pose proof (drop_run_length p s) as Hd.
      rewrite (matches_hit _ _ (drop_run p s));
        [|rewrite match_at_plus, Hp; reflexivity].
      change (length (c :: s)) with (S (length s)).
      replace (S (length s) - length (drop_run p s))
        with (S (length s - length (drop_run p s))) by lia.
      cbn [firstn]. unfold assemble. cbn [fst snd map concat app].
      rewrite <- app_assoc. f_equal.
      rewrite squeeze_drop_run. apply (IH _ fuel); lia.
    + rewrite matches_skip; [|rewrite match_at_plus, Hp; reflexivity].
      rewrite assemble_skip. f_equal. apply (IH _ (S fuel)); lia.
Qed.

Theorem re_sub_plus p repl s :
  re_sub (Plus p) repl s = squeeze p repl false s.
Proof.
  rewrite re_sub_assemble. apply (assemble_plus p repl (length s)); reflexivity.
Qed.

(** *** Where the matches lie

    The text after a match is a suffix of the text searched; the matches
    and the text between them, in order, make up the whole text. *)
Lemma star_suffix p k s res :
  star p k s = Some res -> exists pre s', s = pre ++ s' /\ k s' = Some res.
Proof.
  induction s as [|c s IH]; simpl; intros H.
  - exists [], []. split; [reflexivity | exact H].
  - destruct (p c).
    + destruct (star p k s) as [x|] eqn:E.
      * injection H as <-. destruct (IH eq_refl) as (pre & s' & -> & Hk).
        exists (c :: pre), s'. split; [reflexivity | exact Hk].
      * exists [], (c :: s). split; [reflexivity | exact H].
    + exists [], (c :: s). split; [reflexivity | exact H].
Qed.

Lemma m_suffix r : forall s k res,
  m r s k = Some res -> exists pre s', s = pre ++ s' /\ k s' = Some res.
Proof.
  induction r as [|p|r1 IH1 r2 IH2|r1 IH1 r2 IH2|p]; simpl; intros s k res H.
  - exists [], s. split; [reflexivity | exact H].
  - destruct s as [|c s]; [discriminate|]. destruct (p c); [|discriminate].
    exists [c], s. split; [reflexivity | exact H].
  - destruct (IH1 _ _ _ H) as (pre1 & s1 & -> & H1).
    destruct (IH2 _ _ _ H1) as (pre2 & s2 & -> & H2).
    exists (pre1 ++ pre2), s2. split; [apply app_assoc | exact H2].
  - destruct (m r1 s k) as [x|] eqn:E.
    + injection H as <-. exact (IH1 _ _ _ E).
    + exact (IH2 _ _ _ H).
  - exact (star_suffix _ _ _ _ H).
Qed.

Lemma match_at_suffix r adv s rest :
  match_at r adv s = Some rest -> exists pre, s = pre ++ rest.
Proof.
  unfold match_at. intros H. destruct (m_suffix _ _ _ _ H) as (pre & s' & -> & Hk).
  destruct (adv && _); [discriminate|]. injection Hk as <-.
  exists pre. reflexivity.
Qed.

Lemma firstn_prefix (pre rest : pystr) :
  firstn (length (pre ++ rest) - length rest) (pre ++ rest) = pre.
Proof.
  rewrite length_app. replace (length pre + length rest - length rest)
    with (length pre + 0) by lia.
  rewrite firstn_app_2. simpl. apply app_nil_r.
Qed.

Lemma firstn_of_suffix (s pre rest : pystr) :
  s = pre ++ rest -> firstn (length s - length rest) s = pre.
Proof. intros ->. apply firstn_prefix. Qed.

Lemma search_eq r adv s :
  search r adv s
  = match match_at r adv s with
    | Some rest => Some ([], firstn (length s - length rest) s, rest)
    | None =>
        match s with
        | [] => None
        | c :: s' =>
            match search r false s' with
            | Some (before, mt, rest) => Some (c :: before, mt, rest)
            | None => None
            end
        end
    end.
Proof. destruct s; reflexivity. Qed.

Lemma search_split r : forall adv s before mt rest,
  search r adv s = Some (before, mt, rest) -> s = before ++ mt ++ rest.
Proof.
  intros adv s. revert adv.
  induction s as [|c s IH]; intros adv before mt rest; rewrite search_eq;
    destruct (match_at r adv _) as [x|] eqn:E.
  - intros H. injection H as <- <- <-.
    destruct (match_at_suffix _ _ _ _ E) as [pre Hpre].
    symmetry in Hpre. apply app_eq_nil in Hpre as [-> ->]. reflexivity.
  - discriminate.
  - intros H. injection H as <- <- <-.
    destruct (match_at_suffix _ _ _ _ E) as [pre Hpre].
    etransitivity; [exact Hpre|]. cbn [app]. f_equal. symmetry.
    exact (firstn_of_suffix _ _ _ Hpre).
  - destruct (search r false s) as [[[b' m'] r']|] eqn:E'; [|discriminate].
    intros H. injection H as <- <- <-.
    rewrite (IH _ _ _ _ E') at 1. reflexivity.
Qed.

Lemma matches_split r : forall fuel adv s,
  s = concat (map (fun bm => fst bm ++ snd bm) (fst (matches fuel r adv s)))
      ++ snd (matches fuel r adv s).
Proof.
  induction fuel as [|fuel IH]; intros adv s; [reflexivity|].
  rewrite matches_S.
  destruct (search r adv s) as [[[before mt] rest]|] eqn:E; [|reflexivity].
  specialize (IH (match mt with [] => true | _ => false end) rest).
  destruct (matches fuel r _ rest) as [ms tl].
  cbn [fst snd map concat] in *.
  rewrite (search_split _ _ _ _ _ _ E) at 1.
  rewrite <- !app_assoc. do 2 f_equal. exact IH.
Qed.

(** [re.finditer]: for each match its [start()], [end()] and [group()]. *)
Fixpoint spans (offset : nat) (ms : list (pystr * pystr))
    : list (nat * nat * pystr) :=
  match ms with
  | [] => []
  | (before, mt) :: ms' =>
      (offset + length before, offset + length before + length mt, mt)
      :: spans (offset + length before + length mt) ms'
  end.

Definition re_finditer (r : re) (s : pystr) : list (nat * nat * pystr) :=
  spans 0 (fst (all_matches r s)).

(** [s[i:j]] for [0 <= i <= j]. *)
Definition substring (s : pystr) (i j : nat) : pystr :=
  firstn (j - i) (skipn i s).

Lemma spans_in_text (ms : list (pystr * pystr)) : forall pre tl st en g,
  In (st, en, g) (spans (length pre) ms) ->
  let text := pre ++ concat (map (fun bm => fst bm ++ snd bm) ms) ++ tl in
  st <= en /\ en <= length text /\ substring text st en = g /\
  en = st + length g.
Proof.
  induction ms as [|[before mt] ms IH]; intros pre tl st en g Hin;
    [destruct Hin|].
  cbn [spans] in Hin. destruct Hin as [Heq|Hin].
  - injection Heq as <- <- <-. cbn zeta. cbn [map concat fst snd].
    repeat split; try lia.
    + rewrite !length_app. lia.
    + unfold substring.
      replace (length pre + length before + length mt
               - (length pre + length before)) with (length mt) by lia.
      rewrite <- !app_assoc, (app_assoc pre before).
      rewrite <- length_app, skipn_app, skipn_all, Nat.sub_diag.
      cbn [skipn app]. rewrite firstn_app, firstn_all, Nat.sub_diag.
      cbn [firstn]. apply app_nil_r.
  - rewrite <- !length_app in Hin.
    specialize (IH ((pre ++ before) ++ mt) tl st en g Hin).
    cbn zeta in *. cbn [map concat fst snd].
    rewrite <- !app_assoc in *. exact IH.
Qed.

(** Every match reported lies inside the text and its group is the text
    between its two positions. *)
Theorem finditer_spans r s st en g :
  In (st, en, g) (re_finditer r s) ->
  st <= en /\ en <= length s /\ substring s st en = g /\
  en = st + length g.
Proof.
  unfold re_finditer, all_matches. intros Hin.
  pose proof (matches_split r (2 * length s + 2) false s) as Hs.
  pose proof (spans_in_text _ [] (snd (matches (2 * length s + 2) r false s))
                st en g Hin) as H.
  cbn zeta in H. cbn [app] in H. rewrite <- Hs in H. exact H.
Qed.

Lemma spans_groups offset ms st en g :
  In (st, en, g) (spans offset ms) -> In g (map snd ms).
Proof.
  revert offset. induction ms as [|[before mt] ms IH]; intros offset Hin;
    [destruct Hin|].
  destruct Hin as [Heq|Hin].
  - injection Heq as _ _ <-. left. reflexivity.
  - right. exact (IH _ Hin).
Qed.

(** Every match of a pattern is at least [min_len] long. *)
Lemma matches_min_len r : forall fuel adv s g,
  In g (map snd (fst (matches fuel r adv s))) -> min_len r <= length g.
Proof.
  induction fuel as [|fuel IH]; intros adv s g; [intros []|].
  rewrite matches_S.
  destruct (search r adv s) as [[[before mt] rest]|] eqn:E; [|intros []].
  specialize (IH (match mt with [] => true | _ => false end) rest g).
  destruct (matches fuel r _ rest) as [ms tl]. cbn [fst map snd] in *.
  intros [<-|Hin]; [|exact (IH Hin)].
  apply search_parts in E. apply E.
Qed.

(** *** A literal *)

Lemma m_lit (t : pystr) : forall s k res,
  m (Lit t) s k = Some res -> exists s', s = t ++ s' /\ k s' = Some res.
Proof.
  induction t as [|c t IH]; simpl; intros s k res H.
  - exists s. split; [reflexivity | exact H].
  - destruct s as [|d s]; [discriminate|].
    destruct (N.eqb_spec c d) as [->|]; [|discriminate].
    destruct (IH _ _ _ H) as (s' & -> & Hk).
    exists s'. split; [reflexivity | exact Hk].
Qed.

Lemma min_len_lit t : min_len (Lit t) = length t.
Proof. induction t as [|c t IH]; simpl; [reflexivity | rewrite IH; reflexivity]. Qed.

Lemma search_lit (t : pystr) : forall adv s before mt rest,
  search (Lit t) adv s = Some (before, mt, rest) -> mt = t.
Proof.
  intros adv s. revert adv.
  induction s as [|c s IH]; intros adv before mt rest; rewrite search_eq;
    destruct (match_at (Lit t) adv _) as [x|] eqn:E.
  - intros H. injection H as <- <- <-.
    unfold match_at in E. destruct (m_lit _ _ _ _ E) as (s' & Hs & Hk).
    symmetry in Hs. apply app_eq_nil in Hs as [-> ->]. reflexivity.
  - discriminate.
  - intros H. injection H as <- <- <-.
    unfold match_at in E. destruct (m_lit _ _ _ _ E) as (s' & Hs & Hk).
    destruct (adv && _); [discriminate|]. injection Hk as <-.
    exact (firstn_of_suffix _ _ _ Hs).
  - destruct (search (Lit t) false s) as [[[b' m'] r']|] eqn:E'; [|discriminate].
    intros H. injection H as <- <- <-. exact (IH _ _ _ _ E').
Qed.

Lemma matches_lit (t : pystr) : forall fuel adv s g,
  In g (map snd (fst (matches fuel (Lit t) adv s))) -> g = t.
Proof.
  induction fuel as [|fuel IH]; intros adv s g; [intros []|].
  rewrite matches_S.
  destruct (search (Lit t) adv s) as [[[before mt] rest]|] eqn:E; [|intros []].
  specialize (IH (match mt with [] => true | _ => false end) rest g).
  destruct (matches fuel (Lit t) _ rest) as [ms tl]. cbn [fst map snd] in *.
  intros [<-|Hin]; [|exact (IH Hin)].
  exact (search_lit _ _ _ _ _ _ E).
Qed.

(** *** What a match can be

    [accepts r w]: the text [w] belongs to the language of [r]. Every
    match that the matcher reports is accepted by its pattern. *)
Inductive accepts : re -> pystr -> Prop :=
| accepts_eps : accepts Eps []
| accepts_chr p c : p c = true -> accepts (Chr p) [c]
| accepts_cat r1 r2 w1 w2 :
    accepts r1 w1 -> accepts r2 w2 -> accepts (Cat r1 r2) (w1 ++ w2)
| accepts_alt_l r1 r2 w : accepts r1 w -> accepts (Alt r1 r2) w
| accepts_alt_r r1 r2 w : accepts r2 w -> accepts (Alt r1 r2) w
| accepts_star p w : forallb p w = true -> accepts (Star p) w.

Lemma star_sound p k s res :
  star p k s = Some res ->
  exists w s', s = w ++ s' /\ forallb p w = true /\ k s' = Some res.
Proof.
  induction s as [|c s IH]; simpl; intros H.
  - exists [], []. repeat split; [exact H].
  - destruct (p c) eqn:Hp.
    + destruct (star p k s) as [x|] eqn:E.
      * injection H as <-. destruct (IH eq_refl) as (w & s' & -> & Hw & Hk).
        exists (c :: w), s'. simpl. rewrite Hp, Hw. repeat split; exact Hk.
      * exists [], (c :: s). repeat split; exact H.
    + exists [], (c :: s). repeat split; exact H.
Qed.

Lemma m_sound r : forall s k res,
  m r s k = Some res ->
  exists w s', s = w ++ s' /\ accepts r w /\ k s' = Some res.
Proof.
  induction r as [|p|r1 IH1 r2 IH2|r1 IH1 r2 IH2|p]; simpl; intros s k res H.
  - exists [], s. repeat split; [constructor | exact H].
  - destruct s as [|c s]; [discriminate|]. destruct (p c) eqn:Hp; [|discriminate].
    exists [c], s. repeat split; [constructor; exact Hp | exact H].
  - destruct (IH1 _ _ _ H) as (w1 & s1 & -> & A1 & H1).
    destruct (IH2 _ _ _ H1) as (w2 & s2 & -> & A2 & H2).
    exists (w1 ++ w2), s2. split; [apply app_assoc|].
    split; [constructor; assumption | exact H2].
  - destruct (m r1 s k) as [x|] eqn:E.
    + injection H as <-. destruct (IH1 _ _ _ E) as (w & s' & -> & A & Hk).
      exists w, s'. repeat split; [apply accepts_alt_l; exact A | exact Hk].
    + destruct (IH2 _ _ _ H) as (w & s' & -> & A & Hk).
      exists w, s'. repeat split; [apply accepts_alt_r; exact A | exact Hk].
  - destruct (star_sound _ _ _ _ H) as (w & s' & -> & Hw & Hk).
    exists w, s'. repeat split; [constructor; exact Hw | exact Hk].
Qed.

Lemma search_sound r : forall adv s before mt rest,
  search r adv s = Some (before, mt, rest) -> accepts r mt.
Proof.
  intros adv s. revert adv.
  induction s as [|c s IH]; intros adv before mt rest; rewrite search_eq;
    destruct (match_at r adv _) as [x|] eqn:E.
  - intros H. injection H as <- <- <-.
    unfold match_at in E. destruct (m_sound _ _ _ _ E) as (w & s' & Hs & A & Hk).
    symmetry in Hs. apply app_eq_nil in Hs as [-> ->]. exact A.
  - discriminate.
  - intros H. injection H as <- <- <-.
    unfold match_at in E. destruct (m_sound _ _ _ _ E) as (w & s' & Hs & A & Hk).
    destruct (adv && _); [discriminate|]. injection Hk as <-.
    replace (firstn _ (c :: s)) with w; [exact A|].
    symmetry. exact (firstn_of_suffix _ _ _ Hs).
  - destruct (search r false s) as [[[b' m'] r']|] eqn:E'; [|discriminate].
    intros H. injection H as <- <- <-. exact (IH _ _ _ _ E').
Qed.

Lemma matches_sound r : forall fuel adv s g,
  In g (map snd (fst (matches fuel r adv s))) -> accepts r g.
Proof.
  induction fuel as [|fuel IH]; intros adv s g; [intros []|].
  rewrite matches_S.
  destruct (search r adv s) as [[[before mt] rest]|] eqn:E; [|intros []].
  specialize (IH (match mt with [] => true | _ => false end) rest g).
  destruct (matches fuel r _ rest) as [ms tl]. cbn [fst map snd] in *.
  intros [<-|Hin]; [|exact (IH Hin)].
  exact (search_sound _ _ _ _ _ _ E).
Qed.

Lemma groups_have_spans ms : forall offset g,
  In g (map snd ms) -> exists st en, In (st, en, g) (spans offset ms).
Proof.
  induction ms as [|[before mt] ms IH]; intros offset g; [intros []|].
  cbn [map snd spans]. intros [<-|Hin].
  - do 2 eexists. left. reflexivity.
  - destruct (IH (offset + length before + length mt) g Hin) as (st & en & H).
    exists st, en. right. exact H.
Qed.

(** Every string that [re.findall] returns is accepted by the pattern, is
    at least [min_len] long and is a slice of the text. *)
Theorem findall_sound r s g :
  In g (re_findall r s) ->
  accepts r g /\ min_len r <= length g /\
  exists st en, st <= en /\ en <= length s /\ substring s st en = g.
Proof.
  unfold re_findall, all_matches. intros Hin.
  split; [exact (matches_sound _ _ _ _ _ Hin)|].
  split; [exact (matches_min_len _ _ _ _ _ Hin)|].
  destruct (groups_have_spans _ 0 _ Hin) as (st & en & Hspan).
  exists st, en. pose proof (finditer_spans r s st en g Hspan) as H.
  tauto.
Qed.

Lemma accepts_lit t w : accepts (Lit t) w -> w = t.
Proof.
  revert w. induction t as [|c t IH]; simpl; intros w H.
  - inversion H. reflexivity.
  - inversion H as [| |? ? w1 w2 H1 H2| | |]; subst.
    inversion H1 as [|p d Hd| | | |]; subst.
    apply N.eqb_eq in Hd. subst d. rewrite (IH _ H2). reflexivity.
Qed.

Lemma accepts_alts_lit ws w : accepts (Alts (map Lit ws)) w -> In w ws.
Proof.
  induction ws as [|t ws IH]; simpl; intros H.
  - inversion H; discriminate.
  - destruct ws as [|t' ws'].
    + left. symmetry. exact (accepts_lit _ _ H).
    + inversion H; subst.
      * left. symmetry. apply accepts_lit. assumption.
      * right. apply IH. assumption.
Qed.

(** A match of [p*(k1|k2|...)p*]: a keyword between two runs of [p]. *)
Lemma accepts_keyword_in_run p ws w :
  accepts (Seq [Star p; Alts (map Lit ws); Star p]) w ->
  exists a k b, w = a ++ k ++ b /\ In k ws /\
                forallb p a = true /\ forallb p b = true.
Proof.
  simpl. intros H.
  inversion H as [| |? ? a w1 Ha H1| | |]; subst.
  inversion H1 as [| |? ? k w2 Hk H2| | |]; subst.
  inversion H2 as [| |? ? b w3 Hb H3| | |]; subst.
  inversion H3; subst. inversion Ha; subst. inversion Hb; subst.
  exists a, k, b. rewrite app_nil_r.
  repeat split; try assumption. exact (accepts_alts_lit _ _ Hk).
Qed.

Lemma startswith_app k b : startswith k (k ++ b) = true.
Proof.
  induction k as [|c k IH]; simpl; [reflexivity|].
  rewrite N.eqb_refl. exact IH.
Qed.

Lemma contains_middle a k b : contains k (a ++ k ++ b) = true.
Proof.
  induction a as [|c a IH]; simpl.
  - destruct (k ++ b) eqn:E; simpl; rewrite <- E, startswith_app; reflexivity.
  - rewrite IH. apply orb_true_r.
Qed.

End RegexFacts.

(* ================================================================== *)
(** ** Facts about strings *)

Module PyStrFacts.
Import PyStr.
Local Open Scope nat_scope.

Lemma distinct_In (l : list pystr) (x : pystr) :
  In x (distinct l) <-> In x l.
Proof.
  induction l as [|y l IH]; simpl; [tauto|].
  rewrite filter_In, IH. split.
  - intros [H|[H _]]; [left | right]; assumption.
  - intros [H|H]; [left; exact H|].
    destruct (str_eqb y x) eqn:E.
    + left. apply str_eqb_eq. exact E.
    + right. split; [exact H | reflexivity].
Qed.

Lemma NoDup_filter {A : Type} (f : A -> bool) (l : list A) :
  NoDup l -> NoDup (filter f l).
Proof.
  induction 1 as [|x l Hx Hl IH]; simpl; [constructor|].
  destruct (f x); [|exact IH].
  constructor; [|exact IH]. intros Hin. apply Hx.
  apply filter_In in Hin. apply Hin.
Qed.

Lemma distinct_NoDup (l : list pystr) : NoDup (distinct l).
Proof.
  induction l as [|y l IH]; simpl; constructor.
  - intros Hin. apply filter_In in Hin. destruct Hin as [_ Hne].
    assert (Hy : str_eqb y y = true) by (apply str_eqb_eq; reflexivity).
    rewrite Hy in Hne. discriminate.
  - apply NoDup_filter. exact IH.
Qed.

Lemma lstrip_suffix s : exists pre, s = pre ++ lstrip s.
Proof.
  induction s as [|c s [pre IH]]; [exists []; reflexivity|].
  simpl. destruct (isspace c).
  - exists (c :: pre). simpl. f_equal. exact IH.
  - exists []. reflexivity.
Qed.

Lemma lstrip_head s c rest : lstrip s = c :: rest -> isspace c = false.
Proof.
  induction s as [|d s IH]; simpl; [discriminate|].
  destruct (isspace d) eqn:E; [exact IH|].
  intros H. injection H as <- _. exact E.
Qed.

Lemma rstrip_prefix s : exists suf, s = rstrip s ++ suf.
Proof.
  unfold rstrip. destruct (lstrip_suffix (rev s)) as [pre H].
  exists (rev pre). rewrite <- rev_app_distr, <- H. symmetry. apply rev_involutive.
Qed.

Lemma rstrip_last s c front : rstrip s = front ++ [c] -> isspace c = false.
Proof.
  unfold rstrip. intros H.
  apply (f_equal (@rev N)) in H. rewrite rev_involutive, rev_app_distr in H.
  exact (lstrip_head _ _ _ H).
Qed.

(** [strip] keeps a middle part of the text, which neither starts nor ends
    with whitespace. *)
Lemma strip_middle s : exists pre suf, s = pre ++ strip s ++ suf.
Proof.
  unfold strip. destruct (lstrip_suffix s) as [pre H1].
  destruct (rstrip_prefix (lstrip s)) as [suf H2].
  exists pre, suf. rewrite <- H2. exact H1.
Qed.

Lemma strip_head s c rest : strip s = c :: rest -> isspace c = false.
Proof.
  unfold strip. intros H. destruct (rstrip_prefix (lstrip s)) as [suf H2].
  rewrite H in H2. exact (lstrip_head _ _ _ H2).
Qed.

Lemma strip_last s c front : strip s = front ++ [c] -> isspace c = false.
Proof. unfold strip. apply rstrip_last. Qed.


(** One character written as a literal. *)
Definition chr (s : string) : N := hd 0%N (U s).

Lemma filter_at_most {A : Type} (f : A -> bool) (l : list A) :
  length (filter f l) <= length l.
Proof. induction l as [|x l IH]; simpl; [lia|]. destruct (f x); simpl; lia. Qed.

End PyStrFacts.

(* ================================================================== *)
(** ** data_cleaner.py: what the cleaned text looks like *)

Module CleanerFacts.
Import PyStr Regex PyFloat Cleaner PyStrFacts RegexFacts.
Local Open Scope nat_scope.

(** *** [_normalize_format] *)

(** The three ASCII marks become their full-width forms; the other
    substitutions of [_normalize_format] replace a character by itself. *)
Definition normalize_char (c : N) : N :=
  if (c =? chr ",")%N then chr "，"
  else if (c =? chr "(")%N then chr "（"
  else if (c =? chr ")")%N then chr "）"
  else c.

(** Replacing the two characters of a class by the first of them. *)
Lemma re_sub_pair (x y : N) (text : pystr) :
  re_sub (Chr (OneOf [x; y] no_class)) [x] text
  = map (fun c => if (c =? y)%N then x else c) text.
Proof.
  rewrite re_sub_chr. induction text as [|c text IH]; [reflexivity|].
  cbn [flat_map map]. rewrite IH. unfold OneOf, no_class. cbn [existsb].
  destruct (N.eqb_spec c x) as [Hx|Hx], (N.eqb_spec c y) as [Hy|Hy];
    cbn; try reflexivity. subst. reflexivity.
Qed.

Lemma re_sub_same (x : N) (text : pystr) :
  re_sub (Chr (OneOf [x; x] no_class)) [x] text = text.
Proof.
  rewrite re_sub_pair. rewrite <- (map_id text) at 2. apply map_ext.
  intros c. destruct (N.eqb_spec c x) as [->|]; reflexivity.
Qed.

Lemma normalize_format_map text :
  _normalize_format text = map normalize_char text.
Proof.
  unfold _normalize_format.
  change (U "，") with [chr "，"]. change (U "，,") with [chr "，"; chr ","].
  change (U "。") with [chr "。"]. change (U "。。") with [chr "。"; chr "。"].
  change (U "；") with [chr "；"]. change (U "；；") with [chr "；"; chr "；"].
  change (U "：") with [chr "："]. change (U "：：") with [chr "："; chr "："].
  change (U "（") with [chr "（"]. change (U "（(") with [chr "（"; chr "("].
  change (U "）") with [chr "）"]. change (U "）)") with [chr "）"; chr ")"].
  rewrite !re_sub_same, !re_sub_pair, !map_map.
  apply map_ext. intros c. unfold normalize_char.
  destruct (N.eqb_spec c (chr ",")) as [->|H1]; [reflexivity|].
  destruct (N.eqb_spec c (chr "(")) as [->|H2]; [reflexivity|].
  destruct (N.eqb_spec c (chr ")")) as [->|H3]; reflexivity.
Qed.

Lemma normalize_char_idempotent c :
  normalize_char (normalize_char c) = normalize_char c.
Proof.
  unfold normalize_char.
  destruct (N.eqb_spec c (chr ",")) as [->|H1]; [reflexivity|].
  destruct (N.eqb_spec c (chr "(")) as [->|H2]; [reflexivity|].
  destruct (N.eqb_spec c (chr ")")) as [->|H3]; [reflexivity|].
  apply N.eqb_neq in H1, H2, H3. rewrite H1, H2, H3. reflexivity.
Qed.

Lemma normalize_char_not_ascii c :
  normalize_char c <> chr "," /\ normalize_char c <> chr "("
  /\ normalize_char c <> chr ")".
Proof.
  unfold normalize_char.
  destruct (N.eqb_spec c (chr ",")) as [->|H1]; [repeat split; discriminate|].
  destruct (N.eqb_spec c (chr "(")) as [->|H2]; [repeat split; discriminate|].
  destruct (N.eqb_spec c (chr ")")) as [->|H3]; [repeat split; discriminate|].
  repeat split; assumption.
Qed.

(** X1. [_normalize_format] works character by character: it keeps the
    length of the text, applying it twice changes nothing more, and the
    result holds no ASCII comma or parenthesis. *)
Theorem normalize_format_is_charwise :
  forall text : pystr,
    _normalize_format text = map normalize_char text /\
    length (_normalize_format text) = length text /\
    _normalize_format (_normalize_format text) = _normalize_format text /\
    (forall c, In c (_normalize_format text) ->
               c <> chr "," /\ c <> chr "(" /\ c <> chr ")").
Proof.
  intros text. rewrite !normalize_format_map. split; [reflexivity|].
  split; [apply length_map|]. split.
  - rewrite map_map. apply map_ext. apply normalize_char_idempotent.
  - intros c Hin. apply in_map_iff in Hin. destruct Hin as (d & <- & _).
    apply normalize_char_not_ascii.
Qed.

(** *** Whitespace of the cleaned text *)

(** Every whitespace character is a space and no two of them are
    adjacent; [after_space] says that a space precedes the text. *)
Fixpoint single_spaces (after_space : bool) (s : pystr) : bool :=
  match s with
  | [] => true
  | c :: s' =>
      if isspace c then
        (c =? 32)%N && negb after_space && single_spaces true s'
      else single_spaces false s'
  end.

Lemma single_spaces_weaken s :
  single_spaces true s = true -> single_spaces false s = true.
Proof.
  destruct s as [|c s]; simpl; [reflexivity|].
  destruct (isspace c); [|tauto]. rewrite andb_false_r. discriminate.
Qed.

Lemma single_spaces_suffix pre : forall b t,
  single_spaces b (pre ++ t) = true -> single_spaces false t = true.
Proof.
  induction pre as [|c pre IH]; intros b t; simpl.
  - destruct b; [apply single_spaces_weaken | tauto].
  - destruct (isspace c); [|apply IH].
    intros H. apply andb_prop in H. destruct H as [_ H]. exact (IH _ _ H).
Qed.

Lemma single_spaces_prefix t suf : forall b,
  single_spaces b (t ++ suf) = true -> single_spaces b t = true.
Proof.
  induction t as [|c t IH]; intros b; simpl; [reflexivity|].
  destruct (isspace c); [|apply IH].
  intros H. apply andb_prop in H. destruct H as [H1 H2].
  rewrite H1. exact (IH _ H2).
Qed.

Lemma squeeze_single_spaces s :
  single_spaces true (squeeze isspace space true s) = true /\
  single_spaces false (squeeze isspace space false s) = true.
Proof.
  induction s as [|c s [IH1 IH2]]; simpl; [split; reflexivity|].
  destruct (isspace c) eqn:E; simpl.
  - split; [exact IH1 | exact IH1].
  - rewrite E. split; exact IH2.
Qed.

Lemma remove_noise_single_spaces text :
  single_spaces false (_remove_noise text) = true.
Proof.
  unfold _remove_noise. rewrite re_sub_plus.
  set (t := fold_left _ noise_patterns text).
  destruct (strip_middle (squeeze isspace space false t)) as (pre & suf & H).
  pose proof (proj2 (squeeze_single_spaces t)) as Hs.
  rewrite H in Hs. apply single_spaces_suffix in Hs.
  exact (single_spaces_prefix _ _ _ Hs).
Qed.

Lemma normalize_char_space c :
  isspace (normalize_char c) = isspace c /\
  (isspace c = true -> normalize_char c = c).
Proof.
  unfold normalize_char.
  destruct (N.eqb_spec c (chr ",")) as [->|H1];
    [split; [reflexivity | discriminate]|].
  destruct (N.eqb_spec c (chr "(")) as [->|H2];
    [split; [reflexivity | discriminate]|].
  destruct (N.eqb_spec c (chr ")")) as [->|H3];
    [split; [reflexivity | discriminate]|].
  split; reflexivity.
Qed.

Lemma single_spaces_normalize s : forall b,
  single_spaces b (map normalize_char s) = single_spaces b s.
Proof.
  induction s as [|c s IH]; intros b; simpl; [reflexivity|].
  destruct (normalize_char_space c) as [H1 H2]. rewrite H1.
  destruct (isspace c); [rewrite (H2 eq_refl), IH | apply IH]; reflexivity.
Qed.

Lemma single_spaces_spec s : forall b,
  single_spaces b s = true ->
  (forall c, In c s -> isspace c = true -> c = 32%N) /\
  (forall front x y back,
      s = front ++ x :: y :: back ->
      isspace x = true -> isspace y = false).
Proof.
  induction s as [|c s IH]; intros b H.
  - split; [intros c [] | intros [|? ?] x y back Hs; discriminate Hs].
  - simpl in H. destruct (isspace c) eqn:E.
    + apply andb_prop in H. destruct H as [H1 H2].
      apply andb_prop in H1. destruct H1 as [Hc _].
      apply N.eqb_eq in Hc. destruct (IH _ H2) as [IHa IHb]. split.
      * intros d [<-|Hin] Hd; [exact Hc | exact (IHa d Hin Hd)].
      * intros [|f front] x y back Hs Hx.
        -- injection Hs as <- ->. simpl in H2.
           destruct (isspace y); [|reflexivity].
           rewrite andb_false_r in H2. discriminate.
        -- injection Hs as _ ->. exact (IHb _ _ _ _ eq_refl Hx).
    + destruct (IH _ H) as [IHa IHb]. split.
      * intros d [<-|Hin] Hd; [congruence | exact (IHa d Hin Hd)].
      * intros [|f front] x y back Hs Hx.
        -- injection Hs as <- ->. congruence.
        -- injection Hs as _ ->. exact (IHb _ _ _ _ eq_refl Hx).
Qed.

(** X2. In the cleaned text every whitespace character is a single space
    (U+0020) between two other characters: no tabs or newlines are left,
    no two whitespace characters are adjacent, and the text neither starts
    nor ends with whitespace. *)
Theorem cleaned_text_whitespace_is_single_spaces :
  forall (fl : Q -> Q) (T : pystr),
    (forall c, In c (cleaned_text (clean_medical_text fl T)) ->
               isspace c = true -> c = 32%N) /\
    (forall front x y back,
        cleaned_text (clean_medical_text fl T) = front ++ x :: y :: back ->
        isspace x = true -> isspace y = false) /\
    (forall c rest,
        cleaned_text (clean_medical_text fl T) = c :: rest ->
        isspace c = false) /\
    (forall front c,
        cleaned_text (clean_medical_text fl T) = front ++ [c] ->
        isspace c = false).
Proof.
  intros fl T. unfold clean_medical_text. cbn [cleaned_text].
  rewrite normalize_format_map.
  assert (Hs : single_spaces false (map normalize_char (_remove_noise T)) = true)
    by (rewrite single_spaces_normalize; apply remove_noise_single_spaces).
  destruct (single_spaces_spec _ _ Hs) as [H1 H2].
  split; [exact H1|]. split; [exact H2|].
  assert (Hhead : forall c rest, _remove_noise T = c :: rest -> isspace c = false)
    by (intros c rest; unfold _remove_noise; apply strip_head).
  assert (Hlast : forall front c, _remove_noise T = front ++ [c] -> isspace c = false)
    by (intros front c; unfold _remove_noise; apply strip_last).
  clear Hs H1 H2. generalize dependent (_remove_noise T). intros t Hhead Hlast.
  split.
  - intros c rest H. destruct t as [|d t]; [discriminate|].
    cbn [map] in H. injection H as <- _.
    rewrite (proj1 (normalize_char_space d)). exact (Hhead d t eq_refl).
  - intros front c H.
    destruct (exists_last (l := t)) as (t' & d & ->).
    { intros ->. destruct front; discriminate. }
    rewrite map_app in H. cbn [map] in H.
    apply app_inj_tail in H. destruct H as [_ <-].
    rewrite (proj1 (normalize_char_space d)). exact (Hlast t' d eq_refl).
Qed.

(** *** [_extract_medical_terms] *)

(** The keywords of [self.medical_patterns], category by category. *)
Definition medical_keywords : list (pystr * list pystr) :=
  [ (U "diseases",
     [U "癌"; U "肿瘤"; U "炎"; U "症"; U "病"; U "综合征"; U "缺陷"; U "畸形";
      U "损伤"; U "破裂"; U "出血"; U "梗死"; U "坏死"]);
    (U "anatomy",
     [U "心脏"; U "肺"; U "肝"; U "肾"; U "脑"; U "胃"; U "肠"; U "骨"; U "肌肉";
      U "神经"; U "血管"; U "淋巴"]);
    (U "pathology",
     [U "良性"; U "恶性"; U "转移"; U "浸润"; U "增生"; U "萎缩"; U "纤维化";
      U "钙化"; U "囊性"; U "实性"]);
    (U "diagnosis",
     [U "诊断"; U "鉴别诊断"; U "临床表现"; U "症状"; U "体征"; U "检查";
      U "治疗"; U "预后"]);
    (U "histology",
     [U "细胞"; U "组织"; U "上皮"; U "间质"; U "胶原"; U "弹性纤维"; U "血管";
      U "神经纤维"]) ].

Lemma medical_patterns_keywords :
  medical_patterns
  = map (fun cw : pystr * list pystr => (fst cw, Alts (map Lit (snd cw))))
        medical_keywords.
Proof. reflexivity. Qed.

Lemma forallb_app_true {A : Type} (f : A -> bool) (a b : list A) :
  forallb f a = true -> forallb f b = true -> forallb f (a ++ b) = true.
Proof. intros Ha Hb. rewrite forallb_app, Ha, Hb. reflexivity. Qed.

Lemma keywords_are_term_chars :
  forallb (fun cw : pystr * list pystr =>
             forallb (forallb term_char) (snd cw)) medical_keywords = true.
Proof. vm_compute. reflexivity. Qed.

(** X3. The terms of every category: each is a slice of the text of at least
    two characters, holds a keyword of its category, and holds no
    whitespace and none of the separators ， 。 ； ：; no term is listed
    twice. The categories are always the same five, in the same order. *)
Theorem extracted_terms_hold_a_keyword :
  forall (text category : pystr) (terms : list pystr),
    In (category, terms) (_extract_medical_terms text) ->
    map fst (_extract_medical_terms text) = map fst medical_keywords /\
    NoDup terms /\
    forall term, In term terms ->
      2 <= length term /\
      (exists st en, st <= en /\ en <= length text /\
                     substring text st en = term) /\
      (exists keywords keyword,
          In (category, keywords) medical_keywords /\
          In keyword keywords /\ contains keyword term = true) /\
      forallb term_char term = true.
Proof.
  intros text category terms Hin. split.
  { unfold _extract_medical_terms. rewrite map_map. reflexivity. }
  unfold _extract_medical_terms in Hin. rewrite medical_patterns_keywords in Hin.
  rewrite map_map in Hin. apply in_map_iff in Hin.
  destruct Hin as ([cat ws] & Heq & Hcw).
  pose proof (f_equal fst Heq) as Hcat. pose proof (f_equal snd Heq) as Hterms.
  cbn [fst snd] in Hcat, Hterms. clear Heq. subst category terms.
  split; [apply distinct_NoDup|].
  intros term Hterm. apply (proj1 (distinct_In _ _)) in Hterm.
  apply filter_In in Hterm.
  destruct Hterm as [Hfound Hlen]. apply Nat.leb_le in Hlen.
  destruct (findall_sound _ _ _ Hfound) as (Hacc & _ & Hslice).
  destruct (accepts_keyword_in_run _ _ _ Hacc) as (a & k & b & -> & Hk & Ha & Hb).
  split; [exact Hlen|]. split; [exact Hslice|]. split.
  - exists ws, k. split; [exact Hcw|]. split; [exact Hk | apply contains_middle].
  - pose proof keywords_are_term_chars as Hall.
    rewrite forallb_forall in Hall. specialize (Hall _ Hcw). cbn [snd] in Hall.
    rewrite forallb_forall in Hall. specialize (Hall _ Hk).
    apply forallb_app_true; [exact Ha|]. apply forallb_app_true; assumption.
Qed.

(** The scenario holds two disease terms. *)
Lemma scenario_disease_terms_witness :
  NoDup [U "肺癌是常见恶性肿瘤"; U "患者出现咳嗽症状"] /\
  (forall term, In term [U "肺癌是常见恶性肿瘤"; U "患者出现咳嗽症状"] ->
                forallb term_char term = true).
Proof.
  assert (H : In (U "diseases", [U "肺癌是常见恶性肿瘤"; U "患者出现咳嗽症状"])
                 (_extract_medical_terms scenario))
    by (vm_compute; left; reflexivity).
  destruct (extracted_terms_hold_a_keyword scenario _ _ H) as (_ & Hnd & Hterms).
  split; [exact Hnd|]. intros term Hin. apply (Hterms term Hin).
Defined.

(** *** [_segment_text] *)








(** *** [batch_clean_files] *)




End CleanerFacts.

(* ================================================================== *)
(** ** qa_generator.py: counts, order and content of the pairs *)

Module GeneratorFacts.
Import PyStr Regex PyFloat Generator PyStrFacts RegexFacts.
Local Open Scope nat_scope.

(** *** [_distribute_question_types] *)

Definition zsum (l : list Z) : Z := fold_right Z.add 0%Z l.

Lemma zsum_app a b : zsum (a ++ b) = (zsum a + zsum b)%Z.
Proof. induction a as [|x a IH]; simpl; [reflexivity | rewrite IH; lia]. Qed.

Lemma distribute_sum (base r : Z) : forall n,
  (0 <= r)%Z ->
  zsum (map (fun i => if (Z.of_nat i <? r)%Z then (base + 1)%Z else base)
            (seq 0 n))
  = (Z.of_nat n * base + Z.min r (Z.of_nat n))%Z.
Proof.
  intros n Hr. induction n as [|n IH]; [simpl; lia|].
  rewrite seq_S, map_app, zsum_app, IH. cbn [map zsum fold_right Nat.add].
  destruct (Z.ltb_spec (Z.of_nat n) r); lia.
Qed.

Lemma nth_error_seq0 n i a :
  nth_error (seq 0 n) i = Some a -> a = i /\ i < n.
Proof.
  intros H. assert (Hi : i < length (seq 0 n))
    by (apply nth_error_Some; congruence).
  rewrite length_seq in Hi. split; [|exact Hi].
  apply (nth_error_nth _ _ 0) in H. rewrite seq_nth in H by exact Hi.
  simpl in H. congruence.
Qed.

(** X6. The counts add up to the number asked for, whatever its sign; they
    differ by at most one, and the larger ones come first. *)
Theorem distribute_counts_add_up :
  forall (total_count : Z) (type_count : nat),
    0 < type_count ->
    length (_distribute_question_types total_count type_count) = type_count /\
    zsum (_distribute_question_types total_count type_count) = total_count /\
    (forall i j ci cj,
        i <= j ->
        nth_error (_distribute_question_types total_count type_count) i = Some ci ->
        nth_error (_distribute_question_types total_count type_count) j = Some cj ->
        (cj <= ci <= cj + 1)%Z) /\
    (forall c, In c (_distribute_question_types total_count type_count) ->
               (0 <= total_count -> 0 <= c)%Z /\ (total_count < 0 -> c <= 0)%Z).
Proof.
  intros total n Hn. unfold _distribute_question_types.
  set (base := (total / Z.of_nat n)%Z). set (r := (total mod Z.of_nat n)%Z).
  assert (Hpos : (0 < Z.of_nat n)%Z) by lia.
  pose proof (Z.mod_pos_bound total (Z.of_nat n) Hpos) as Hr.
  pose proof (Z.div_mod total (Z.of_nat n) ltac:(lia)) as Hdm.
  fold base r in Hr, Hdm.
  split; [rewrite length_map, length_seq; reflexivity|].
  split; [rewrite distribute_sum by lia; lia|]. split.
  - intros i j ci cj Hij Hi Hj.
    rewrite nth_error_map in Hi, Hj.
    destruct (nth_error (seq 0 n) i) as [a|] eqn:Ea; [|discriminate].
    destruct (nth_error (seq 0 n) j) as [b|] eqn:Eb; [|discriminate].
    apply nth_error_seq0 in Ea, Eb. destruct Ea as [-> _], Eb as [-> _].
    cbn [option_map] in Hi, Hj. injection Hi as <-. injection Hj as <-.
    destruct (Z.ltb_spec (Z.of_nat i) r), (Z.ltb_spec (Z.of_nat j) r); lia.
  - intros c Hin. apply in_map_iff in Hin. destruct Hin as (i & <- & _).
    assert (Hb : (0 <= total -> 0 <= base)%Z)
      by (intros H; apply Z.div_pos; lia).
    assert (Hb' : (total < 0 -> base < 0)%Z)
      by (intros H; apply Z.div_lt_upper_bound; lia).
    destruct (Z.ltb_spec (Z.of_nat i) r); lia.
Qed.

(** Twenty pairs over the six question types. *)
Lemma twenty_over_six_witness :
  length (_distribute_question_types 20 6) = 6 /\
  zsum (_distribute_question_types 20 6) = 20%Z.
Proof.
  assert (H : 0 < 6) by lia.
  destruct (distribute_counts_add_up 20 6 H) as (H1 & H2 & _).
  split; [exact H1 | exact H2].
Defined.

(** *** [random.shuffle] *)

(** [l[k] = v] *)
Definition upd {A : Type} (l : list A) (k : nat) (v : A) : list A :=
  firstn k l ++ v :: skipn (S k) l.

Lemma swap_upd {A : Type} (d : A) (x : list A) (i j : nat) :
  swap d x i j = upd (upd x i (nth j x d)) j (nth i x d).
Proof. reflexivity. Qed.

Lemma upd_nth_perm {A : Type} (d a : A) (l : list A) : forall k,
  k < length l -> Permutation (nth k l d :: upd l k a) (a :: l).
Proof.
  induction l as [|b l IH]; intros k Hk; [simpl in Hk; lia|].
  destruct k as [|k].
  - apply perm_swap.
  - change (upd (b :: l) (S k) a) with (b :: upd l k a).
    change (nth (S k) (b :: l) d) with (nth k l d).
    apply perm_trans with (b :: nth k l d :: upd l k a); [apply perm_swap|].
    apply perm_trans with (b :: a :: l); [|apply perm_swap].
    apply perm_skip. apply IH. simpl in Hk. lia.
Qed.

Lemma upd_same {A : Type} (d : A) (l : list A) : forall k,
  k < length l -> upd l k (nth k l d) = l.
Proof.
  induction l as [|b l IH]; intros k Hk; [simpl in Hk; lia|].
  destruct k as [|k]; [reflexivity|].
  change (upd (b :: l) (S k) (nth (S k) (b :: l) d))
    with (b :: upd l k (nth k l d)).
  rewrite IH; [reflexivity | simpl in Hk; lia].
Qed.

Lemma upd_length {A : Type} (l : list A) (k : nat) (v : A) :
  k < length l -> length (upd l k v) = length l.
Proof.
  intros Hk. unfold upd. rewrite length_app. cbn [length].
  rewrite length_firstn, length_skipn. lia.
Qed.

Lemma nth_upd_same {A : Type} (d v : A) (l : list A) : forall k,
  k < length l -> nth k (upd l k v) d = v.
Proof.
  induction l as [|b l IH]; intros k Hk; [simpl in Hk; lia|].
  destruct k as [|k]; [reflexivity|].
  change (upd (b :: l) (S k) v) with (b :: upd l k v).
  cbn [nth]. apply IH. simpl in Hk. lia.
Qed.

Lemma swap_perm {A : Type} (d : A) (x : list A) : forall i j,
  j <= i -> i < length x -> Permutation (swap d x i j) x.
Proof.
  intros i j Hji Hi. rewrite swap_upd.
  destruct (Nat.eq_dec j i) as [->|Hne].
  - rewrite (upd_same d x i Hi), (upd_same d x i Hi). apply Permutation_refl.
  - assert (Hj : j < i) by lia. clear Hji Hne. revert i j Hj Hi.
    induction x as [|a x IH]; intros i j Hj Hi; [simpl in Hi; lia|].
    destruct i as [|i]; [lia|]. destruct j as [|j].
    + change (nth 0 (a :: x) d) with a.
      change (nth (S i) (a :: x) d) with (nth i x d).
      change (upd (a :: x) (S i) a) with (a :: upd x i a).
      change (upd (a :: upd x i a) 0 (nth i x d)) with (nth i x d :: upd x i a).
      apply upd_nth_perm. simpl in Hi. lia.
    + change (nth (S j) (a :: x) d) with (nth j x d).
      change (nth (S i) (a :: x) d) with (nth i x d).
      change (upd (a :: x) (S i) (nth j x d)) with (a :: upd x i (nth j x d)).
      change (upd (a :: upd x i (nth j x d)) (S j) (nth i x d))
        with (a :: upd (upd x i (nth j x d)) j (nth i x d)).
      apply perm_skip. apply IH; [lia | simpl in Hi; lia].
Qed.

Lemma randbelow_lt n g : 0 < n -> fst (randbelow n g) < n.
Proof.
  intros Hn. destruct g as [|r g]; simpl; [exact Hn|].
  apply Nat.mod_upper_bound. lia.
Qed.

Lemma shuffle_from_perm {A : Type} (d : A) : forall i (x : list A) g,
  i < length x \/ i = 0 -> Permutation (fst (shuffle_from d i x g)) x.
Proof.
  induction i as [|i IH]; intros x g Hi; [apply Permutation_refl|].
  cbn [shuffle_from].
  pose proof (randbelow_lt (S (S i)) g ltac:(lia)) as Hj.
  destruct (randbelow (S (S i)) g) as [j g']. cbn [fst] in Hj.
  assert (Hlen : S i < length x) by (destruct Hi; [assumption | discriminate]).
  assert (Hp : Permutation (swap d x (S i) j) x) by (apply swap_perm; lia).
  eapply perm_trans; [|exact Hp].
  apply IH. left. rewrite (Permutation_length Hp). lia.
Qed.

Lemma shuffle_perm {A : Type} (d : A) (x : list A) (g : rng) :
  Permutation (fst (shuffle d x g)) x.
Proof.
  unfold shuffle. apply shuffle_from_perm.
  destruct x as [|a x]; [right; reflexivity | left; simpl; lia].
Qed.

(** X7. The shuffle returns the same pairs in some order, whatever the
    oracle delivers: none is lost and none appears twice, so the list
    keeps its length and its elements. *)
Theorem shuffle_is_a_permutation :
  forall (A : Type) (default : A) (x : list A) (g : rng),
    Permutation (fst (shuffle default x g)) x /\
    length (fst (shuffle default x g)) = length x /\
    (forall a, In a (fst (shuffle default x g)) <-> In a x).
Proof.
  intros A d x g. pose proof (shuffle_perm d x g) as Hperm.
  split; [exact Hperm|]. split; [exact (Permutation_length Hperm)|].
  intros a. split; apply Permutation_in;
    [exact Hperm | apply Permutation_sym; exact Hperm].
Qed.

(** *** [_optimize_qa_pairs] *)

Section Dedup.
Variable str_lower : pystr -> pystr.
Variable isword : N -> bool.

Definition key (qa_pair : QAPair) : pystr :=
  _normalize_question str_lower isword (question qa_pair).

(** The key of a question: its lower-case form without the characters
    that are not word characters. *)
Lemma normalize_question_filter (q : pystr) :
  _normalize_question str_lower isword q = filter isword (str_lower q).
Proof.
  unfold _normalize_question. rewrite re_sub_chr.
  induction (str_lower q) as [|c s IH]; [reflexivity|].
  cbn [flat_map filter]. rewrite IH. destruct (isword c); reflexivity.
Qed.

Definition better (a b : QAPair) : Prop :=
  (quality_score b <= quality_score a)%Q.

Lemma insert_by_quality_In x y l :
  In y (insert_by_quality x l) <-> y = x \/ In y l.
Proof.
  induction l as [|z l IH]; simpl; [intuition auto|].
  destruct (Qle_bool (quality_score z) (quality_score x)); simpl;
    [intuition auto|].
  rewrite IH. intuition auto.
Qed.

Lemma sort_by_quality_In y l : In y (sort_by_quality l) <-> In y l.
Proof.
  induction l as [|x l IH]; simpl; [tauto|].
  rewrite insert_by_quality_In, IH. intuition auto.
Qed.

Lemma insert_by_quality_sorted x l :
  StronglySorted better l -> StronglySorted better (insert_by_quality x l).
Proof.
  intros Hl. induction Hl as [|z l Hl IH Hz]; simpl; [repeat constructor|].
  destruct (Qle_bool (quality_score z) (quality_score x)) eqn:E.
  - apply Qle_bool_iff in E. constructor; [constructor; assumption|].
    constructor; [exact E|].
    eapply Forall_impl; [|exact Hz]. unfold better. intros w Hw.
    eapply Qle_trans; eassumption.
  - constructor; [exact IH|].
    apply Forall_forall. intros w Hw. apply insert_by_quality_In in Hw.
    destruct Hw as [->|Hw].
    + unfold better. destruct (Qlt_le_dec (quality_score z) (quality_score x))
        as [Hlt|Hle]; [|exact Hle].
      apply Qlt_le_weak in Hlt. apply Qle_bool_iff in Hlt. congruence.
    + rewrite Forall_forall in Hz. exact (Hz _ Hw).
Qed.

Lemma sort_by_quality_sorted l : StronglySorted better (sort_by_quality l).
Proof.
  induction l as [|x l IH]; simpl; [constructor|].
  apply insert_by_quality_sorted. exact IH.
Qed.

Lemma unique_questions_In l : forall seen y,
  In y (unique_questions str_lower isword seen l) ->
  In y l /\ ~ In (key y) seen.
Proof.
  induction l as [|x l IH]; intros seen y; [intros []|].
  cbn [unique_questions]. fold (key x).
  destruct (existsb (str_eqb (key x)) seen) eqn:E.
  - intros H. destruct (IH _ _ H) as [H1 H2]. split; [right; exact H1 | exact H2].
  - intros [<-|H].
    + split; [left; reflexivity|]. intros Hin.
      assert (Ht : existsb (str_eqb (key x)) seen = true).
      { apply existsb_exists. exists (key x). split; [exact Hin|].
        apply str_eqb_eq. reflexivity. }
      congruence.
    + destruct (IH _ _ H) as [H1 H2]. split; [right; exact H1|].
      intros Hin. apply H2. right. exact Hin.
Qed.

Lemma unique_questions_NoDup l : forall seen,
  NoDup (map key (unique_questions str_lower isword seen l)).
Proof.
  induction l as [|x l IH]; intros seen; [constructor|].
  cbn [unique_questions]. fold (key x).
  destruct (existsb (str_eqb (key x)) seen); [apply IH|].
  cbn [map]. constructor; [|apply IH].
  intros Hin. apply in_map_iff in Hin. destruct Hin as (y & Hk & Hy).
  apply unique_questions_In in Hy. destruct Hy as [_ Hy].
  apply Hy. left. symmetry. exact Hk.
Qed.

Lemma unique_questions_sorted l : forall seen,
  StronglySorted better l ->
  StronglySorted better (unique_questions str_lower isword seen l).
Proof.
  induction l as [|x l IH]; intros seen Hl; [constructor|].
  inversion Hl as [|? ? Hl' Hx]; subst. cbn [unique_questions]. fold (key x).
  destruct (existsb (str_eqb (key x)) seen); [apply IH; exact Hl'|].
  constructor; [apply IH; exact Hl'|].
  apply Forall_forall. intros y Hy. apply unique_questions_In in Hy.
  rewrite Forall_forall in Hx. apply Hx. apply Hy.
Qed.

(** Of the pairs that share a key, the first in the list is kept. *)
Lemma unique_questions_keeps_first l : forall seen x,
  StronglySorted better l -> In x l -> ~ In (key x) seen ->
  exists y, In y (unique_questions str_lower isword seen l) /\
            key y = key x /\ better y x.
Proof.
  induction l as [|z l IH]; intros seen x Hl; [intros []|].
  inversion Hl as [|? ? Hl' Hz]; subst. cbn [unique_questions]. fold (key z).
  intros Hin Hseen.
  destruct (existsb (str_eqb (key z)) seen) eqn:E.
  - destruct Hin as [->|Hin].
    + apply existsb_exists in E. destruct E as (k & Hk & Hkz).
      apply str_eqb_eq in Hkz. rewrite Hkz in Hseen. contradiction.
    + exact (IH seen x Hl' Hin Hseen).
  - destruct (list_eq_dec N.eq_dec (key z) (key x)) as [Heq|Hne].
    + exists z. split; [left; reflexivity|]. split; [exact Heq|].
      destruct Hin as [->|Hin]; [apply Qle_refl|].
      rewrite Forall_forall in Hz. exact (Hz _ Hin).
    + destruct Hin as [->|Hin]; [contradiction Hne; reflexivity|].
      destruct (IH (key z :: seen) x Hl' Hin) as (y & Hy & Hk & Hb).
      { intros [H|H]; [exact (Hne H) | exact (Hseen H)]. }
      exists y. split; [right; exact Hy | split; assumption].
Qed.

Lemma optimize_In (l : list QAPair) (y : QAPair) :
  In y (_optimize_qa_pairs str_lower isword l) -> In y l.
Proof.
  unfold _optimize_qa_pairs. intros Hy. apply unique_questions_In in Hy.
  apply sort_by_quality_In. apply Hy.
Qed.

(** X8. The pairs returned by [_optimize_qa_pairs] are pairs of the input, in
    order of falling quality, with pairwise different keys; and for every
    pair of the input a pair with the same key and at least its quality is
    returned. The key of a question is its lower-case form with only the
    word characters kept. *)
Theorem optimize_keeps_best_of_each_question :
  forall qa_pairs : list QAPair,
    (forall y, In y (_optimize_qa_pairs str_lower isword qa_pairs) ->
               In y qa_pairs) /\
    StronglySorted better (_optimize_qa_pairs str_lower isword qa_pairs) /\
    NoDup (map (fun y => filter isword (str_lower (question y)))
               (_optimize_qa_pairs str_lower isword qa_pairs)) /\
    (forall x, In x qa_pairs ->
       exists y, In y (_optimize_qa_pairs str_lower isword qa_pairs) /\
                 filter isword (str_lower (question y))
                 = filter isword (str_lower (question x)) /\
                 better y x).
Proof.
  intros l. unfold _optimize_qa_pairs. split; [|split; [|split]].
  - intros y Hy. apply unique_questions_In in Hy.
    apply sort_by_quality_In. apply Hy.
  - apply unique_questions_sorted, sort_by_quality_sorted.
  - rewrite (map_ext _ key) by (intros y; symmetry; apply normalize_question_filter).
    apply unique_questions_NoDup.
  - intros x Hx.
    destruct (unique_questions_keeps_first (sort_by_quality l) [] x)
      as (y & Hy & Hk & Hb);
      [apply sort_by_quality_sorted | apply sort_by_quality_In; exact Hx
       | intros [] |].
    exists y. rewrite <- !normalize_question_filter.
    split; [exact Hy | split; assumption].
Qed.

End Dedup.

End GeneratorFacts.

(* ================================================================== *)
(** ** qa_generator.py: the pairs of a data set *)

Module DatasetFacts.
Import PyStr Regex PyFloat Generator PyStrFacts RegexFacts GeneratorFacts.
Local Open Scope nat_scope.

(** *** [_calculate_qa_quality] *)

Lemma credit_range (fl : Q -> Q) (b : bool) (lo hi credit : Z) (score : Q) :
  rounding_ok fl -> (0 <= lo)%Z -> (0 <= credit)%Z -> (hi + credit <= 100)%Z ->
  (inject_Z lo <= score <= inject_Z hi)%Q ->
  (inject_Z lo <= (if b then fadd fl score (inject_Z credit) else score)
   <= inject_Z (hi + credit))%Q.
Proof.
  intros Hfl Hlo Hc Hhi [H1 H2].
  assert (Hc' : (0 <= inject_Z credit)%Q) by (unfold Qle; simpl; lia).
  assert (Hsum : inject_Z (hi + credit) = (inject_Z hi + inject_Z credit)%Q)
    by apply inject_Z_plus.
  destruct b.
  - unfold fadd. apply (fl_range fl lo (hi + credit) _ Hfl).
    + assert (inject_Z lo <= inject_Z hi)%Q by (eapply Qle_trans; eassumption).
      rewrite <- Zle_Qle in H. lia.
    + assert (inject_Z lo <= inject_Z hi)%Q by (eapply Qle_trans; eassumption).
      rewrite <- Zle_Qle in H. lia.
    + rewrite Hsum. clear Hsum.
      generalize dependent (inject_Z lo). generalize dependent (inject_Z hi).
      generalize dependent (inject_Z credit). intros. lra.
  - split; [exact H1|]. rewrite Hsum. clear Hsum.
    generalize dependent (inject_Z lo). generalize dependent (inject_Z hi).
    generalize dependent (inject_Z credit). intros. lra.
Qed.

Lemma qa_quality_range (fl : Q -> Q) (question answer : pystr) :
  rounding_ok fl ->
  (0 <= _calculate_qa_quality fl question answer <= 1)%Q.
Proof.
  intros Hfl. unfold _calculate_qa_quality.
  assert (H0 : (inject_Z 0 <= 0 <= inject_Z 0)%Q) by (split; apply Qle_refl).
  assert (H1 := credit_range fl (5 <=? length question) 0 0 20 _ Hfl
                  (Z.le_refl 0) ltac:(lia) ltac:(lia) H0).
  set (s1 := if 5 <=? length question then _ else _) in *. clearbody s1.
  assert (H2 := credit_range fl (contains (U "？") question
                                 || contains (U "?") question) 0 20 10 _ Hfl
                  (Z.le_refl 0) ltac:(lia) ltac:(lia) H1).
  set (s2 := if contains (U "？") question || _ then _ else _) in *.
  clearbody s2.
  assert (H3 := credit_range fl (any_in [U "什么"; U "如何"; U "哪些"; U "怎样"]
                                        question) 0 30 20 _ Hfl
                  (Z.le_refl 0) ltac:(lia) ltac:(lia) H2).
  set (s3 := if any_in _ question then _ else _) in *. clearbody s3.
  assert (H4 := credit_range fl (20 <=? length answer) 0 50 20 _ Hfl
                  (Z.le_refl 0) ltac:(lia) ltac:(lia) H3).
  set (s4 := if 20 <=? length answer then _ else _) in *. clearbody s4.
  assert (H5 := credit_range fl (5 <=? length (words answer)) 0 70 15 _ Hfl
                  (Z.le_refl 0) ltac:(lia) ltac:(lia) H4).
  set (s5 := if 5 <=? length (words answer) then _ else _) in *. clearbody s5.
  assert (H6 := credit_range fl (any_in [U "包括"; U "表现为"; U "主要"; U "需要"]
                                        answer) 0 85 15 _ Hfl
                  (Z.le_refl 0) ltac:(lia) ltac:(lia) H5).
  set (s6 := if any_in _ answer then _ else _) in *. clearbody s6.
  change (inject_Z 0) with 0%Q in H6. change (inject_Z (85 + 15)) with 100%Q in H6.
  assert (H7 : (0 <= fdiv fl s6 100 <= 1)%Q).
  { unfold fdiv. apply (fl_range fl 0 1 _ Hfl); [lia | lia |].
    split; [apply Qle_shift_div_l | apply Qle_shift_div_r];
      unfold inject_Z in *; lra. }
  apply py_min_range; [tauto | lra].
Qed.

(** *** One question type *)

(** What the loop of [_generate_qa_by_type] puts into a pair, given the
    type, the key information and the source text. *)
Definition generated (fl : Q -> Q) (t : QuestionType) (key_info : KeyInfo)
    (content : pystr) (qa_pair : QAPair) : Prop :=
  question_type qa_pair = t /\
  In (entity qa_pair) (entity_pool t key_info) /\
  entity qa_pair <> [] /\
  answer qa_pair = _generate_answer t (entity qa_pair) content /\
  difficulty qa_pair = _assess_difficulty (question qa_pair) (answer qa_pair) /\
  keywords qa_pair = _extract_keywords (question qa_pair) (answer qa_pair) /\
  quality_score qa_pair
  = _calculate_qa_quality fl (question qa_pair) (answer qa_pair).

Definition numbered (k : nat) : pystr := U "qa_" ++ str_of_nat k.

Lemma choice_In {A : Type} (d : A) (l : list A) (g : rng) :
  l <> [] -> In (fst (choice d l g)) l.
Proof.
  intros Hl. unfold choice.
  pose proof (randbelow_lt (length l) g) as Hlt.
  destruct (randbelow (length l) g) as [i g']. cbn [fst] in *.
  apply nth_In. apply Hlt. destruct l; [contradiction|simpl; lia].
Qed.

Lemma generate_one_spec fl t key_info content made g qa_pair g' :
  generate_one fl t key_info content made g = (Some qa_pair, g') ->
  qa_id qa_pair = numbered (made + 1) /\
  generated fl t key_info content qa_pair.
Proof.
  unfold generate_one, _select_entity_for_type.
  destruct (entity_pool t key_info) as [|e0 pool] eqn:Epool;
    [discriminate|].
  pose proof (choice_In [] (e0 :: pool) g ltac:(discriminate)) as Hin.
  destruct (choice [] (e0 :: pool) g) as [e g1]. cbn [fst] in Hin.
  destruct e as [|c e]; [discriminate|]. cbn [nonempty negb].
  destruct (choice [] (question_templates t) g1) as [template g2].
  destruct (_generate_question template (c :: e) key_info g2) as [[err|q] g3];
    [discriminate|].
  intros H. injection H as <- _. unfold generated, numbered. cbn.
  repeat split; try reflexivity; [rewrite Epool; exact Hin | discriminate].
Qed.

Lemma qa_loop_spec fl t key_info content : forall count acc g,
  exists new,
    fst (qa_loop fl t key_info content count acc g) = acc ++ new /\
    length new <= count /\
    map qa_id new = map numbered (seq (S (length acc)) (length new)) /\
    Forall (generated fl t key_info content) new.
Proof.
  induction count as [|count IH]; intros acc g.
  - exists []. cbn. rewrite app_nil_r. repeat split; [lia | constructor].
  - cbn [qa_loop].
    destruct (generate_one fl t key_info content (length acc) g)
      as [[p|] g1] eqn:E.
    + destruct (generate_one_spec _ _ _ _ _ _ _ _ E) as [Hid Hp].
      destruct (IH (acc ++ [p]) g1) as (new & Hnew & Hlen & Hids & Hall).
      exists (p :: new). rewrite Hnew, <- app_assoc. cbn [app length map seq].
      split; [reflexivity|]. split; [lia|]. split; [|constructor; assumption].
      rewrite Hid, Hids, length_app. cbn [length].
      rewrite Nat.add_1_r. reflexivity.
    + destruct (IH acc g1) as (new & Hnew & Hlen & Hids & Hall).
      exists new. repeat split; try assumption. lia.
Qed.

(** X9. The pairs that [_generate_qa_by_type] makes for a type: no more than
    asked for; numbered qa_1, qa_2, ... in order, the numbering starting
    again for every type; each of the type asked for, about a non-empty
    entity of the pool of that type. *)
Theorem pairs_of_a_type_are_numbered_from_one :
  forall (fl : Q -> Q) (t : QuestionType) (key_info : KeyInfo)
         (content : pystr) (count : Z) (g : rng),
    let pairs := fst (_generate_qa_by_type fl t key_info content count g) in
    length pairs <= Z.to_nat count /\
    map qa_id pairs
    = map (fun k => U "qa_" ++ str_of_nat k) (seq 1 (length pairs)) /\
    forall qa_pair, In qa_pair pairs ->
      question_type qa_pair = t /\
      In (entity qa_pair) (entity_pool t key_info) /\
      entity qa_pair <> [].
Proof.
  intros fl t key_info content count g pairs. subst pairs.
  unfold _generate_qa_by_type.
  destruct (question_templates t) eqn:Et;
    [split; [simpl; lia | split; [reflexivity | intros ? []]]|].
  destruct (qa_loop_spec fl t key_info content (Z.to_nat count) [] g)
    as (new & -> & Hlen & Hids & Hall).
  cbn [app length] in *. split; [exact Hlen|]. split; [exact Hids|].
  intros made Hmade. rewrite Forall_forall in Hall.
  destruct (Hall made Hmade) as (H1 & H2 & H3 & _). auto.
Qed.

(** *** The whole data set *)

Lemma by_type_spec fl t key_info content count g :
  length (fst (_generate_qa_by_type fl t key_info content count g))
  <= Z.to_nat count /\
  Forall (generated fl t key_info content)
         (fst (_generate_qa_by_type fl t key_info content count g)).
Proof.
  unfold _generate_qa_by_type.
  destruct (question_templates t);
    [split; [simpl; lia | constructor]|].
  destruct (qa_loop_spec fl t key_info content (Z.to_nat count) [] g)
    as (new & -> & Hlen & _ & Hall).
  split; assumption.
Qed.

Definition asked (plan : list (QuestionType * Z)) : nat :=
  list_sum (map (fun tc => Z.to_nat (snd tc)) plan).

Lemma generate_all_spec fl key_info content : forall plan g,
  length (fst (generate_all fl key_info content plan g)) <= asked plan /\
  Forall (fun p => generated fl (question_type p) key_info content p)
         (fst (generate_all fl key_info content plan g)).
Proof.
  induction plan as [|[t count] plan IH]; intros g.
  - split; [simpl; lia | constructor].
  - cbn [generate_all].
    pose proof (by_type_spec fl t key_info content count g) as [Hl Hall].
    destruct (_generate_qa_by_type fl t key_info content count g)
      as [pairs g1]. cbn [fst] in *.
    specialize (IH g1).
    destruct (generate_all fl key_info content plan g1) as [more g2].
    cbn [fst] in *. destruct IH as [Hl' Hall']. split.
    + rewrite length_app.
      change (asked ((t, count) :: plan)) with (Z.to_nat count + asked plan).
      lia.
    + apply Forall_app. split; [|exact Hall'].
      eapply Forall_impl; [|exact Hall]. intros p Hp.
      destruct Hp as (Ht & Hrest). unfold generated. rewrite Ht.
      split; [reflexivity | exact Hrest].
Qed.

Lemma asked_distribute (n : Z) :
  asked (combine question_types
           (_distribute_question_types n (length question_types)))
  <= Z.to_nat n.
Proof.
  unfold _distribute_question_types, question_types, asked.
  cbn [length seq map combine snd list_sum fold_right Z.of_nat Pos.of_succ_nat
       Pos.succ].
  pose proof (Z.div_mod n 6 ltac:(lia)) as Hdm.
  pose proof (Z.mod_pos_bound n 6 ltac:(lia)) as Hm.
  set (b := (n / 6)%Z) in *. set (r := (n mod 6)%Z) in *. clearbody b r.
  destruct (Z.ltb_spec 0 r), (Z.ltb_spec 1 r), (Z.ltb_spec 2 r),
    (Z.ltb_spec 3 r), (Z.ltb_spec 4 r), (Z.ltb_spec 5 r); lia.
Qed.

Lemma slice_to_length {A : Type} (l : list A) (n : Z) :
  length l <= Z.to_nat n \/ (0 <= n)%Z ->
  length (slice_to l n) <= Z.to_nat n.
Proof.
  unfold slice_to. destruct (Z.ltb_spec n 0); rewrite length_firstn; lia.
Qed.

Lemma firstn_subset {A : Type} (x : A) : forall k (l : list A),
  In x (firstn k l) -> In x l.
Proof.
  induction k as [|k IH]; intros [|a l]; cbn [firstn];
    try (intros Hx; destruct Hx; fail).
  intros [Hx|Hx]; [left; exact Hx | right; exact (IH _ Hx)].
Qed.

Lemma slice_to_In {A : Type} (l : list A) (n : Z) (x : A) :
  In x (slice_to l n) -> In x l.
Proof. unfold slice_to. destruct (n <? 0)%Z; apply firstn_subset. Qed.

Lemma dataset_spec (fl : Q -> Q) (str_lower : pystr -> pystr)
    (isword : N -> bool) (ac : AnnotatedContent) (n : Z) (g : rng) :
  ac_success ac = true ->
  exists dataset,
    fst (generate_qa_dataset fl str_lower isword ac n g) = Generated dataset /\
    total_qa_pairs dataset = length (qa_pairs dataset) /\
    length (qa_pairs dataset) <= Z.to_nat n /\
    source_content_length dataset = length (ac_content_summary ac) /\
    forall qa_pair, In qa_pair (qa_pairs dataset) ->
      generated fl (question_type qa_pair)
        (_extract_key_information (ac_annotations ac))
        (ac_content_summary ac) qa_pair.
Proof.
  unfold generate_qa_dataset. intros ->. cbn [negb].
  set (ki := _extract_key_information (ac_annotations ac)).
  set (plan := combine question_types _).
  pose proof (generate_all_spec fl ki (ac_content_summary ac) plan g)
    as [Hlen Hall].
  pose proof (asked_distribute n) as Hasked. fold plan in Hasked.
  destruct (generate_all fl ki (ac_content_summary ac) plan g)
    as [pairs g1]. cbn [fst] in *.
  pose proof (shuffle_perm blank_pair pairs g1) as Hperm.
  destruct (shuffle blank_pair pairs g1) as [shuffled g2]. cbn [fst] in *.
  eexists. cbn [fst]. split; [reflexivity|].
  cbn [total_qa_pairs qa_pairs source_content_length].
  split; [reflexivity|]. split; [|split; [reflexivity|]].
  - etransitivity; [apply optimize_length|]. apply slice_to_length.
    left. rewrite (Permutation_length Hperm). lia.
  - intros made Hmade.
    apply optimize_In, slice_to_In in Hmade.
    apply (Permutation_in _ Hperm) in Hmade.
    rewrite Forall_forall in Hall. exact (Hall made Hmade).
Qed.

(** X10. [generate_qa_dataset] on annotated content: without the success flag
    it fails and draws no random number; with it, it succeeds, reports as
    [total_qa_pairs] the number of pairs it returns, returns no more pairs
    than asked for (none for a negative number), and every pair it returns
    was made by the loop of its own question type from the key information
    of the annotations and the content summary. *)
Theorem dataset_pairs_are_bounded_and_generated :
  forall (fl : Q -> Q) (str_lower : pystr -> pystr) (isword : N -> bool)
         (annotated_content : AnnotatedContent) (qa_count : Z) (g : rng),
    (ac_success annotated_content = false ->
     generate_qa_dataset fl str_lower isword annotated_content qa_count g
     = (GenFailed (U "输入的标注内容无效"), g)) /\
    (ac_success annotated_content = true ->
     exists dataset,
       fst (generate_qa_dataset fl str_lower isword annotated_content
                                qa_count g) = Generated dataset /\
       total_qa_pairs dataset = length (qa_pairs dataset) /\
       length (qa_pairs dataset) <= Z.to_nat qa_count /\
       source_content_length dataset
       = length (ac_content_summary annotated_content) /\
       forall qa_pair, In qa_pair (qa_pairs dataset) ->
         generated fl (question_type qa_pair)
           (_extract_key_information (ac_annotations annotated_content))
           (ac_content_summary annotated_content) qa_pair).
Proof.
  intros fl str_lower isword ac n g. split.
  - unfold generate_qa_dataset. intros ->. reflexivity.
  - apply dataset_spec.
Qed.

(** X11. Every pair that [generate_qa_dataset] returns carries a quality score
    between 0 and 1, whatever the rounding of the float operations, as long
    as it is monotone and exact on the integers up to 100. *)
Theorem returned_pairs_are_scored_in_unit_interval :
  forall (fl : Q -> Q) (str_lower : pystr -> pystr) (isword : N -> bool)
         (annotated_content : AnnotatedContent) (qa_count : Z) (g : rng)
         (qa_pair : QAPair),
    rounding_ok fl ->
    In qa_pair (result_pairs (fst (generate_qa_dataset fl str_lower isword
                                     annotated_content qa_count g))) ->
    (0 <= quality_score qa_pair <= 1)%Q.
Proof.
  intros fl str_lower isword ac n g made Hfl Hin.
  destruct (ac_success ac) eqn:Eok.
  - destruct (dataset_spec fl str_lower isword ac n g Eok)
      as (dataset & Hd & _ & _ & _ & Hall).
    rewrite Hd in Hin. cbn [result_pairs] in Hin.
    destruct (Hall made Hin) as (_ & _ & _ & _ & _ & _ & Hq).
    rewrite Hq. apply qa_quality_range. exact Hfl.
  - unfold generate_qa_dataset in Hin. rewrite Eok in Hin. destruct Hin.
Qed.

(** The first pair made for one disease, with exact arithmetic, a
    [str.lower] that changes nothing and every character a word
    character. *)
Definition first_pair : QAPair :=
  hd blank_pair
     (result_pairs (fst (generate_qa_dataset exact (fun q => q) (fun _ => true)
                           one_disease 6 []))).

Lemma first_pair_score_witness :
  (0 <= quality_score first_pair <= 1)%Q.
Proof.
  apply (returned_pairs_are_scored_in_unit_interval
           exact (fun q => q) (fun _ => true) one_disease 6 [] first_pair).
  - exact exact_ok.
  - vm_compute. left. reflexivity.
Defined.

(** *** [_extract_keywords] *)

Definition keyword_alternatives : list (list pystr) :=
  [ [U "病"; U "症"; U "癌"; U "瘤"; U "炎"];
    [U "诊断"; U "治疗"; U "检查"; U "手术"];
    [U "细胞"; U "组织"; U "器官"; U "系统"] ].

Lemma keyword_patterns_alternatives :
  keyword_patterns
  = map (fun alternatives =>
           Seq [Star term_char; Alts (map Lit alternatives); Star term_char])
        keyword_alternatives.
Proof. reflexivity. Qed.

Lemma alternatives_are_term_chars :
  forallb (forallb (forallb term_char)) keyword_alternatives = true.
Proof. vm_compute. reflexivity. Qed.

Lemma NoDup_firstn {A : Type} (k : nat) (l : list A) :
  NoDup l -> NoDup (firstn k l).
Proof.
  revert l. induction k as [|k IH]; intros [|a l] Hl; cbn [firstn];
    try constructor.
  - inversion Hl; subst. intros Hin. apply firstn_subset in Hin. contradiction.
  - inversion Hl; subst. apply IH. assumption.
Qed.

(** X12. The keywords of a pair: at most ten, no two equal; each is a slice of
    "question answer" of at least two characters, free of whitespace and of
    the separators ， 。 ； ：, and holds one of the thirteen medical words
    of the three patterns. *)
Theorem keywords_are_few_distinct_and_medical :
  forall (question answer keyword : pystr),
    length (_extract_keywords question answer) <= 10 /\
    NoDup (_extract_keywords question answer) /\
    (In keyword (_extract_keywords question answer) ->
     2 <= length keyword /\
     forallb term_char keyword = true /\
     (exists st en, st <= en /\ en <= length (question ++ U " " ++ answer) /\
                    substring (question ++ U " " ++ answer) st en = keyword) /\
     exists alternatives medical_word,
       In alternatives keyword_alternatives /\
       In medical_word alternatives /\
       contains medical_word keyword = true).
Proof.
  intros question answer keyword. unfold _extract_keywords.
  split; [rewrite length_firstn; lia|].
  split; [apply NoDup_firstn, distinct_NoDup|].
  intros Hin. apply firstn_subset in Hin.
  apply (proj1 (distinct_In _ _)) in Hin.
  rewrite keyword_patterns_alternatives in Hin.
  apply in_flat_map in Hin. destruct Hin as (pattern & Hpat & Hin).
  apply in_map_iff in Hpat. destruct Hpat as (ws & <- & Hws).
  apply filter_In in Hin. destruct Hin as [Hfound Hlen].
  apply Nat.leb_le in Hlen.
  destruct (findall_sound _ _ _ Hfound) as (Hacc & _ & Hslice).
  destruct (accepts_keyword_in_run _ _ _ Hacc)
    as (a & k & b & -> & Hk & Ha & Hb).
  split; [exact Hlen|]. split; [|split; [exact Hslice|]].
  - pose proof alternatives_are_term_chars as Hall.
    rewrite forallb_forall in Hall. specialize (Hall _ Hws).
    rewrite forallb_forall in Hall. specialize (Hall _ Hk).
    rewrite !forallb_app, Ha, Hb, Hall. reflexivity.
  - exists ws, k. split; [exact Hws|]. split; [exact Hk | apply contains_middle].
Qed.

(** *** [_extract_key_information] *)

Lemma dedup_spec (l : list pystr) :
  NoDup (dedup l) /\ ~ In [] (dedup l) /\
  forall x, In x (dedup l) <-> In x l /\ x <> [].
Proof.
  unfold dedup. split; [apply distinct_NoDup|].
  assert (H : forall x, In x (distinct (filter nonempty l))
                        <-> In x l /\ x <> []).
  { intros x. rewrite distinct_In, filter_In.
    destruct x; cbn [nonempty]; intuition congruence. }
  split; [|exact H]. intros Hin. apply H in Hin. tauto.
Qed.

Definition tidy (l : list pystr) : Prop := NoDup l /\ ~ In [] l.

(** X13. The key information read from the annotations: none of the six lists
    holds a term twice or holds the empty string; and every term of a
    diagnosis annotation, unless it is empty, lands in the symptoms, the
    treatments or the diagnosis terms, according to the first of
    临床表现 and 治疗 that its category holds. *)
Theorem key_information_is_tidy :
  forall (annotations : Annotations),
    let key_info := _extract_key_information annotations in
    tidy (diseases key_info) /\ tidy (symptoms key_info) /\
    tidy (treatments key_info) /\ tidy (anatomy key_info) /\
    tidy (pathology_terms key_info) /\ tidy (diagnosis_terms key_info) /\
    forall ann, In ann (ann_diagnosis annotations) ->
      get_str (ann_term ann) <> [] ->
      let category := get_str (ann_category ann) in
      let term := get_str (ann_term ann) in
      if contains (U "临床表现") category then In term (symptoms key_info)
      else if contains (U "治疗") category then In term (treatments key_info)
      else In term (diagnosis_terms key_info).
Proof.
  intros annotations key_info. subst key_info.
  unfold _extract_key_information, tidy.
  cbn [diseases symptoms treatments anatomy pathology_terms diagnosis_terms].
  repeat (split; [split; apply dedup_spec|]).
  intros ann Hann Hterm. cbv zeta.
  destruct (contains (U "临床表现") (get_str (ann_category ann))) eqn:E1;
    [|destruct (contains (U "治疗") (get_str (ann_category ann))) eqn:E2];
    apply dedup_spec; (split; [|exact Hterm]);
    apply (in_map (fun a => get_str (ann_term a))), filter_In;
    (split; [exact Hann|]);
    rewrite ?E1, ?E2; reflexivity.
Qed.

End DatasetFacts.

(* ================================================================== *)
(** ** knowledge_annotator.py: from the text to the merged annotations *)

Module Annotation.
Import PyStr Regex PyFloat RegexFacts Annotator.
Local Open Scope nat_scope.

Definition AnnotationType_eqb (a b : AnnotationType) : bool :=
  match a, b with
  | MEDICAL_TERM, MEDICAL_TERM | DISEASE, DISEASE | SYMPTOM, SYMPTOM
  | TREATMENT, TREATMENT | ANATOMY, ANATOMY | PATHOLOGY, PATHOLOGY
  | DIAGNOSTIC_METHOD, DIAGNOSTIC_METHOD | MEDICATION, MEDICATION => true
  | _, _ => false
  end.

(** [t in annotation_types] *)
Definition has (t : AnnotationType) (annotation_types : list AnnotationType)
    : bool :=
  existsb (AnnotationType_eqb t) annotation_types.

(** [list(AnnotationType)] *)
Definition all_types : list AnnotationType :=
  [MEDICAL_TERM; DISEASE; SYMPTOM; TREATMENT; ANATOMY; PATHOLOGY;
   DIAGNOSTIC_METHOD; MEDICATION].

(** [AnnotationType.value] *)
Definition value (t : AnnotationType) : pystr :=
  match t with
  | MEDICAL_TERM => U "medical_term"
  | DISEASE => U "disease"
  | SYMPTOM => U "symptom"
  | TREATMENT => U "treatment"
  | ANATOMY => U "anatomy"
  | PATHOLOGY => U "pathology"
  | DIAGNOSTIC_METHOD => U "diagnostic_method"
  | MEDICATION => U "medication"
  end.

(** [_load_medical_dictionaries]: a dictionary of sets. The terms of a set
    are listed as the source writes them; the runtime may deliver them in
    another order. *)
Definition _load_medical_dictionaries : list (pystr * list pystr) :=
  [ (U "diseases",
     [U "恶性肿瘤"; U "良性肿瘤"; U "腺癌"; U "鳞癌"; U "肉瘤"; U "淋巴瘤";
      U "白血病"; U "炎症"; U "感染"; U "坏死"; U "增生"; U "化生";
      U "不典型增生"; U "原位癌"; U "浸润性癌"; U "转移性肿瘤"; U "间质瘤";
      U "神经内分泌肿瘤"]);
    (U "anatomy",
     [U "上皮"; U "间质"; U "血管"; U "神经"; U "淋巴管"; U "腺体"; U "导管";
      U "基底膜"; U "细胞核"; U "细胞质"; U "胞膜"; U "线粒体"; U "内质网"]);
    (U "pathology",
     [U "异型性"; U "多形性"; U "核分裂象"; U "核质比"; U "细胞排列";
      U "组织结构"; U "纤维化"; U "钙化"; U "出血"; U "水肿"; U "坏死";
      U "凋亡"; U "增殖"]);
    (U "diagnostic_methods",
     [U "HE染色"; U "免疫组化"; U "特殊染色"; U "分子检测"; U "基因检测";
      U "原位杂交"; U "电镜检查"; U "冰冻切片"; U "石蜡切片"]);
    (U "treatments",
     [U "手术切除"; U "化疗"; U "放疗"; U "靶向治疗"; U "免疫治疗";
      U "内分泌治疗"; U "支持治疗"; U "姑息治疗"]) ].

(** [[A-Za-z]] *)
Definition letter (c : N) : bool :=
  (((65 <=? c) && (c <=? 90)) || ((97 <=? c) && (c <=? 122)))%N.

(** A character class written with bars, as in [[肿瘤|肿块]]: the bar is
    one of its characters. *)
Definition among (cs : string) : N -> bool := OneOf (U cs) no_class.

(** [_load_annotation_rules]: each pattern with its text. *)
Definition _load_annotation_rules : list (pystr * list (pystr * re)) :=
  [ (U "disease_patterns",
     [ (U "[A-Za-z]*癌", Cat (Star letter) (Lit (U "癌")));
       (U "[A-Za-z]*瘤", Cat (Star letter) (Lit (U "瘤")));
       (U "[A-Za-z]*病", Cat (Star letter) (Lit (U "病")));
       (U "[A-Za-z]*症", Cat (Star letter) (Lit (U "症")));
       (U "恶性[肿瘤|肿块]*", Cat (Lit (U "恶性")) (Star (among "肿瘤|肿块")));
       (U "良性[肿瘤|肿块]*", Cat (Lit (U "良性")) (Star (among "肿瘤|肿块"))) ]);
    (U "pathology_patterns",
     [ (U "细胞[异型性|多形性|排列]*",
        Cat (Lit (U "细胞")) (Star (among "异型性|多形性|排列")));
       (U "核[分裂象|质比|形态]*",
        Cat (Lit (U "核")) (Star (among "分裂象|质比|形态")));
       (U "组织[结构|形态|排列]*",
        Cat (Lit (U "组织")) (Star (among "结构|形态|排列")));
       (U "[纤维化|钙化|坏死|出血|水肿]",
        Chr (among "纤维化|钙化|坏死|出血|水肿")) ]);
    (U "anatomy_patterns",
     [ (U "[上皮|间质|血管|神经|淋巴]*[细胞|组织|结构]*",
        Cat (Star (among "上皮|间质|血管|神经|淋巴"))
            (Star (among "细胞|组织|结构")));
       (U "[腺体|导管|基底膜]*[结构|形态]*",
        Cat (Star (among "腺体|导管|基底膜")) (Star (among "结构|形态"))) ]) ].

Section Annotate.
(** [self.medical_dictionaries] and [self.annotation_rules] *)
Variable medical_dictionaries : list (pystr * list pystr).
Variable annotation_rules : list (pystr * list (pystr * re)).

(** The chain of tests of lines 177-188. *)
Definition dictionary_type (dict_name : pystr)
    (annotation_types : list AnnotationType) : option AnnotationType :=
  if str_eqb dict_name (U "diseases") && has DISEASE annotation_types
  then Some DISEASE
  else if str_eqb dict_name (U "anatomy") && has ANATOMY annotation_types
  then Some ANATOMY
  else if str_eqb dict_name (U "pathology") && has PATHOLOGY annotation_types
  then Some PATHOLOGY
  else if str_eqb dict_name (U "diagnostic_methods")
          && has DIAGNOSTIC_METHOD annotation_types
  then Some DIAGNOSTIC_METHOD
  else if str_eqb dict_name (U "treatments") && has TREATMENT annotation_types
  then Some TREATMENT
  else None.

(** [re.escape(term)] matches [term] and nothing else. *)
Definition _annotate_by_dictionary (text : pystr)
    (annotation_types : list AnnotationType) : list MedicalAnnotation :=
  flat_map
    (fun dict : pystr * list pystr =>
       let '(dict_name, terms) := dict in
       match dictionary_type dict_name annotation_types with
       | None => []
       | Some ann_type =>
           flat_map
             (fun term =>
                map (fun found : nat * nat * pystr =>
                       let '(start, stop, _) := found in
                       mkAnn term (Z.of_nat start) (Z.of_nat stop) ann_type
                             (9 # 10)
                             [(U "source", U "dictionary");
                              (U "dictionary", dict_name)])
                    (re_finditer (Lit term) text))
             terms
       end)
    medical_dictionaries.

(** The chain of tests of lines 215-222. *)
Definition rule_type (rule_name : pystr)
    (annotation_types : list AnnotationType) : option AnnotationType :=
  if str_eqb rule_name (U "disease_patterns") && has DISEASE annotation_types
  then Some DISEASE
  else if str_eqb rule_name (U "pathology_patterns")
          && has PATHOLOGY annotation_types
  then Some PATHOLOGY
  else if str_eqb rule_name (U "anatomy_patterns")
          && has ANATOMY annotation_types
  then Some ANATOMY
  else None.

Definition _annotate_by_rules (text : pystr)
    (annotation_types : list AnnotationType) : list MedicalAnnotation :=
  flat_map
    (fun rule : pystr * list (pystr * re) =>
       let '(rule_name, patterns) := rule in
       match rule_type rule_name annotation_types with
       | None => []
       | Some ann_type =>
           flat_map
             (fun pattern : pystr * re =>
                map (fun found : nat * nat * pystr =>
                       let '(start, stop, group) := found in
                       mkAnn group (Z.of_nat start) (Z.of_nat stop) ann_type
                             (7 # 10)
                             [(U "source", U "rule");
                              (U "pattern", fst pattern)])
                    (re_finditer (snd pattern) text))
             patterns
       end)
    annotation_rules.

(** The [merged_annotations] of [annotate_medical_text]: steps 1, 2 and 4.
    The semantic relations of step 3 are computed from the text alone and
    do not enter them. *)
Definition merged_annotations (text : pystr)
    (annotation_types : option (list AnnotationType))
    : list MedicalAnnotation :=
  let annotation_types :=
    match annotation_types with
    | None => all_types
    | Some given => given
    end in
  _merge_overlapping_annotations
    (_annotate_by_dictionary text annotation_types
     ++ _annotate_by_rules text annotation_types).

End Annotate.

(** *** Statistics *)

(** [type_counts[key] = type_counts.get(key, 0) + 1] on a dictionary kept
    in insertion order. *)
Fixpoint count_up (key : pystr) (type_counts : list (pystr * nat))
    : list (pystr * nat) :=
  match type_counts with
  | [] => [(key, 1)]
  | (k, n) :: rest =>
      if str_eqb k key then (k, n + 1) :: rest
      else (k, n) :: count_up key rest
  end.

(** [min] and [max] of a non-empty list of floats: the first of the
    smallest, the first of the largest. *)
Definition py_min_of (first : Q) (others : list Q) : Q :=
  fold_left (fun best x => if Qlt_le_dec x best then x else best) others first.

Definition py_max_of (first : Q) (others : list Q) : Q :=
  fold_left (fun best x => if Qlt_le_dec best x then x else best) others first.

Record Statistics : Type := mkStatistics {
  total_annotations : nat;
  type_distribution : list (pystr * nat);
  average_confidence : Q;
  min_confidence : Q;
  max_confidence : Q
}.

Definition _generate_annotation_statistics (fl : Q -> Q)
    (annotations : list MedicalAnnotation) : Statistics :=
  let type_counts :=
    fold_left (fun counts ann => count_up (value (annotation_type ann)) counts)
              annotations [] in
  let confidence_scores := map confidence annotations in
  mkStatistics
    (length annotations)
    type_counts
    match confidence_scores with
    | [] => 0%Q
    | _ => fdiv fl (fold_left (fadd fl) confidence_scores 0%Q)
                (inject_Z (Z.of_nat (length confidence_scores)))
    end
    match confidence_scores with
    | [] => 0%Q
    | first :: others => py_min_of first others
    end
    match confidence_scores with
    | [] => 0%Q
    | first :: others => py_max_of first others
    end.

(** *** The merge returns annotations of its input *)

Lemma insert_In x y l : In y (insert x l) <-> y = x \/ In y l.
Proof.
  induction l as [|z l IH]; simpl; [intuition auto|].
  destruct (key_le x z); simpl; [intuition auto|].
  rewrite IH. intuition auto.
Qed.

Lemma sorted_In y l : In y (sorted l) <-> In y l.
Proof.
  induction l as [|x l IH]; simpl; [tauto|].
  rewrite insert_In, IH. intuition auto.
Qed.

Lemma sorted_length l : length (sorted l) = length l.
Proof.
  assert (Hi : forall x t, length (insert x t) = S (length t)).
  { intros x t. induction t as [|y t IH]; simpl; [reflexivity|].
    destruct (key_le x y); simpl; [reflexivity | rewrite IH; reflexivity]. }
  induction l as [|x l IH]; simpl; [reflexivity|].
  rewrite Hi, IH. reflexivity.
Qed.

Lemma step_rev_In r c y : In y (step_rev r c) -> y = c \/ In y r.
Proof.
  unfold step_rev. destruct r as [|last r']; [simpl; intuition auto|].
  destruct (Z.leb (start_pos c) (end_pos last)); [destruct (wins c last)|];
    simpl; intuition auto.
Qed.

Lemma step_rev_shape r c :
  step_rev r c <> [] /\ length (step_rev r c) <= S (length r).
Proof.
  unfold step_rev. destruct r as [|last r']; [simpl; split; [discriminate|lia]|].
  destruct (Z.leb (start_pos c) (end_pos last)); [destruct (wins c last)|];
    simpl; split; try discriminate; lia.
Qed.

Lemma fold_step_rev_In l : forall r y,
  In y (fold_left step_rev l r) -> In y l \/ In y r.
Proof.
  induction l as [|c l IH]; intros r y; cbn [fold_left]; [tauto|].
  intros H. destruct (IH _ _ H) as [Hl|Hs]; [left; right; exact Hl|].
  destruct (step_rev_In _ _ _ Hs) as [->|Hr]; [left; left; reflexivity|].
  right. exact Hr.
Qed.

Lemma fold_step_rev_shape l : forall r,
  (l <> [] \/ r <> [] -> fold_left step_rev l r <> []) /\
  length (fold_left step_rev l r) <= length l + length r.
Proof.
  induction l as [|c l IH]; intros r; cbn [fold_left].
  - split; [intros [H|H]; [contradiction H; reflexivity | exact H] | simpl; lia].
  - destruct (IH (step_rev r c)) as [Hne Hlen].
    pose proof (step_rev_shape r c) as [Hs Hl]. split.
    + intros _. apply Hne. right. exact Hs.
    + cbn [length]. lia.
Qed.

Lemma merge_In l y : In y (_merge_overlapping_annotations l) -> In y l.
Proof.
  destruct l as [|x l]; [intros []|]. unfold _merge_overlapping_annotations.
  intros H. apply in_rev in H. rewrite fold_merge_step_rev in H.
  destruct (fold_step_rev_In _ _ _ H) as [Hs|[]].
  apply sorted_In. exact Hs.
Qed.

(** X14. The merge makes no annotation of its own: what it returns was in its
    input; it returns no more annotations than it was given, and at least
    one when it was given any. *)
Theorem merge_returns_annotations_of_the_input :
  forall (annotations : list MedicalAnnotation),
    (forall ann, In ann (_merge_overlapping_annotations annotations) ->
                 In ann annotations) /\
    length (_merge_overlapping_annotations annotations) <= length annotations /\
    (annotations <> [] -> _merge_overlapping_annotations annotations <> []).
Proof.
  intros l. split; [intros y; apply merge_In|].
  destruct l as [|x l]; [split; [simpl; lia | intros H; exact H]|].
  unfold _merge_overlapping_annotations.
  pose proof (fold_step_rev_shape (sorted (x :: l)) (rev [])) as [Hne Hlen].
  rewrite <- (fold_merge_step_rev (sorted (x :: l)) []) in Hne, Hlen.
  rewrite length_rev, sorted_length in Hlen. cbn [rev length] in Hlen. split.
  - cbn [length] in *. lia.
  - intros _ Hnil. apply Hne; [|rewrite Hnil; reflexivity].
    left. intros Hs. apply (f_equal (@length _)) in Hs.
    rewrite sorted_length in Hs. discriminate.
Qed.

(** *** Every annotation marks its text *)

(** The annotation lies inside the text, and the slice between its two
    positions is its text. *)
Definition marks (source_text : pystr) (ann : MedicalAnnotation) : Prop :=
  (0 <= start_pos ann <= end_pos ann)%Z /\
  (end_pos ann <= Z.of_nat (length source_text))%Z /\
  substring source_text (Z.to_nat (start_pos ann)) (Z.to_nat (end_pos ann))
  = text ann.

Lemma finditer_lit term s st en g :
  In (st, en, g) (re_finditer (Lit term) s) -> g = term.
Proof.
  intros H. apply accepts_lit.
  unfold re_finditer in H. apply spans_groups in H.
  unfold all_matches in H. exact (matches_sound _ _ _ _ _ H).
Qed.

Lemma found_marks s r st en g t c md :
  In (st, en, g) (re_finditer r s) ->
  marks s (mkAnn g (Z.of_nat st) (Z.of_nat en) t c md).
Proof.
  intros H. destruct (finditer_spans _ _ _ _ _ H) as (H1 & H2 & H3 & _).
  unfold marks. cbn [start_pos end_pos text]. rewrite !Nat2Z.id.
  repeat split; try lia. exact H3.
Qed.

Lemma dictionary_type_has name types t :
  dictionary_type name types = Some t -> has t types = true.
Proof.
  unfold dictionary_type.
  repeat match goal with
         | |- (if ?b && ?h then _ else _) = _ -> _ =>
             destruct b; cbn [andb]; [destruct h eqn:?|]
         end; intros H; try discriminate; injection H as <-; assumption.
Qed.

Lemma rule_type_has name types t :
  rule_type name types = Some t -> has t types = true.
Proof.
  unfold rule_type.
  repeat match goal with
         | |- (if ?b && ?h then _ else _) = _ -> _ =>
             destruct b; cbn [andb]; [destruct h eqn:?|]
         end; intros H; try discriminate; injection H as <-; assumption.
Qed.

Lemma dictionary_annotation dicts s types ann :
  In ann (_annotate_by_dictionary dicts s types) ->
  marks s ann /\ has (annotation_type ann) types = true /\
  confidence ann = 9 # 10 /\
  exists dict_name terms,
    In (dict_name, terms) dicts /\ In (text ann) terms /\
    metadata ann = [(U "source", U "dictionary"); (U "dictionary", dict_name)].
Proof.
  unfold _annotate_by_dictionary. intros H.
  apply in_flat_map in H. destruct H as ([name terms] & Hd & H).
  destruct (dictionary_type name types) as [t|] eqn:Et; [|destruct H].
  apply in_flat_map in H. destruct H as (term & Hterm & H).
  apply in_map_iff in H. destruct H as ([[st en] g] & <- & Hfound).
  pose proof (finditer_lit _ _ _ _ _ Hfound) as ->.
  split; [exact (found_marks _ _ _ _ _ _ _ _ Hfound)|].
  split; [exact (dictionary_type_has _ _ _ Et)|].
  split; [reflexivity|]. exists name, terms. auto.
Qed.

Lemma rule_annotation rules s types ann :
  In ann (_annotate_by_rules rules s types) ->
  marks s ann /\ has (annotation_type ann) types = true /\
  confidence ann = 7 # 10 /\
  exists rule_name patterns pattern,
    In (rule_name, patterns) rules /\ In pattern patterns /\
    accepts (snd pattern) (text ann) /\
    metadata ann = [(U "source", U "rule"); (U "pattern", fst pattern)].
Proof.
  unfold _annotate_by_rules. intros H.
  apply in_flat_map in H. destruct H as ([name patterns] & Hd & H).
  destruct (rule_type name types) as [t|] eqn:Et; [|destruct H].
  apply in_flat_map in H. destruct H as (pattern & Hpat & H).
  apply in_map_iff in H. destruct H as ([[st en] g] & <- & Hfound).
  split; [exact (found_marks _ _ _ _ _ _ _ _ Hfound)|].
  split; [exact (rule_type_has _ _ _ Et)|].
  split; [reflexivity|]. exists name, patterns, pattern.
  repeat split; try assumption.
  unfold re_finditer in Hfound. apply spans_groups in Hfound.
  exact (matches_sound _ _ _ _ _ Hfound).
Qed.

(** X15. Every annotation that [annotate_medical_text] returns lies inside the
    text and its [text] is the slice between its two positions; its type
    is one of the types asked for; and it is either a term of a dictionary,
    with confidence 0.9, or a match of a rule, with confidence 0.7. This
    holds for whatever dictionaries and rules the annotator was loaded
    with. *)
Theorem returned_annotations_mark_their_text :
  forall (medical_dictionaries : list (pystr * list pystr))
         (annotation_rules : list (pystr * list (pystr * re)))
         (source_text : pystr) (annotation_types : option (list AnnotationType))
         (ann : MedicalAnnotation),
    In ann (merged_annotations medical_dictionaries annotation_rules
              source_text annotation_types) ->
    (0 <= start_pos ann <= end_pos ann)%Z /\
    (end_pos ann <= Z.of_nat (length source_text))%Z /\
    substring source_text (Z.to_nat (start_pos ann)) (Z.to_nat (end_pos ann))
    = text ann /\
    has (annotation_type ann)
        match annotation_types with
        | None => all_types
        | Some given => given
        end = true /\
    ((confidence ann = 9 # 10 /\
      exists dict_name terms,
        In (dict_name, terms) medical_dictionaries /\ In (text ann) terms) \/
     (confidence ann = 7 # 10 /\
      exists rule_name patterns pattern,
        In (rule_name, patterns) annotation_rules /\ In pattern patterns /\
        accepts (snd pattern) (text ann))).
Proof.
  intros dicts rules s types ann Hin. unfold merged_annotations in Hin.
  apply merge_In, in_app_or in Hin. destruct Hin as [Hd|Hr].
  - destruct (dictionary_annotation _ _ _ _ Hd)
      as ((H1 & H2 & H3) & Ht & Hc & name & terms & Hn & Hterm & _).
    repeat split; try assumption; try apply H1.
    left. split; [exact Hc|]. exists name, terms. auto.
  - destruct (rule_annotation _ _ _ _ Hr)
      as ((H1 & H2 & H3) & Ht & Hc & name & pats & pat & Hn & Hp & Ha & _).
    repeat split; try assumption; try apply H1.
    right. split; [exact Hc|]. exists name, pats, pat. auto.
Qed.

(** The dictionary hit on 腺癌 in the text 腺癌坏死. *)
Definition gland_cancer : MedicalAnnotation :=
  mkAnn (U "腺癌") 0 2 DISEASE (9 # 10)
        [(U "source", U "dictionary"); (U "dictionary", U "diseases")].

Lemma gland_cancer_witness :
  In gland_cancer
     (merged_annotations _load_medical_dictionaries _load_annotation_rules
        (U "腺癌坏死") None) /\
  substring (U "腺癌坏死") 0 2 = U "腺癌".
Proof.
  assert (H : In gland_cancer
                 (merged_annotations _load_medical_dictionaries
                    _load_annotation_rules (U "腺癌坏死") None))
    by (vm_compute; left; reflexivity).
  split; [exact H|].
  exact (proj1 (proj2 (proj2 (returned_annotations_mark_their_text
                                _ _ _ _ _ H)))).
Defined.

(** *** The statistics *)

Definition counted (type_counts : list (pystr * nat)) : nat :=
  list_sum (map snd type_counts).

Lemma count_up_spec key counts :
  counted (count_up key counts) = S (counted counts) /\
  (NoDup (map fst counts) -> NoDup (map fst (count_up key counts))) /\
  (Forall (fun kn => 1 <= snd kn) counts ->
   Forall (fun kn => 1 <= snd kn) (count_up key counts)) /\
  (forall k, In k (map fst (count_up key counts))
             <-> k = key \/ In k (map fst counts)).
Proof.
  unfold counted. induction counts as [|[k n] counts IH]; cbn [count_up].
  - cbn. repeat split; try (repeat constructor; auto; fail);
      intuition auto.
  - destruct IH as (IH1 & IH2 & IH3 & IH4).
    destruct (str_eqb k key) eqn:E.
    + apply str_eqb_eq in E. subst k. cbn [map fst snd list_sum fold_right].
      split; [unfold list_sum in *; cbn [fold_right]; lia|]. split; [auto|].
      split.
      * intros H. inversion H; subst. constructor; [cbn [snd] in *; lia|assumption].
      * intros k. cbn [In]. intuition auto.
    + cbn [map fst snd].
      split; [unfold list_sum in *; cbn [fold_right]; lia|]. split; [|split].
      * intros H. inversion H as [|? ? Hk Hnd]; subst.
        constructor; [|auto]. intros Hin. apply IH4 in Hin.
        destruct Hin as [->|Hin]; [|contradiction].
        assert (str_eqb key key = true) by (apply str_eqb_eq; reflexivity).
        congruence.
      * intros H. inversion H; subst. constructor; auto.
      * intros k'. cbn [In]. rewrite IH4. intuition auto.
Qed.

Lemma type_counts_spec (l : list MedicalAnnotation) : forall counts,
  let final :=
    fold_left (fun counts ann => count_up (value (annotation_type ann)) counts)
              l counts in
  counted final = length l + counted counts /\
  (NoDup (map fst counts) -> NoDup (map fst final)) /\
  (Forall (fun kn => 1 <= snd kn) counts ->
   Forall (fun kn => 1 <= snd kn) final) /\
  (forall k, In k (map fst final)
             <-> In k (map (fun ann => value (annotation_type ann)) l)
                 \/ In k (map fst counts)).
Proof.
  induction l as [|a l IH]; intros counts; cbn [fold_left].
  - cbn. intuition auto.
  - specialize (IH (count_up (value (annotation_type a)) counts)).
    cbv zeta in *. destruct IH as (IH1 & IH2 & IH3 & IH4).
    destruct (count_up_spec (value (annotation_type a)) counts)
      as (C1 & C2 & C3 & C4).
    split; [rewrite IH1, C1; cbn [length]; lia|].
    split; [auto|]. split; [auto|].
    intros k. rewrite IH4, C4. cbn [map In]. intuition auto.
Qed.

Lemma py_min_of_spec others : forall first,
  (py_min_of first others <= first)%Q /\
  Forall (fun x => py_min_of first others <= x)%Q others /\
  In (py_min_of first others) (first :: others).
Proof.
  unfold py_min_of.
  induction others as [|x others IH]; intros first; cbn [fold_left].
  - split; [apply Qle_refl|]. split; [constructor | left; reflexivity].
  - destruct (Qlt_le_dec x first) as [Hlt|Hle].
    + destruct (IH x) as (H1 & H2 & H3).
      split; [apply Qlt_le_weak in Hlt; eapply Qle_trans; eassumption|].
      split; [constructor; assumption|].
      destruct H3 as [H3|H3]; [right; left; exact H3 | right; right; exact H3].
    + destruct (IH first) as (H1 & H2 & H3).
      split; [exact H1|].
      split; [constructor; [eapply Qle_trans; eassumption | assumption]|].
      destruct H3 as [H3|H3]; [left; exact H3 | right; right; exact H3].
Qed.

Lemma py_max_of_spec others : forall first,
  (first <= py_max_of first others)%Q /\
  Forall (fun x => x <= py_max_of first others)%Q others /\
  In (py_max_of first others) (first :: others).
Proof.
  unfold py_max_of.
  induction others as [|x others IH]; intros first; cbn [fold_left].
  - split; [apply Qle_refl|]. split; [constructor | left; reflexivity].
  - destruct (Qlt_le_dec first x) as [Hlt|Hle].
    + destruct (IH x) as (H1 & H2 & H3).
      split; [apply Qlt_le_weak in Hlt; eapply Qle_trans; eassumption|].
      split; [constructor; assumption|].
      destruct H3 as [H3|H3]; [right; left; exact H3 | right; right; exact H3].
    + destruct (IH first) as (H1 & H2 & H3).
      split; [exact H1|].
      split; [constructor; [eapply Qle_trans; eassumption | assumption]|].
      destruct H3 as [H3|H3]; [left; exact H3 | right; right; exact H3].
Qed.

(** X16. The statistics of a list of annotations: the total is the number of
    annotations; the type distribution names exactly the types that occur,
    each once and with a count of at least one, and its counts add up to
    the total; the least and the greatest confidence are confidences of
    annotations of the list and bound the confidence of every one. *)
Theorem statistics_count_every_annotation_once :
  forall (fl : Q -> Q) (annotations : list MedicalAnnotation),
    let statistics := _generate_annotation_statistics fl annotations in
    total_annotations statistics = length annotations /\
    list_sum (map snd (type_distribution statistics))
    = total_annotations statistics /\
    NoDup (map fst (type_distribution statistics)) /\
    (forall name count, In (name, count) (type_distribution statistics) ->
       1 <= count /\ exists ann, In ann annotations /\
                                 value (annotation_type ann) = name) /\
    (forall ann, In ann annotations ->
       In (value (annotation_type ann))
          (map fst (type_distribution statistics)) /\
       (min_confidence statistics <= confidence ann
        <= max_confidence statistics)%Q /\
       In (min_confidence statistics) (map confidence annotations) /\
       In (max_confidence statistics) (map confidence annotations)).
Proof.
  intros fl l statistics. subst statistics.
  unfold _generate_annotation_statistics.
  cbn [total_annotations type_distribution min_confidence max_confidence].
  destruct (type_counts_spec l []) as (T1 & T2 & T3 & T4). cbv zeta in *.
  split; [reflexivity|].
  split; [unfold counted in T1; rewrite T1; cbn; lia|].
  split; [apply T2; constructor|]. split.
  - intros name count Hin. split.
    + specialize (T3 ltac:(constructor)). rewrite Forall_forall in T3.
      exact (T3 _ Hin).
    + assert (Hk : In name (map fst (fold_left
                 (fun counts ann => count_up (value (annotation_type ann)) counts)
                 l []))) by (apply in_map_iff; exists (name, count); auto).
      apply T4 in Hk. destruct Hk as [Hk|[]].
      apply in_map_iff in Hk. destruct Hk as (ann & Hv & Ha).
      exists ann. auto.
  - intros ann Hin. split.
    + apply T4. left. apply in_map_iff. exists ann. auto.
    + destruct l as [|a l]; [destruct Hin|]. cbn [map].
      destruct (py_min_of_spec (map confidence l) (confidence a))
        as (M1 & M2 & M3).
      destruct (py_max_of_spec (map confidence l) (confidence a))
        as (X1 & X2 & X3).
      split; [|split; assumption].
      destruct Hin as [<-|Hin]; [split; assumption|].
      rewrite Forall_forall in M2, X2.
      assert (Hc : In (confidence ann) (map confidence l))
        by (apply in_map; exact Hin).
      split; [exact (M2 _ Hc) | exact (X2 _ Hc)].
Qed.

End Annotation.

(* ================================================================== *)
(** ** knowledge_base_integrator.py: counts of an integration; the
       indices of the knowledge base *)

Module IntegratorFacts.
Import PyStr PyStrFacts RegexFacts Integrator.
Local Open Scope nat_scope.

Section Integration.
Variable json_loads : pystr -> option pyval.
Variable py_str : pyval -> pystr.
Variable str_lower : pystr -> pystr.
Variable clock : nat -> pystr.
Variable bulk : list BulkCall -> BulkCall -> BulkOutcome.

(** The conversion returns two documents for each pair it converts. *)
Lemma convert_loop_pairs (l : list pyval) : forall k w,
  exists converted,
    converted <= length l /\
    length (fst (convert_loop json_loads py_str clock k l w)) = 2 * converted.
Proof.
  induction l as [|item l IH]; intros k w.
  - exists 0. split; [simpl; lia | reflexivity].
  - cbn [convert_loop]. unfold bind.
    destruct (convert_item json_loads py_str clock k item w) as [c w1].
    destruct (IH (S k) w1) as (n & Hn & Hlen).
    destruct (convert_loop json_loads py_str clock (S k) l w1) as [docs w2].
    unfold ret. cbn [fst] in *. destruct c as [[qd ad]|].
    + exists (S n). cbn [length]. split; lia.
    + exists n. cbn [length]. split; lia.
Qed.

Lemma bulk_operations_length (documents : list Document) (name : pystr) :
  length (bulk_operations documents name) = 2 * length documents.
Proof.
  unfold bulk_operations.
  induction documents as [|doc documents IH]; [reflexivity|].
  cbn [flat_map app length]. rewrite IH. lia.
Qed.

(** X17. An integration of a data set that is not empty. Some number of pairs
    is converted, no more than were given and all of them when every pair
    is complete; twice as many documents are made and four times as many
    bulk operations sent. On success the engine has answered the one bulk
    call, [total_processed] is the number of pairs converted, not of
    pairs given, [total_documents_created] is twice that, and
    [total_indexed] counts the items answered with 200 or 201. Otherwise
    [total_processed] is 0, and either nothing was converted or the engine
    raised the error reported. *)
Theorem integration_counts_converted_pairs :
  forall (qa_dataset : list pyval) (index_name : pystr) (w : World),
    qa_dataset <> [] ->
    let documents :=
      fst (_convert_qa_to_documents json_loads py_str clock qa_dataset w) in
    let name := str_lower (str_lower index_name) in
    let call := mkBulkCall name (bulk_operations documents name) in
    exists converted,
      converted <= length qa_dataset /\
      (Forall complete_pair qa_dataset -> converted = length qa_dataset) /\
      length documents = 2 * converted /\
      length (call_operations call) = 4 * converted /\
      match fst (integrate_qa_dataset json_loads py_str str_lower clock bulk
                   qa_dataset index_name w) with
      | Indexed total_processed total_documents_created total_indexed
                indexed_name _ method =>
          0 < converted /\
          total_processed = converted /\
          total_documents_created = 2 * converted /\
          indexed_name = name /\ method = U "direct_bulk_index" /\
          exists response,
            bulk (calls w) call = Responds response /\
            total_indexed = length (filter accepted (items response)) /\
            total_indexed <= length (items response)
      | NotIndexed error total_processed indexed_name =>
          total_processed = 0 /\ indexed_name = Some name /\
          (converted = 0 \/ bulk (calls w) call = Raises error)
      end.
Proof.
  intros qa_dataset index_name w Hne documents name call.
  destruct (convert_loop_pairs qa_dataset 0 w) as (n & Hn & Hlen).
  exists n. split; [exact Hn|]. split; [|split; [exact Hlen|split]].
  - intros Hall.
    destruct (convert_loop_complete json_loads py_str clock qa_dataset Hall 0 w)
      as [Hlen' _]. lia.
  - subst call. cbn [call_operations]. rewrite bulk_operations_length.
    subst documents. unfold _convert_qa_to_documents. lia.
  - destruct qa_dataset as [|item rest]; [contradiction Hne; reflexivity|].
    subst documents call. unfold integrate_qa_dataset, bind.
    unfold _convert_qa_to_documents in *.
    pose proof (convert_loop_calls json_loads py_str clock (item :: rest) 0 w)
      as Hcalls.
    destruct (convert_loop json_loads py_str clock 0 (item :: rest) w)
      as [docs w1]. cbn [fst snd] in *.
    unfold _direct_bulk_index. fold name.
    destruct docs as [|doc docs].
    + cbn [fst ret]. unfold ret. cbn [fst].
      split; [reflexivity|]. split; [reflexivity|]. left.
      cbn [length] in Hlen. lia.
    + cbn [bulk_operations flat_map app]. unfold bind, client_bulk.
      rewrite Hcalls.
      change (OpIndex name :: _ :: flat_map _ docs)
        with (bulk_operations (doc :: docs) name).
      destruct (bulk (calls w) (mkBulkCall name
                                  (bulk_operations (doc :: docs) name)))
        as [response|message] eqn:Eb.
      * unfold now, ret. cbn [fst].
        split; [cbn [length] in Hlen; lia|].
        split; [rewrite Hlen, Nat.mul_comm; apply Nat.div_mul; lia|].
        split; [exact Hlen|]. split; [reflexivity|]. split; [reflexivity|].
        exists response. split; [reflexivity|].
        split; [reflexivity | apply filter_at_most].
      * unfold ret. cbn [fst]. split; [reflexivity|]. split; [reflexivity|].
        right. reflexivity.
Qed.

End Integration.

(** One complete pair, sent to an engine that accepts what it is sent. *)
Definition one_pair : list pyval :=
  [PDict [(U "question", PStr (U "什么是腺癌？"));
          (U "answer", PStr (U "腺癌是指腺上皮的恶性肿瘤"))]].

Definition accepting : list BulkCall -> BulkCall -> BulkOutcome :=
  fun _ call =>
    Responds (mkBulkResponse false
                (map (fun _ => Some (mkIndexOutcome (Some 201%Z) None))
                     (seq 0 (length (call_operations call) / 2)))).

Lemma one_pair_witness :
  exists converted,
    converted = 1 /\
    length (fst (_convert_qa_to_documents no_json plain_str midnight one_pair
                   start)) = 2 * converted.
Proof.
  assert (Hne : one_pair <> []) by discriminate.
  assert (Hall : Forall complete_pair one_pair)
    by (repeat constructor; do 3 eexists; repeat split; reflexivity).
  destruct (integration_counts_converted_pairs
              no_json plain_str (fun name => name) midnight accepting
              one_pair (U "medical_pathology_kb_demo") start Hne)
    as (converted & _ & Hcomplete & Hdocs & _).
  exists converted. split; [exact (Hcomplete Hall) | exact Hdocs].
Defined.

(** *** The indices of the knowledge base *)

(** A call of the class to the engine core behind [self.es_core]. *)
Inductive EngineCall : Type :=
| CreateVectorIndex (index_name : pystr)
| GetUserIndices
| GetIndexStats (index_name : pystr)
| DeleteIndex (index_name : pystr).

(** What a call does: it returns or it raises, with the text of [str(e)]. *)
Inductive Answer (A : Type) : Type :=
| Returns (value : A)
| Throws (message : pystr).
Arguments Returns {A} value.
Arguments Throws {A} message.

(** The calls made so far and the number of readings of the clock. *)
Record Admin : Type := mkAdmin {
  engine_log : list EngineCall;
  clock_reads : nat
}.

Definition record_call (call : EngineCall) (s : Admin) : Admin :=
  mkAdmin (engine_log s ++ [call]) (clock_reads s).

Definition tick (s : Admin) : Admin :=
  mkAdmin (engine_log s) (S (clock_reads s)).

(** [self.medical_index_prefix] *)
Definition medical_index_prefix : pystr := U "medical_pathology_kb".

Inductive CreateResult : Type :=
| Created (index_name message created_at : pystr)
| NotCreated (error index_name : pystr).

Inductive DeleteResult : Type :=
| Deleted (message index_name deleted_at : pystr)
| NotDeleted (error index_name : pystr).

(** An entry of [indices_info]: the statistics, or the error of the call
    that should have fetched them. *)
Inductive IndexInfo (Stats : Type) : Type :=
| Stats_of (stats : Stats)
| StatsError (error : pystr).
Arguments Stats_of {Stats} stats.
Arguments StatsError {Stats} error.

Inductive ListResult (Stats : Type) : Type :=
| Listed (total_medical_indices : nat) (medical_indices : list pystr)
         (indices_info : list (pystr * IndexInfo Stats)) (query_time : pystr)
| NotListed (error : pystr).
Arguments Listed {Stats} total_medical_indices medical_indices indices_info
  query_time.
Arguments NotListed {Stats} error.

(** [d[key] = v] on a dictionary kept in insertion order. *)
Fixpoint set_item {V : Type} (key : pystr) (v : V) (d : list (pystr * V))
    : list (pystr * V) :=
  match d with
  | [] => [(key, v)]
  | (k, old) :: rest =>
      if str_eqb k key then (k, v) :: rest else (k, old) :: set_item key v rest
  end.

Section Indices.
(** The engine core, each answer depending on the calls made before; the
    statistics it returns are left abstract. [strftime] and [isoformat]
    give the two texts of the n-th reading of the clock. *)
Variable Stats : Type.
Variable create_vector_index : list EngineCall -> pystr -> Answer bool.
Variable get_user_indices : list EngineCall -> Answer (list pystr).
Variable get_index_stats : list EngineCall -> pystr -> Answer Stats.
Variable delete_index : list EngineCall -> pystr -> Answer bool.
Variable strftime : nat -> pystr.
Variable isoformat : nat -> pystr.

(** [index_name] is [None] or a string; [not index_name] holds for [None]
    and for the empty string. *)
Definition create_medical_knowledge_index (index_name : option pystr)
    (s : Admin) : CreateResult * Admin :=
  let '(index_name, s) :=
    match index_name with
    | Some (c :: name) => (c :: name, s)
    | _ =>
        let timestamp := strftime (clock_reads s) in
        (medical_index_prefix ++ U "_" ++ timestamp, tick s)
    end in
  let answer := create_vector_index (engine_log s) index_name in
  let s := record_call (CreateVectorIndex index_name) s in
  match answer with
  | Throws message => (NotCreated message index_name, s)
  | Returns true =>
      (Created index_name
         (U "医疗知识库索引 " ++ index_name ++ U " 创建成功")
         (isoformat (clock_reads s)), tick s)
  | Returns false =>
      (NotCreated (U "索引 " ++ index_name ++ U " 创建失败") index_name, s)
  end.

(** The loop of lines 383-389. *)
Fixpoint stats_loop (medical_indices : list pystr)
    (indices_info : list (pystr * IndexInfo Stats)) (s : Admin)
    : list (pystr * IndexInfo Stats) * Admin :=
  match medical_indices with
  | [] => (indices_info, s)
  | index_name :: rest =>
      let answer := get_index_stats (engine_log s) index_name in
      let s := record_call (GetIndexStats index_name) s in
      let info :=
        match answer with
        | Returns stats => Stats_of stats
        | Throws message => StatsError message
        end in
      stats_loop rest (set_item index_name info indices_info) s
  end.

Definition get_medical_indices (s : Admin) : ListResult Stats * Admin :=
  let answer := get_user_indices (engine_log s) in
  let s := record_call GetUserIndices s in
  match answer with
  | Throws message => (NotListed message, s)
  | Returns all_indices =>
      let medical_indices :=
        filter (startswith medical_index_prefix) all_indices in
      let '(indices_info, s) := stats_loop medical_indices [] s in
      (Listed (length medical_indices) medical_indices indices_info
              (isoformat (clock_reads s)), tick s)
  end.

Definition delete_medical_index (index_name : pystr) (s : Admin)
    : DeleteResult * Admin :=
  if negb (startswith medical_index_prefix index_name) then
    (NotDeleted (U "索引 " ++ index_name ++ U " 不是医疗知识库索引") index_name,
     s)
  else
    let answer := delete_index (engine_log s) index_name in
    let s := record_call (DeleteIndex index_name) s in
    match answer with
    | Throws message => (NotDeleted message index_name, s)
    | Returns true =>
        (Deleted (U "医疗知识库索引 " ++ index_name ++ U " 删除成功") index_name
                 (isoformat (clock_reads s)), tick s)
    | Returns false =>
        (NotDeleted (U "索引 " ++ index_name ++ U " 删除失败") index_name, s)
    end.

(** The index named in a result of [create_medical_knowledge_index]. *)
Definition created_name (r : CreateResult) : pystr :=
  match r with
  | Created index_name _ _ => index_name
  | NotCreated _ index_name => index_name
  end.

Definition listed_names (r : ListResult Stats) : list pystr :=
  match r with
  | Listed _ medical_indices _ _ => medical_indices
  | NotListed _ => []
  end.

Definition asks_to_delete (index_name : pystr) (s : Admin) : Prop :=
  engine_log (snd (delete_medical_index index_name s))
  = engine_log s ++ [DeleteIndex index_name].

Lemma delete_guard (index_name : pystr) (s : Admin) :
  (startswith medical_index_prefix index_name = false ->
   delete_medical_index index_name s
   = (NotDeleted (U "索引 " ++ index_name ++ U " 不是医疗知识库索引")
                 index_name, s)) /\
  (startswith medical_index_prefix index_name = true ->
   asks_to_delete index_name s).
Proof.
  unfold asks_to_delete, delete_medical_index. split; intros ->; cbn [negb].
  - reflexivity.
  - destruct (delete_index (engine_log s) index_name) as [[|]|]; reflexivity.
Qed.

(** X18. [delete_medical_index] asks the engine to delete an index exactly when
    its name starts with the prefix of the knowledge base, and then once;
    for any other name it fails, makes no call and does not read the
    clock. It reports success exactly when the engine returned true. *)
Theorem delete_calls_engine_only_for_medical_indices :
  forall (index_name : pystr) (s : Admin),
    (startswith medical_index_prefix index_name = false ->
     delete_medical_index index_name s
     = (NotDeleted (U "索引 " ++ index_name ++ U " 不是医疗知识库索引")
                   index_name, s)) /\
    (startswith medical_index_prefix index_name = true ->
     engine_log (snd (delete_medical_index index_name s))
     = engine_log s ++ [DeleteIndex index_name]) /\
    ((exists message deleted_at,
         fst (delete_medical_index index_name s)
         = Deleted message index_name deleted_at)
     <-> startswith medical_index_prefix index_name = true /\
         delete_index (engine_log s) index_name = Returns true).
Proof.
  intros index_name s. split; [apply delete_guard|].
  split; [apply delete_guard|].
  unfold delete_medical_index.
  destruct (startswith medical_index_prefix index_name); cbn [negb].
  - destruct (delete_index (engine_log s) index_name) as [[|]|]; cbn [fst];
      split.
    + auto.
    + intros _. do 2 eexists. reflexivity.
    + intros (m & d & H). discriminate.
    + intros [_ H]. discriminate.
    + intros (m & d & H). discriminate.
    + intros [_ H]. discriminate.
  - cbn [fst]. split; [intros (m & d & H); discriminate|].
    intros [H _]. discriminate.
Qed.

Lemma set_item_keys {V : Type} (key : pystr) (v : V) (d : list (pystr * V)) :
  forall k, In k (map fst (set_item key v d)) <-> k = key \/ In k (map fst d).
Proof.
  induction d as [|[k0 old] d IH]; intros k; cbn [set_item map fst In].
  - intuition auto.
  - destruct (str_eqb k0 key) eqn:E; cbn [map fst In].
    + apply str_eqb_eq in E. subst k0. intuition auto.
    + rewrite IH. intuition auto.
Qed.

Lemma stats_loop_keys (names : list pystr) : forall info s k,
  In k (map fst (fst (stats_loop names info s)))
  <-> In k names \/ In k (map fst info).
Proof.
  induction names as [|name names IH]; intros info s k; cbn [stats_loop].
  - cbn [fst In]. tauto.
  - rewrite IH, set_item_keys. cbn [In]. intuition auto.
Qed.

(** X19. What the class itself names can be deleted through it: the name that
    [create_medical_knowledge_index] makes up when it is given none, and
    every index that [get_medical_indices] lists, pass the prefix test of
    [delete_medical_index]. The indices listed are those of the engine
    that start with the prefix, in the engine's order, counted by
    [total_medical_indices], and each of them has its entry in
    [indices_info]. *)
Theorem named_and_listed_indices_can_be_deleted :
  forall (s s' : Admin),
    asks_to_delete (created_name (fst (create_medical_knowledge_index None s)))
                   s' /\
    asks_to_delete
      (created_name (fst (create_medical_knowledge_index (Some []) s))) s' /\
    (forall index_name,
        In index_name (listed_names (fst (get_medical_indices s))) ->
        asks_to_delete index_name s') /\
    match fst (get_medical_indices s) with
    | Listed total_medical_indices medical_indices indices_info _ =>
        total_medical_indices = length medical_indices /\
        (forall index_name,
            In index_name medical_indices <-> In index_name (map fst indices_info)) /\
        exists all_indices,
          get_user_indices (engine_log s) = Returns all_indices /\
          medical_indices
          = filter (startswith medical_index_prefix) all_indices
    | NotListed error => get_user_indices (engine_log s) = Throws error
    end.
Proof.
  intros s s'.
  assert (Hdefault : forall opt, opt = None \/ opt = Some [] ->
            asks_to_delete
              (created_name (fst (create_medical_knowledge_index opt s))) s').
  { intros opt Hopt. apply delete_guard.
    assert (Hname : created_name (fst (create_medical_knowledge_index opt s))
                    = medical_index_prefix ++ U "_" ++ strftime (clock_reads s)).
    { unfold create_medical_knowledge_index.
      destruct Hopt as [-> | ->];
        destruct (create_vector_index _ _) as [[|]|]; reflexivity. }
    rewrite Hname. apply startswith_app. }
  split; [apply Hdefault; left; reflexivity|].
  split; [apply Hdefault; right; reflexivity|].
  unfold get_medical_indices.
  destruct (get_user_indices (engine_log s)) as [all_indices|message].
  - pose proof (stats_loop_keys
                  (filter (startswith medical_index_prefix) all_indices) []
                  (record_call GetUserIndices s)) as Hkeys.
    destruct (stats_loop _ [] (record_call GetUserIndices s)) as [info s1].
    cbn [fst listed_names] in *. split.
    + intros name Hin. apply delete_guard. apply filter_In in Hin. apply Hin.
    + split; [reflexivity|]. split.
      * intros name. rewrite Hkeys. cbn [map In]. tauto.
      * exists all_indices. split; reflexivity.
  - cbn [fst listed_names]. split; [intros ? []|reflexivity].
Qed.

End Indices.

End IntegratorFacts.
